(** * server.py: connection registry, broadcast and session handler

    A shallow embedding of [Server] from [server.py] and the properties of
    its wire protocol.

    - [PyStr]: the [str] builtins the handler calls ([split], [strip],
      [int], f-string formatting of an [int], [join]).
    - [PyDict]: an insertion-ordered dictionary, the way [self.players] is
      enumerated by [values()].
    - the registry, the event trace and the state/exception monad the
      methods run in;
    - [broadcast], [handle_client] (loop body, read loop, [finally] block);
    - the interleaving of the handler threads, one atomic step for each
      critical section. *)

From Stdlib Require Import List ZArith NArith Lia Bool String Ascii.
From Stdlib Require Import DecimalString FinFun.
From Stdlib Require DecimalPos DecimalZ.
Import ListNotations.

Set Implicit Arguments.

(** ** Python strings *)

Module PyStr.

(** A [str] is a sequence of Unicode code points. *)
Definition char := N.
Definition str := list char.

(** A literal of the source. *)
Definition text (s : string) : str :=
  List.map N_of_ascii (list_ascii_of_string s).

Definition comma : char := 44%N.
Definition semicolon : char := 59%N.
Definition newline : char := 10%N.

Definition in_range (lo hi ch : N) : bool := ((lo <=? ch) && (ch <=? hi))%N.

(** [str.isspace] on one code point: the characters [str.strip()]
    removes. *)
Definition isspace (ch : char) : bool :=
  in_range 9 13 ch || in_range 28 32 ch
  || (ch =? 133)%N || (ch =? 160)%N || (ch =? 5760)%N
  || in_range 8192 8202 ch || (ch =? 8232)%N || (ch =? 8233)%N
  || (ch =? 8239)%N || (ch =? 8287)%N || (ch =? 12288)%N.

Fixpoint lstrip (s : str) : str :=
  match s with
  | ch :: s' => if isspace ch then lstrip s' else s
  | [] => []
  end.

Definition rstrip (s : str) : str := rev (lstrip (rev s)).

(** [s.strip()] *)
Definition strip (s : str) : str := rstrip (lstrip s).

(** [s.split(sep)] for a one-character separator: never empty, the empty
    string splits into one empty field. *)
Fixpoint split (sep : char) (s : str) : list str :=
  match s with
  | [] => [[]]
  | ch :: s' =>
      if (ch =? sep)%N then [] :: split sep s'
      else match split sep s' with
           | p :: ps => (ch :: p) :: ps
           | [] => [[ch]]
           end
  end.

(** [sep.join(l)] *)
Fixpoint join (sep : str) (l : list str) : str :=
  match l with
  | [] => []
  | a :: l' =>
      match l' with
      | [] => a
      | _ :: _ => a ++ sep ++ join sep l'
      end
  end.

(** [a == b] on strings. *)
Fixpoint eqb (a b : str) : bool :=
  match a, b with
  | [], [] => true
  | x :: a', y :: b' => (x =? y)%N && eqb a' b'
  | _, _ => false
  end.

(** *** [int(s)]

    CPython first maps the string to ASCII: a code point below 127 stays,
    Unicode white space becomes a blank, a Unicode decimal digit becomes
    the ASCII digit of its value, anything else becomes ['?']; then it
    reads optional ASCII white space, an optional sign, digits with single
    underscores between them and optional ASCII white space to the end. *)

(** First code point of every run of ten decimal digits (category Nd)
    beyond ASCII, Unicode 14.0. *)
Definition decimal_zeros : list N :=
  [1632; 1776; 1984; 2406; 2534; 2662; 2790; 2918; 3046; 3174; 3302; 3430;
   3558; 3664; 3792; 3872; 4160; 4240; 6112; 6160; 6470; 6608; 6784; 6800;
   6992; 7088; 7232; 7248; 42528; 43216; 43264; 43472; 43504; 43600; 44016;
   65296; 66720; 68912; 69734; 69872; 69942; 70096; 70384; 70736; 70864;
   71248; 71360; 71472; 71904; 72016; 72784; 73040; 73120; 92768; 92864;
   93008; 120782; 120792; 120802; 120812; 120822; 123200; 123632; 125264;
   130032]%N.

Definition unicode_decimal (ch : char) : option N :=
  match find (fun z => in_range z (z + 9) ch) decimal_zeros with
  | Some z => Some (ch - z)%N
  | None => None
  end.

Definition question_mark : char := 63%N.

Definition to_ascii (ch : char) : char :=
  if (ch <? 127)%N then ch
  else if isspace ch then 32%N
  else match unicode_decimal ch with
       | Some d => (48 + d)%N
       | None => question_mark
       end.

(** C [isspace] in the "C" locale, as [PyLong_FromString] uses it. *)
Definition is_c_space (ch : char) : bool :=
  in_range 9 13 ch || (ch =? 32)%N.

Definition is_digit (ch : char) : bool := in_range 48 57 ch.

Fixpoint skip_space (s : str) : str :=
  match s with
  | ch :: s' => if is_c_space ch then skip_space s' else s
  | [] => []
  end.

(** Digits and underscores; [prev_us] says the previous character was an
    underscore.  Returns the value read and the unread rest. *)
Fixpoint scan_digits (acc : Z) (prev_us : bool) (s : str)
  : option (Z * str) :=
  match s with
  | ch :: s' =>
      if is_digit ch then
        scan_digits (10 * acc + Z.of_N (ch - 48)) false s'
      else if (ch =? 95)%N then
        if prev_us then None else scan_digits acc true s'
      else if prev_us then None else Some (acc, s)
  | [] => if prev_us then None else Some (acc, [])
  end.

Definition parse_unsigned (s : str) : option Z :=
  match s with
  | ch :: _ =>
      if is_digit ch then
        match scan_digits 0 false s with
        | Some (n, rest) =>
            match skip_space rest with
            | [] => Some n
            | _ :: _ => None
            end
        | None => None
        end
      else None
  | [] => None
  end.

(** [int(s)]: [None] stands for [ValueError]. *)
Definition int (s : str) : option Z :=
  match skip_space (List.map to_ascii s) with
  | ch :: s' =>
      if (ch =? 43)%N then parse_unsigned s'
      else if (ch =? 45)%N then option_map Z.opp (parse_unsigned s')
      else parse_unsigned (ch :: s')
  | [] => None
  end.

(** [str(n)] for an [int], what an f-string field [{n}] expands to. *)
Definition of_int (n : Z) : str :=
  text (NilZero.string_of_int (Z.to_int n)).

End PyStr.

(** ** Insertion-ordered dictionary *)

Module PyDict.
Section Dict.
Variable V : Type.

(** Entries in insertion order, keyed by a connection handle. *)
Definition dict := list (nat * V).

(** [d.get(k)] *)
Fixpoint get (k : nat) (d : dict) : option V :=
  match d with
  | [] => None
  | (k', v) :: d' => if Nat.eqb k k' then Some v else get k d'
  end.

(** [k in d] *)
Definition contains (k : nat) (d : dict) : bool :=
  match get k d with Some _ => true | None => false end.

(** [d[k] = v]: an existing key keeps its place, a new one goes last. *)
Fixpoint set (k : nat) (v : V) (d : dict) : dict :=
  match d with
  | [] => [(k, v)]
  | (k', v') :: d' =>
      if Nat.eqb k k' then (k, v) :: d' else (k', v') :: set k v d'
  end.

(** The entries left by [del d[k]] or [d.pop(k)]. *)
Definition del (k : nat) (d : dict) : dict :=
  filter (fun e => negb (Nat.eqb k (fst e))) d.

Definition keys (d : dict) : list nat := List.map fst d.

(** [d.values()] *)
Definition values (d : dict) : list V := List.map snd d.

(** A dictionary holds a key once. *)
Definition wf (d : dict) : Prop := NoDup (keys d).
End Dict.
End PyDict.

(** ** Registry, events, exceptions *)

(** A connection: the identity of a socket object. *)
Definition conn := nat.

(** The value [{"name": name, "x": x, "y": y}] of [self.players]. *)
Module Info.
Record t := mk { name : PyStr.str; x : Z; y : Z }.
End Info.

(** The fields of [Server] that the handlers share. *)
Record Server := mkServer {
  clients : list conn;
  players : PyDict.dict Info.t
}.

Inductive exn := ValueError | KeyError | OSError.

(** What a method does to the outside, in order. *)
Inductive event :=
| LockAcquire
| LockRelease
| SendAll (client : conn) (message : PyStr.str)
| SendAllFailed (client : conn) (message : PyStr.str)
| Close (client : conn)
| Print (e : exn).

Inductive outcome (A : Type) :=
| Return (a : A)
| Raise (e : exn).
Arguments Raise {A} e.

(** A computation on the registry: result or exception, registry after,
    events emitted. *)
Definition M (A : Type) := Server -> outcome A * Server * list event.

Definition ret {A} (a : A) : M A := fun s => (Return a, s, []).

Definition raise {A} (e : exn) : M A := fun s => (Raise e, s, []).

Definition bind {A B} (m : M A) (k : A -> M B) : M B :=
  fun s =>
    match m s with
    | (Return a, s1, t1) =>
        match k a s1 with (r, s2, t2) => (r, s2, t1 ++ t2) end
    | (Raise e, s1, t1) => (Raise e, s1, t1)
    end.

Declare Scope py_scope.
Delimit Scope py_scope with py.
Notation "x <- m ;; k" := (bind m (fun x => k))
  (at level 61, m at next level, right associativity) : py_scope.
Notation "m ;; k" := (bind m (fun _ => k))
  (at level 61, right associativity) : py_scope.
Open Scope py_scope.

(** [try: m  except Exception as e: h e] *)
Definition try_except {A} (m : M A) (h : exn -> M A) : M A :=
  fun s =>
    match m s with
    | (Raise e, s1, t1) =>
        match h e s1 with (r, s2, t2) => (r, s2, t1 ++ t2) end
    | done => done
    end.

(** [with self.lock: m]; the lock is released on an exception too. *)
Definition with_lock {A} (m : M A) : M A :=
  fun s =>
    match m s with (r, s1, t) => (r, s1, LockAcquire :: t ++ [LockRelease]) end.

(** [for a in l: body a] *)
Fixpoint for_each {A} (l : list A) (body : A -> M unit) : M unit :=
  match l with
  | [] => ret tt
  | a :: l' => body a ;; for_each l' body
  end.

(** *** Operations on [self.clients] and [self.players] *)

(** [l.remove(c)]: the first occurrence, [None] when there is none. *)
Fixpoint list_remove (c : conn) (l : list conn) : option (list conn) :=
  match l with
  | [] => None
  | c' :: l' =>
      if Nat.eqb c c' then Some l'
      else option_map (cons c') (list_remove c l')
  end.

Definition contains (c : conn) (l : list conn) : bool :=
  existsb (Nat.eqb c) l.

(** [self.clients[:]] *)
Definition clients_copy : M (list conn) :=
  fun s => (Return (clients s), s, []).

(** [c in self.clients] *)
Definition clients_contains (c : conn) : M bool :=
  fun s => (Return (contains c (clients s)), s, []).

(** [self.clients.append(c)] *)
Definition clients_append (c : conn) : M unit :=
  fun s => (Return tt, mkServer (clients s ++ [c]) (players s), []).

(** [self.clients.remove(c)] *)
Definition clients_remove (c : conn) : M unit :=
  fun s =>
    match list_remove c (clients s) with
    | Some l => (Return tt, mkServer l (players s), [])
    | None => (Raise ValueError, s, [])
    end.

(** [c in self.players] *)
Definition players_contains (c : conn) : M bool :=
  fun s => (Return (PyDict.contains c (players s)), s, []).

(** [self.players[c] = info] *)
Definition players_set (c : conn) (info : Info.t) : M unit :=
  fun s => (Return tt, mkServer (clients s) (PyDict.set c info (players s)), []).

(** [del self.players[c]] *)
Definition players_del (c : conn) : M unit :=
  fun s =>
    if PyDict.contains c (players s)
    then (Return tt, mkServer (clients s) (PyDict.del c (players s)), [])
    else (Raise KeyError, s, []).

(** [self.players.pop(c, None)] *)
Definition players_pop (c : conn) : M (option Info.t) :=
  fun s =>
    (Return (PyDict.get c (players s)),
     mkServer (clients s) (PyDict.del c (players s)), []).

(** [self.players.values()] *)
Definition players_values : M (list Info.t) :=
  fun s => (Return (PyDict.values (players s)), s, []).

(** *** Sockets

    [fails] names the peers whose [sendall] raises during the call at
    hand. *)

Definition sendall (fails : conn -> bool) (client : conn)
  (message : PyStr.str) : M unit :=
  fun s =>
    if fails client then (Raise OSError, s, [SendAllFailed client message])
    else (Return tt, s, [SendAll client message]).

Definition close (client : conn) : M unit :=
  fun s => (Return tt, s, [Close client]).

Definition print_error (e : exn) : M unit :=
  fun s => (Return tt, s, [Print e]).

(** ** [Server.broadcast] *)

(** [client != exclude_socket] *)
Definition differs (client : conn) (exclude_socket : option conn) : bool :=
  match exclude_socket with
  | Some e => negb (Nat.eqb client e)
  | None => true
  end.

Definition broadcast (fails : conn -> bool) (message : PyStr.str)
  (exclude_socket : option conn) : M unit :=
  with_lock (
    snapshot <- clients_copy ;;
    for_each snapshot (fun client =>
      if differs client exclude_socket then
        try_except (sendall fails client message)
          (fun _ =>
             clients_remove client ;;
             (present <- players_contains client ;;
              if present then players_del client else ret tt) ;;
             close client)
      else ret tt)).

(** ** [Server.handle_client] *)

(** The f-string [{info['name']},{info['x']},{info['y']}]. *)
Definition format_info (info : Info.t) : PyStr.str :=
  Info.name info ++ [PyStr.comma] ++ PyStr.of_int (Info.x info)
  ++ [PyStr.comma] ++ PyStr.of_int (Info.y info).

(** [";".join(... for info in self.players.values())] *)
Definition serialize (d : PyDict.dict Info.t) : PyStr.str :=
  PyStr.join [PyStr.semicolon] (List.map format_info (PyDict.values d)).

(** [int(s)], raising [ValueError]. *)
Definition int_of (s : PyStr.str) : M Z :=
  match PyStr.int s with
  | Some n => ret n
  | None => raise ValueError
  end.

(** [parts[i]]; the handler only indexes below the length it has tested. *)
Definition item (parts : list PyStr.str) (i : nat) : PyStr.str :=
  nth i parts [].

(** The body of the read loop for one non-empty chunk [data]: the
    [parts = data.split(",")] line and the three branches under it. *)
Definition handle_data (fails : conn -> bool) (client_socket : conn)
  (data : PyStr.str) : M unit :=
  let parts := PyStr.split PyStr.comma data in
  if PyStr.eqb (item parts 0) (PyStr.text "JOIN")
     && Nat.eqb (List.length parts) 2
  then
    let name := PyStr.strip (item parts 1) in
    with_lock (players_set client_socket (Info.mk name 0 0)) ;;
    let join_msg := PyStr.text "JOINED," ++ name in
    broadcast fails join_msg None
  else if PyStr.eqb (item parts 0) (PyStr.text "MOVE")
          && Nat.eqb (List.length parts) 4
  then
    let name := item parts 1 in
    try_except
      (x <- int_of (item parts 2) ;;
       y <- int_of (item parts 3) ;;
       with_lock (players_set client_socket (Info.mk name x y)) ;;
       all_data <- with_lock (vals <- players_values ;;
                              ret (PyStr.join [PyStr.semicolon]
                                     (List.map format_info vals))) ;;
       broadcast fails (PyStr.text "UPDATE;" ++ all_data) None)
      (fun _ => ret tt)
  else ret tt.

(** What [client_socket.recv(1024).decode("utf-8")] gives: a string, empty
    at end of stream, or an exception (transport fault, undecodable
    bytes). *)
Inductive recv_result :=
| Received (data : PyStr.str)
| RecvRaised (e : exn).

(** One turn of the environment for a handler: what its next [recv] gives
    and which peers refuse a write while the handler reacts to it. *)
Record input := mkInput {
  recv : recv_result;
  sendall_fails : conn -> bool
}.

(** How the [while True] loop is left: by [break], or not yet, the thread
    sitting in [recv] with the script used up. *)
Inductive loop_exit := Break | Blocked.

Definition is_empty (data : PyStr.str) : bool :=
  match data with [] => true | _ :: _ => false end.

Fixpoint read_loop (client_socket : conn) (script : list input)
  : M loop_exit :=
  match script with
  | [] => ret Blocked
  | i :: script' =>
      match recv i with
      | RecvRaised e => raise e
      | Received data =>
          if is_empty data then ret Break
          else handle_data (sendall_fails i) client_socket data ;;
               read_loop client_socket script'
      end
  end.

(** The [finally] block. *)
Definition finally_block (fails : conn -> bool) (client_socket : conn)
  : M unit :=
  player <- with_lock (
    present <- clients_contains client_socket ;;
    (if present then clients_remove client_socket else ret tt) ;;
    players_pop client_socket) ;;
  close client_socket ;;
  match player with
  | Some info => broadcast fails (PyStr.text "LEFT," ++ Info.name info) None
  | None => ret tt
  end.

(** The [try: ... except Exception as e: print(...) finally: ...] of
    [handle_client] around a loop: an exception of the loop is printed and
    ends it like a [break]; the [finally] block runs once the loop is
    left. *)
Definition session (loop : M loop_exit) (fails : conn -> bool)
  (client_socket : conn) : M loop_exit :=
  exit <- try_except loop (fun e => print_error e ;; ret Break) ;;
  match exit with
  | Blocked => ret Blocked
  | Break => finally_block fails client_socket ;; ret Break
  end.

(** [handle_client] on the inputs [script]; [fails] are the peers that
    refuse the [LEFT] notice. *)
Definition handle_client (client_socket : conn) (script : list input)
  (fails : conn -> bool) : M loop_exit :=
  session (read_loop client_socket script) fails client_socket.

(** [Server.start], the accept branch: [self.clients.append(client_socket)]
    under the lock. *)
Definition accept (client_socket : conn) : M unit :=
  with_lock (clients_append client_socket).

(** ** What a broadcast leaves behind *)

(** A write to [c] is attempted and fails. *)
Definition refused (fails : conn -> bool) (exclude_socket : option conn)
  (c : conn) : bool :=
  differs c exclude_socket && fails c.

(** The events of one turn of the loop of [broadcast]. *)
Definition send_events (fails : conn -> bool) (message : PyStr.str)
  (exclude_socket : option conn) (c : conn) : list event :=
  if differs c exclude_socket then
    if fails c then [SendAllFailed c message; Close c]
    else [SendAll c message]
  else [].

(** The player entries that survive when the refusing peers among [l] are
    dropped. *)
Definition drop_refused (fails : conn -> bool) (exclude_socket : option conn)
  (l : list conn) (d : PyDict.dict Info.t) : PyDict.dict Info.t :=
  filter (fun e => negb (refused fails exclude_socket (fst e)
                         && contains (fst e) l)) d.

(** The write to [c] is not refused. *)
Definition kept (fails : conn -> bool) (exclude_socket : option conn)
  (c : conn) : bool :=
  negb (refused fails exclude_socket c).

(** One turn of the [for] loop of [broadcast], for the peer [client]. *)
Definition broadcast_turn (fails : conn -> bool) (message : PyStr.str)
  (exclude_socket : option conn) (client : conn) : M unit :=
  if differs client exclude_socket then
    try_except (sendall fails client message)
      (fun _ =>
         clients_remove client ;;
         (present <- players_contains client ;;
          if present then players_del client else ret tt) ;;
         close client)
  else ret tt.

Definition after_broadcast (fails : conn -> bool)
  (exclude_socket : option conn) (s : Server) : Server :=
  mkServer
    (filter (fun c => negb (refused fails exclude_socket c)) (clients s))
    (drop_refused fails exclude_socket (clients s) (players s)).

(** The invariant of the registry: every key of [self.players] is in
    [self.clients]. *)
Definition players_registered (s : Server) : Prop :=
  forall c, In c (PyDict.keys (players s)) -> In c (clients s).

(** The peers a trace shows a write attempt to, with the text written. *)
Fixpoint attempts (t : list event) : list (conn * PyStr.str) :=
  match t with
  | [] => []
  | SendAll c m :: t' => (c, m) :: attempts t'
  | SendAllFailed c m :: t' => (c, m) :: attempts t'
  | _ :: t' => attempts t'
  end.

(** The writes that went through. *)
Fixpoint deliveries (t : list event) : list (conn * PyStr.str) :=
  match t with
  | [] => []
  | SendAll c m :: t' => (c, m) :: deliveries t'
  | _ :: t' => deliveries t'
  end.

(** The sockets a trace closes. *)
Fixpoint closed (t : list event) : list conn :=
  match t with
  | [] => []
  | Close c :: t' => c :: closed t'
  | _ :: t' => closed t'
  end.

(** [lock_free held t]: walking [t] with the lock [held] or not at its
    start, no write is attempted while the lock is held. *)
Fixpoint lock_free (held : bool) (t : list event) : bool :=
  match t with
  | [] => true
  | LockAcquire :: t' => lock_free true t'
  | LockRelease :: t' => lock_free false t'
  | SendAll _ _ :: t' => negb held && lock_free held t'
  | SendAllFailed _ _ :: t' => negb held && lock_free held t'
  | _ :: t' => lock_free held t'
  end.

(** [locked held t]: every write attempt of [t] happens with the lock
    held. *)
Fixpoint locked (held : bool) (t : list event) : bool :=
  match t with
  | [] => true
  | LockAcquire :: t' => locked true t'
  | LockRelease :: t' => locked false t'
  | SendAll _ _ :: t' => held && locked held t'
  | SendAllFailed _ _ :: t' => held && locked held t'
  | _ :: t' => locked held t'
  end.

(** No comma in a field. *)
Definition no_comma (s : PyStr.str) : Prop := ~ In PyStr.comma s.

(** ** The wire format *)

(** What the handler makes of one chunk: the tests of the loop body on
    [parts], without their effects. *)
Inductive command :=
| Join (name : PyStr.str)
| Move (name : PyStr.str) (x y : Z).

Definition command_of (data : PyStr.str) : option command :=
  let parts := PyStr.split PyStr.comma data in
  if PyStr.eqb (item parts 0) (PyStr.text "JOIN")
     && Nat.eqb (List.length parts) 2
  then Some (Join (PyStr.strip (item parts 1)))
  else if PyStr.eqb (item parts 0) (PyStr.text "MOVE")
          && Nat.eqb (List.length parts) 4
  then match PyStr.int (item parts 2), PyStr.int (item parts 3) with
       | Some x, Some y => Some (Move (item parts 1) x y)
       | _, _ => None
       end
  else None.

(** The line [JOIN,<name>]. *)
Definition join_line (name : PyStr.str) : PyStr.str :=
  PyStr.text "JOIN" ++ PyStr.comma :: name.

(** The line [MOVE,<name>,<x>,<y>]. *)
Definition move_line (name x y : PyStr.str) : PyStr.str :=
  PyStr.text "MOVE" ++ PyStr.comma :: name ++ PyStr.comma :: x
  ++ PyStr.comma :: y.

(** A well-formed command: [JOIN] with one argument, or [MOVE] with three
    of which the last two read as integers. *)
Definition well_formed (data : PyStr.str) : Prop :=
  (exists name, no_comma name /\ data = join_line name)
  \/ (exists name x y,
        no_comma name /\ no_comma x /\ no_comma y
        /\ PyStr.int x <> None /\ PyStr.int y <> None
        /\ data = move_line name x y).

(** [self.clients] after [if c in self.clients: self.clients.remove(c)]. *)
Definition without (c : conn) (l : list conn) : list conn :=
  match list_remove c l with
  | Some l' => l'
  | None => l
  end.

(** The registry after the locked part of the [finally] block. *)
Definition unregister (c : conn) (s : Server) : Server :=
  mkServer (without c (clients s)) (PyDict.del c (players s)).

(** The registry after [self.players[c] = info]. *)
Definition with_player (c : conn) (info : Info.t) (s : Server) : Server :=
  mkServer (clients s) (PyDict.set c info (players s)).

(** The events of a whole [broadcast]. *)
Definition broadcast_events (fails : conn -> bool) (message : PyStr.str)
  (exclude_socket : option conn) (s : Server) : list event :=
  LockAcquire
  :: flat_map (send_events fails message exclude_socket) (clients s)
  ++ [LockRelease].

Definition state {A} (r : outcome A * Server * list event) : Server :=
  snd (fst r).

Definition trace {A} (r : outcome A * Server * list event) : list event :=
  snd r.

Definition result {A} (r : outcome A * Server * list event) : outcome A :=
  fst (fst r).

(** No peer refuses a write. *)
Definition all_delivered : conn -> bool := fun _ => false.

(** ** The handler threads, interleaved

    Every statement of [handle_client] that touches the registry does so
    inside [with self.lock], and [broadcast] holds the lock from its first
    statement to its last: the threads interleave at the boundaries of
    these blocks.  A thread is described by the statement it executes
    next, with the values of its local variables. *)
Inductive pc :=
| AtRecv
| AtJoinSet (name : PyStr.str)
| AtJoinBroadcast (name : PyStr.str)
| AtMoveSet (name : PyStr.str) (x y : Z)
| AtMoveSnapshot
| AtMoveBroadcast (all_data : PyStr.str)
| AtFinally
| AtClose (player : option Info.t)
| AtLeftBroadcast (info : Info.t)
| Finished.

(** The [except Exception as e] clause around the loop. *)
Definition outer_except (e : exn) : M pc :=
  print_error e ;; ret AtFinally.

(** One step of the handler of [client_socket] standing at [p]: up to the
    end of the next locked block, or of the next socket call outside one.
    [i] is what the environment does during the step. *)
Definition thread_step (client_socket : conn) (i : input) (p : pc) : M pc :=
  match p with
  | AtRecv =>
      match recv i with
      | RecvRaised e => outer_except e
      | Received data =>
          if is_empty data then ret AtFinally
          else match command_of data with
               | Some (Join name) => ret (AtJoinSet name)
               | Some (Move name x y) => ret (AtMoveSet name x y)
               | None => ret AtRecv
               end
      end
  | AtJoinSet name =>
      try_except
        (with_lock (players_set client_socket (Info.mk name 0 0)) ;;
         ret (AtJoinBroadcast name))
        outer_except
  | AtJoinBroadcast name =>
      try_except
        (broadcast (sendall_fails i) (PyStr.text "JOINED," ++ name) None ;;
         ret AtRecv)
        outer_except
  | AtMoveSet name x y =>
      try_except
        (with_lock (players_set client_socket (Info.mk name x y)) ;;
         ret AtMoveSnapshot)
        (fun _ => ret AtRecv)
  | AtMoveSnapshot =>
      try_except
        (all_data <- with_lock (vals <- players_values ;;
                                ret (PyStr.join [PyStr.semicolon]
                                       (List.map format_info vals))) ;;
         ret (AtMoveBroadcast all_data))
        (fun _ => ret AtRecv)
  | AtMoveBroadcast all_data =>
      try_except
        (broadcast (sendall_fails i) (PyStr.text "UPDATE;" ++ all_data) None ;;
         ret AtRecv)
        (fun _ => ret AtRecv)
  | AtFinally =>
      player <- with_lock (
        present <- clients_contains client_socket ;;
        (if present then clients_remove client_socket else ret tt) ;;
        players_pop client_socket) ;;
      ret (AtClose player)
  | AtClose player =>
      close client_socket ;;
      ret (match player with
           | Some info => AtLeftBroadcast info
           | None => Finished
           end)
  | AtLeftBroadcast info =>
      broadcast (sendall_fails i) (PyStr.text "LEFT," ++ Info.name info) None ;;
      ret Finished
  | Finished => ret Finished
  end.

(** [n] steps of one thread with no other thread in between. *)
Fixpoint thread_steps (client_socket : conn) (i : input) (n : nat) (p : pc)
  : M pc :=
  match n with
  | O => ret p
  | S n' => p' <- thread_step client_socket i p ;;
            thread_steps client_socket i n' p'
  end.

(** The server with its handler threads. *)
Record System := mkSystem {
  server : Server;
  threads : PyDict.dict pc
}.

(** [Server()] before any connection. *)
Definition initial : System := mkSystem (mkServer [] []) [].

(** What happens next: the accept loop registers a new socket and starts
    its handler, or the handler of [c] takes a step. *)
Inductive label :=
| Accept (c : conn)
| Step (c : conn) (i : input).

Definition sys_step (l : label) (g : System) : option System :=
  match l with
  | Accept c =>
      if PyDict.contains c (threads g) then None
      else Some (mkSystem (state (accept c (server g)))
                          (PyDict.set c AtRecv (threads g)))
  | Step c i =>
      match PyDict.get c (threads g) with
      | Some p =>
          match thread_step c i p (server g) with
          | (Return p', s', _) =>
              Some (mkSystem s' (PyDict.set c p' (threads g)))
          | (Raise _, s', _) =>
              Some (mkSystem s' (PyDict.set c Finished (threads g)))
          end
      | None => None
      end
  end.

Fixpoint run (ls : list label) (g : System) : option System :=
  match ls with
  | [] => Some g
  | l :: ls' =>
      match sys_step l g with
      | Some g' => run ls' g'
      | None => None
      end
  end.

(** The thread is about to write its player entry. *)
Definition updates (p : pc) : bool :=
  match p with
  | AtJoinSet _ | AtMoveSet _ _ _ => true
  | _ => false
  end.

(** The step [l] writes the player entry of a connection that is in
    [self.clients]; any other kind of step passes. *)
Definition timely (l : label) (g : System) : bool :=
  match l with
  | Accept _ => true
  | Step c _ =>
      match PyDict.get c (threads g) with
      | Some p => negb (updates p) || contains c (clients (server g))
      | None => true
      end
  end.

(** All the steps of a run are [timely]. *)
Fixpoint all_timely (ls : list label) (g : System) : bool :=
  match ls with
  | [] => true
  | l :: ls' =>
      timely l g
      && match sys_step l g with
         | Some g' => all_timely ls' g'
         | None => true
         end
  end.

(** The registry after the step of the handler of [c] standing at [p]. *)
Definition step_server (c : conn) (i : input) (p : pc) (s : Server)
  : Server :=
  match p with
  | AtJoinSet name => with_player c (Info.mk name 0 0) s
  | AtMoveSet name x y => with_player c (Info.mk name x y) s
  | AtJoinBroadcast _ | AtMoveBroadcast _ | AtLeftBroadcast _ =>
      after_broadcast (sendall_fails i) None s
  | AtFinally => unregister c s
  | AtRecv | AtMoveSnapshot | AtClose _ | Finished => s
  end.

(** Where that step leaves the handler. *)
Definition step_pc (c : conn) (i : input) (p : pc) (s : Server) : pc :=
  match p with
  | AtRecv =>
      match recv i with
      | RecvRaised _ => AtFinally
      | Received data =>
          if is_empty data then AtFinally
          else match command_of data with
               | Some (Join name) => AtJoinSet name
               | Some (Move name x y) => AtMoveSet name x y
               | None => AtRecv
               end
      end
  | AtJoinSet name => AtJoinBroadcast name
  | AtJoinBroadcast _ => AtRecv
  | AtMoveSet _ _ _ => AtMoveSnapshot
  | AtMoveSnapshot => AtMoveBroadcast (serialize (players s))
  | AtMoveBroadcast _ => AtRecv
  | AtFinally => AtClose (PyDict.get c (players s))
  | AtClose (Some info) => AtLeftBroadcast info
  | AtClose None => Finished
  | AtLeftBroadcast _ => Finished
  | Finished => Finished
  end.

(** The events of that step. *)
Definition step_events (c : conn) (i : input) (p : pc) (s : Server)
  : list event :=
  match p with
  | AtRecv =>
      match recv i with
      | RecvRaised e => [Print e]
      | Received _ => []
      end
  | AtJoinSet _ | AtMoveSet _ _ _ | AtMoveSnapshot | AtFinally =>
      [LockAcquire; LockRelease]
  | AtJoinBroadcast name =>
      broadcast_events (sendall_fails i) (PyStr.text "JOINED," ++ name) None s
  | AtMoveBroadcast all_data =>
      broadcast_events (sendall_fails i) (PyStr.text "UPDATE;" ++ all_data)
        None s
  | AtLeftBroadcast info =>
      broadcast_events (sendall_fails i)
        (PyStr.text "LEFT," ++ Info.name info) None s
  | AtClose _ => [Close c]
  | Finished => []
  end.

(** The handler has left its loop and run the locked part of the
    [finally] block. *)
Definition torn_down (p : pc) : bool :=
  match p with
  | AtClose _ | AtLeftBroadcast _ | Finished => true
  | _ => false
  end.

(** The handler of [c] is through with the registry and [c] has no player
    entry. *)
Definition gone (c : conn) (g : System) : Prop :=
  (exists p, PyDict.get c (threads g) = Some p /\ torn_down p = true)
  /\ PyDict.get c (players (server g)) = None.

(** A run in which a handler writes its entry after a broadcast of
    another handler has dropped its connection: 1 has read a [MOVE] and
    not yet taken the lock when the [JOINED] notice of 2 fails to reach
    it. *)
Definition late_update_run : list label :=
  [Accept 1; Accept 2;
   Step 1 (mkInput (Received (PyStr.text "MOVE,A,1,2")) all_delivered);
   Step 2 (mkInput (Received (PyStr.text "JOIN,B")) all_delivered);
   Step 2 (mkInput (Received []) all_delivered);
   Step 2 (mkInput (Received []) (Nat.eqb 1));
   Step 1 (mkInput (Received []) all_delivered)].

(** ** The rest of [Server.start] *)

(** [self.clients.clear()] *)
Definition clients_clear : M unit :=
  fun s => (Return tt, mkServer [] (players s), []).

(** [self.players.clear()] *)
Definition players_clear : M unit :=
  fun s => (Return tt, mkServer (clients s) [], []).

(** The [finally] block of [start], once the accept loop is left: every
    listed socket is closed, an exception of [close] passed over, and both
    tables are emptied, all under the lock. *)
Definition shutdown : M unit :=
  with_lock (
    listed <- clients_copy ;;
    for_each listed (fun client =>
      try_except (close client) (fun _ => ret tt)) ;;
    clients_clear ;;
    players_clear).

(** The handler of [c] exists and has not run the locked part of its
    [finally] block. *)
Definition live (g : System) (c : conn) : Prop :=
  exists p, PyDict.get c (threads g) = Some p /\ torn_down p = false.

(** A chunk that is not the end of the stream, read while no listed peer
    of [s] refuses a write. *)
Definition calm_chunk (s : Server) (i : input) : Prop :=
  (exists data, recv i = Received data /\ data <> [])
  /\ forall cl, In cl (clients s) -> sendall_fails i cl = false.

(** The read that ends the loop: no bytes, or an exception. *)
Definition last_read (i : input) : Prop :=
  recv i = Received [] \/ exists e, recv i = RecvRaised e.

(** The number a decimal stands for, read from the left after the digits
    that gave [acc]. *)
Fixpoint uint_value (d : Decimal.uint) (acc : Z) : Z :=
  match d with
  | Decimal.Nil => acc
  | Decimal.D0 d' => uint_value d' (10 * acc + 0)
  | Decimal.D1 d' => uint_value d' (10 * acc + 1)
  | Decimal.D2 d' => uint_value d' (10 * acc + 2)
  | Decimal.D3 d' => uint_value d' (10 * acc + 3)
  | Decimal.D4 d' => uint_value d' (10 * acc + 4)
  | Decimal.D5 d' => uint_value d' (10 * acc + 5)
  | Decimal.D6 d' => uint_value d' (10 * acc + 6)
  | Decimal.D7 d' => uint_value d' (10 * acc + 7)
  | Decimal.D8 d' => uint_value d' (10 * acc + 8)
  | Decimal.D9 d' => uint_value d' (10 * acc + 9)
  end.

(** The digits of a decimal as a [str]. *)
Definition digits (d : Decimal.uint) : PyStr.str :=
  PyStr.text (NilEmpty.string_of_uint d).

(** A character [str(n)] can hold: a digit or the minus sign. *)
Definition is_numeral (ch : PyStr.char) : bool :=
  PyStr.is_digit ch || (ch =? 45)%N.

(** ** The client: [player.py], [networking.py], [game.py]

    The other end of the wire.  Drawing, sound playback, the menu and the
    event queue of pygame are left out; what the client sends, what it
    makes of what it receives and how it moves its players are modelled. *)

(** More [str] methods, as the client calls them. *)
Module PyStrMore.
Import PyStr.

(** [s.startswith(prefix)] *)
Fixpoint startswith (prefix s : str) : bool :=
  match prefix, s with
  | [], _ => true
  | p :: prefix', ch :: s' => (p =? ch)%N && startswith prefix' s'
  | _ :: _, [] => false
  end.

(** [s.split(sep, 1)]: cut at the first separator only. *)
Fixpoint split1 (sep : char) (s : str) : list str :=
  match s with
  | [] => [[]]
  | ch :: s' =>
      if (ch =? sep)%N then [[]; s']
      else match split1 sep s' with
           | p :: ps => (ch :: p) :: ps
           | [] => [[ch]]
           end
  end.

(** [s[n:]] *)
Definition from (n : nat) (s : str) : str := skipn n s.

End PyStrMore.

(** What the client does to the outside. *)
Inductive client_event :=
| ClientSent (message : PyStr.str)
| ClientSendFailed (message : PyStr.str)
| Printed (text : PyStr.str)
| PrintedError (prefix : PyStr.str)
| SoundStop
| SoundPlay
| SocketClosed.

(** [Player], an [attr.s] class: equality is by fields. *)
Module Player.
Record t := mk {
  name : PyStr.str;
  color : PyStr.str;
  health : Z;
  x : Z;
  y : Z
}.

(** [Player(name, x=x, y=y)] *)
Definition new (name : PyStr.str) (x y : Z) : t :=
  mk name (PyStr.text "red") 100 x y.

(** [move(dx, dy)] *)
Definition move (dx dy : Z) (p : t) : t :=
  mk (name p) (color p) (health p) (x p + dx) (y p + dy).

(** [position()] *)
Definition position (p : t) : Z * Z := (x p, y p).

(** [a == b] *)
Definition eqb (a b : t) : bool :=
  PyStr.eqb (name a) (name b) && PyStr.eqb (color a) (color b)
  && Z.eqb (health a) (health b) && Z.eqb (x a) (x b) && Z.eqb (y a) (y b).

(** [p.x = x; p.y = y] *)
Definition at_ (x y : Z) (p : t) : t :=
  mk (name p) (color p) (health p) x y.
End Player.

(** [NetWorking]: the connection flags and the buffer of received
    messages. *)
Module NetWorking.
Record t := mk {
  connected : bool;
  running : bool;
  recv_buffer : list PyStr.str
}.

(** [send(message)]; [fails] says that [sendall] raises. *)
Definition send (fails : bool) (message : PyStr.str) (n : t)
  : t * list client_event :=
  if connected n then
    if fails then
      (mk false (running n) (recv_buffer n),
       [ClientSendFailed message; PrintedError (PyStr.text "Send error: ")])
    else (n, [ClientSent message])
  else (n, []).

(** The messages one chunk adds to the buffer: its lines that are not
    blank, stripped. *)
Definition messages_of (text : PyStr.str) : list PyStr.str :=
  List.map PyStr.strip
    (filter (fun msg => negb (is_empty (PyStr.strip msg)))
       (PyStr.split PyStr.newline text)).

(** One turn of the loop of [_receive_thread] on what [recv(4096)] and
    [decode] give; the boolean says whether the loop goes on. *)
Definition receive_turn (r : recv_result) (n : t)
  : t * list client_event * bool :=
  match r with
  | Received [] => (mk false (running n) (recv_buffer n), [], false)
  | Received text =>
      (mk (connected n) (running n) (recv_buffer n ++ messages_of text),
       [], true)
  | RecvRaised _ =>
      (mk false (running n) (recv_buffer n),
       [PrintedError (PyStr.text "Receive error: ")], false)
  end.

(** [_receive_thread] on the chunks [script]. *)
Fixpoint _receive_thread (script : list recv_result) (n : t)
  : t * list client_event :=
  match script with
  | [] => (n, [])
  | r :: script' =>
      if connected n && running n then
        match receive_turn r n with
        | (n', ev, true) =>
            match _receive_thread script' n' with
            | (n'', ev') => (n'', ev ++ ev')
            end
        | (n', ev, false) => (n', ev)
        end
      else (n, [])
  end.

(** [recv()]: the oldest message, or the empty string. *)
Definition recv (n : t) : PyStr.str * t :=
  match recv_buffer n with
  | m :: rest => (m, mk (connected n) (running n) rest)
  | [] => ([], n)
  end.

(** [close()] *)
Definition close (n : t) : t * list client_event :=
  (mk false false (recv_buffer n), [SocketClosed]).
End NetWorking.

(** What the receiving thread and the game loop do to the buffer, in the
    order they get the lock. *)
Inductive buffer_action :=
| Arrive (text : PyStr.str)
| Take.

(** [Game]: the [Player] objects by identity (their place in [objects]),
    the list [self.players], the local player [self.player], the
    network, and whether a move sound was loaded. *)
Module Game.
Record t := mk {
  objects : list Player.t;
  players : list nat;
  player : option nat;
  network : NetWorking.t;
  move_sound : bool
}.

Definition WIDTH : Z := 400.
Definition HEIGHT : Z := 300.
Definition SPEED : Z := 5.
Definition PLAYER_RADIUS : Z := 20.

(** The object behind a reference. *)
Definition obj (g : t) (r : nat) : Player.t :=
  nth r (objects g) (Player.new [] 0 0).

Fixpoint update (r : nat) (p : Player.t) (l : list Player.t)
  : list Player.t :=
  match l, r with
  | [], _ => []
  | _ :: l', O => p :: l'
  | q :: l', S r' => q :: update r' p l'
  end.

(** The object behind [r] replaced by [p]. *)
Definition with_obj (r : nat) (p : Player.t) (g : t) : t :=
  mk (update r p (objects g)) (players g) (player g) (network g)
     (move_sound g).

(** A new object; its reference is the second component. *)
Definition alloc (p : Player.t) (g : t) : t * nat :=
  (mk (objects g ++ [p]) (players g) (player g) (network g) (move_sound g),
   List.length (objects g)).

(** [obj in self.players]: the same object, or an equal one. *)
Definition listed (g : t) (r : nat) : bool :=
  existsb (fun e => Nat.eqb e r || Player.eqb (obj g e) (obj g r))
    (players g).

Definition with_network (n : NetWorking.t) (g : t) : t :=
  mk (objects g) (players g) (player g) n (move_sound g).

(** [add_player(player)] *)
Definition add_player (fails : bool) (r : nat) (g : t)
  : t * list client_event :=
  let g1 := with_obj r (Player.at_ (WIDTH / 2) (HEIGHT / 2) (obj g r)) g in
  match players g1 with
  | [] =>
      match NetWorking.send fails
              (PyStr.text "JOIN," ++ Player.name (obj g1 r)) (network g1) with
      | (n, ev) =>
          (mk (objects g1) (players g1 ++ [r]) (Some r) n (move_sound g1), ev)
      end
  | _ :: _ =>
      if negb (listed g1 r) then
        (mk (objects g1) (r :: players g1) (player g1) (network g1)
            (move_sound g1), [])
      else (g1, [])
  end.

(** [send_position()] *)
Definition send_position (fails : bool) (g : t) : t * list client_event :=
  match player g with
  | Some r =>
      let p := obj g r in
      let data := PyStr.text "MOVE," ++ Player.name p ++ [PyStr.comma]
                  ++ PyStr.of_int (Player.x p) ++ [PyStr.comma]
                  ++ PyStr.of_int (Player.y p) in
      match NetWorking.send fails data (network g) with
      | (n, ev) => (with_network n g, ev)
      end
  | None => (g, [])
  end.

(** [move_player(player, dx, dy)], without the drawing. *)
Definition move_player (fails : bool) (r : nat) (dx dy : Z) (g : t)
  : t * list client_event :=
  let p := obj g r in
  let new_x :=
    Z.max PLAYER_RADIUS (Z.min (WIDTH - PLAYER_RADIUS) (Player.x p + dx)) in
  let new_y :=
    Z.max PLAYER_RADIUS (Z.min (HEIGHT - PLAYER_RADIUS) (Player.y p + dy)) in
  let moved :=
    negb (Z.eqb new_x (Player.x p)) || negb (Z.eqb new_y (Player.y p)) in
  let g1 :=
    with_obj r (Player.move (new_x - Player.x p) (new_y - Player.y p) p) g in
  if moved then
    match send_position fails g1 with
    | (g2, ev) =>
        (g2, ev ++ if move_sound g2 then [SoundStop; SoundPlay] else [])
    end
  else (g1, []).

(** [handle_move()] with the arrow keys that are down. *)
Definition handle_move (fails : bool) (up down left right : bool) (g : t)
  : t * list client_event :=
  match player g with
  | Some r =>
      let dy := ((if down then SPEED else 0) - (if up then SPEED else 0))%Z in
      let dx := ((if right then SPEED else 0) - (if left then SPEED else 0))%Z in
      if negb (Z.eqb dx 0) || negb (Z.eqb dy 0)
      then move_player fails r dx dy g
      else (g, [])
  | None => (g, [])
  end.

(** [data.split(",", 1)[1]]; the callers have tested the prefix. *)
Definition name_of (data : PyStr.str) : PyStr.str :=
  item (PyStrMore.split1 PyStr.comma data) 1.

(** [handle_joined(data)] *)
Definition handle_joined (data : PyStr.str) (g : t) : t * list client_event :=
  (g, [Printed (name_of data ++ PyStr.text " joined the game!")]).

(** [handle_left(data)] *)
Definition handle_left (data : PyStr.str) (g : t) : t * list client_event :=
  let name := name_of data in
  (mk (objects g)
      (filter (fun r => negb (PyStr.eqb (Player.name (obj g r)) name))
         (players g))
      (player g) (network g) (move_sound g),
   [Printed (name ++ PyStr.text " left the game.")]).

(** [_extract_all_data(data)] *)
Definition _extract_all_data (data : PyStr.str) : list PyStr.str :=
  List.map PyStr.strip
    (filter (fun players_data => negb (is_empty (PyStr.strip players_data)))
       (PyStr.split PyStr.semicolon (PyStrMore.from 7 data))).

(** [_parse_player_data(player_data)]; [None] is [ValueError], from the
    unpacking of other than three fields or from [int]. *)
Definition _parse_player_data (player_data : PyStr.str)
  : option (PyStr.str * Z * Z) :=
  match PyStr.split PyStr.comma player_data with
  | [name; x_str; y_str] =>
      match PyStr.int x_str with
      | Some x =>
          match PyStr.int y_str with
          | Some y => Some (name, x, y)
          | None => None
          end
      | None => None
      end
  | _ => None
  end.

(** [next((p for p in self.players if p.name == name), None)] *)
Definition find_named (name : PyStr.str) (g : t) : option nat :=
  find (fun r => PyStr.eqb (Player.name (obj g r)) name) (players g).

(** [_update_or_add_player(name, x, y)] *)
Definition _update_or_add_player (fails : bool) (name : PyStr.str) (x y : Z)
  (g : t) : t * list client_event :=
  match find_named name g with
  | Some r => (with_obj r (Player.at_ x y (obj g r)) g, [])
  | None =>
      match alloc (Player.new name x y) g with
      | (g1, r) => add_player fails r g1
      end
  end.

(** [self.player and name == self.player.name] *)
Definition is_local (name : PyStr.str) (g : t) : bool :=
  match player g with
  | Some r => PyStr.eqb name (Player.name (obj g r))
  | None => false
  end.

(** [_process_player_data(player_data)] *)
Definition _process_player_data (fails : bool) (player_data : PyStr.str)
  (g : t) : t * list client_event :=
  match _parse_player_data player_data with
  | None =>
      (g, [Printed (PyStr.text "Malformed player data: " ++ player_data)])
  | Some (name, x, y) =>
      if negb (is_local name g) then _update_or_add_player fails name x y g
      else (g, [])
  end.

Fixpoint process_all (fails : bool) (all_data : list PyStr.str) (g : t)
  : t * list client_event :=
  match all_data with
  | [] => (g, [])
  | player_data :: rest =>
      match _process_player_data fails player_data g with
      | (g1, ev) =>
          match process_all fails rest g1 with
          | (g2, ev') => (g2, ev ++ ev')
          end
      end
  end.

(** [handle_update(data)] *)
Definition handle_update (fails : bool) (data : PyStr.str) (g : t)
  : t * list client_event :=
  process_all fails (_extract_all_data data) g.

(** [update_players()] *)
Definition update_players (fails : bool) (g : t) : t * list client_event :=
  match NetWorking.recv (network g) with
  | (data, n) =>
      let g1 := with_network n g in
      if negb (is_empty data) then
        if PyStrMore.startswith (PyStr.text "JOINED,") data
        then handle_joined data g1
        else if PyStrMore.startswith (PyStr.text "LEFT,") data
        then handle_left data g1
        else if PyStrMore.startswith (PyStr.text "UPDATE;") data
        then handle_update fails data g1
        else (g1, [])
      else (g1, [])
  end.

(** [valid_player_name(name)] *)
Definition valid_player_name (name : PyStr.str) : bool :=
  negb (is_empty (PyStr.strip name)).

(** [Game()] once the menu is left aside: no player yet. *)
Definition initial (n : NetWorking.t) (sound : bool) : t :=
  mk [] [] None n sound.

(** Every reference the game holds is to an object it has. *)
Definition wf (g : t) : Prop :=
  Forall (fun r => r < List.length (objects g)) (players g)
  /\ forall r, player g = Some r -> r < List.length (objects g).

(** The player is inside the border the game keeps. *)
Definition in_border (p : Player.t) : Prop :=
  (PLAYER_RADIUS <= Player.x p <= WIDTH - PLAYER_RADIUS
   /\ PLAYER_RADIUS <= Player.y p <= HEIGHT - PLAYER_RADIUS)%Z.
End Game.

(** A name that comes through an [UPDATE] as it is: no comma, no
    semicolon, no white space in front. *)
Definition plain_name (name : PyStr.str) : Prop :=
  no_comma name /\ ~ In PyStr.semicolon name /\ PyStr.lstrip name = name.

(** What the client should read from one entry of the server. *)
Definition reading (info : Info.t) : option (PyStr.str * Z * Z) :=
  Some (Info.name info, Info.x info, Info.y info).

(** What the handling of one entry of an [UPDATE], or the adding of a new
    player, can do to the objects and lists of the game: nothing; or a
    listed player other than the local one is moved; or, no player being
    listed, a new one at the centre becomes the only listed and the local
    one; or, players being listed, a new one at the centre is made and
    put in front of the list or not. *)
Definition entry_effect (g g' : Game.t) : Prop :=
  let rn := List.length (Game.objects g) in
  (Game.objects g' = Game.objects g /\ Game.players g' = Game.players g
   /\ Game.player g' = Game.player g)
  \/ (exists r x y,
        Game.player g <> Some r /\ r < rn
        /\ Game.objects g'
           = Game.update r (Player.at_ x y (Game.obj g r)) (Game.objects g)
        /\ Game.players g' = Game.players g
        /\ Game.player g' = Game.player g)
  \/ (exists p,
        Game.players g = []
        /\ Game.objects g' = Game.objects g ++ [Player.at_ 200 150 p]
        /\ Game.players g' = [rn] /\ Game.player g' = Some rn)
  \/ (exists p,
        Game.players g <> []
        /\ Game.objects g' = Game.objects g ++ [Player.at_ 200 150 p]
        /\ (Game.players g' = rn :: Game.players g
            \/ Game.players g' = Game.players g)
        /\ Game.player g' = Game.player g).

(** [_parse_player_data] returns, it does not raise. *)
Definition parses (player_data : PyStr.str) : bool :=
  match Game._parse_player_data player_data with
  | Some _ => true
  | None => false
  end.

(** What a trace prints: the [print] of a handler and the [print] of an
    [except] clause of the network, in their order. *)
Fixpoint prints (t : list client_event) : list client_event :=
  match t with
  | [] => []
  | Printed text :: t' => Printed text :: prints t'
  | PrintedError prefix :: t' => PrintedError prefix :: prints t'
  | _ :: t' => prints t'
  end.

(** The report [_process_player_data] prints on an entry that does not
    parse. *)
Definition malformed_report (player_data : PyStr.str) : client_event :=
  Printed (PyStr.text "Malformed player data: " ++ player_data).

(** The message has no more code points than the 4096 bytes one [recv]
    of the client returns, as every message that arrives in one chunk
    has.  No field of it then comes near the 4300 digits past which
    [int] and [str] refuse to convert. *)
Definition one_chunk (message : PyStr.str) : Prop :=
  List.length message <= 4096.

(** The integer is within the 4300 digits [str] and [int] convert. *)
Definition convertible (z : Z) : Prop := (Z.abs z < 10 ^ 4300)%Z.

(** A name that comes through the receiving thread and an [UPDATE] as it
    is: a [plain_name] with no line feed. *)
Definition wire_name (name : PyStr.str) : Prop :=
  plain_name name /\ ~ In PyStr.newline name.

(** The local player, when there is one, is inside the border. *)
Definition local_in_border (g : Game.t) : Prop :=
  forall r, Game.player g = Some r -> Game.in_border (Game.obj g r).

(** What the client does next: a new [Player] is made and added (by the
    menu, by [main]), the arrow keys are looked at, the receiving thread
    takes a chunk, the game loop takes a message. *)
Inductive client_step :=
| AddNew (p : Player.t) (fails : bool)
| Keys (up down left right : bool) (fails : bool)
| Receive (r : recv_result)
| Update (fails : bool).

Definition client_do (a : client_step) (g : Game.t) : Game.t :=
  match a with
  | AddNew p fails =>
      match Game.alloc p g with
      | (g1, r) => fst (Game.add_player fails r g1)
      end
  | Keys k_up k_down k_left k_right fails =>
      fst (Game.handle_move fails k_up k_down k_left k_right g)
  | Receive r =>
      Game.with_network
        (fst (fst (NetWorking.receive_turn r (Game.network g)))) g
  | Update fails => fst (Game.update_players fails g)
  end.

Definition client_run (l : list client_step) (g : Game.t) : Game.t :=
  fold_left (fun g a => client_do a g) l g.

(** The buffer under a sequence of arrivals and takes: the buffer left
    and the messages taken, oldest first. *)
Fixpoint buffer_run (l : list buffer_action) (n : NetWorking.t)
  : NetWorking.t * list PyStr.str :=
  match l with
  | [] => (n, [])
  | Arrive text :: l' =>
      buffer_run l'
        (NetWorking.mk (NetWorking.connected n) (NetWorking.running n)
           (NetWorking.recv_buffer n ++ NetWorking.messages_of text))
  | Take :: l' =>
      match NetWorking.recv n with
      | (m, n') =>
          match buffer_run l' n' with
          | (n'', taken) => (n'', m :: taken)
          end
      end
  end.

(** The chunks that arrive in a sequence of actions. *)
Definition arrivals (l : list buffer_action) : list PyStr.str :=
  flat_map (fun a => match a with Arrive text => [text] | Take => [] end) l.

(** The events of one step of the system. *)
Definition step_trace (l : label) (g : System) : list event :=
  match l with
  | Accept c => trace (accept c (server g))
  | Step c i =>
      match PyDict.get c (threads g) with
      | Some p => trace (thread_step c i p (server g))
      | None => []
      end
  end.

(** The events of a run, in their order. *)
Fixpoint run_trace (ls : list label) (g : System) : list event :=
  match ls with
  | [] => []
  | l :: ls' =>
      match sys_step l g with
      | Some g' => step_trace l g ++ run_trace ls' g'
      | None => []
      end
  end.

(** A run in which the handler of 1 takes its snapshot of the table
    while 2, joined as B, still has its entry, and broadcasts it only
    after the handler of 2 has read the end of its stream, popped the
    entry, closed the socket and broadcast the [LEFT] notice. *)
Definition stale_snapshot_run : list label :=
  [Accept 1; Accept 2;
   Step 2 (mkInput (Received (PyStr.text "JOIN,B")) all_delivered);
   Step 2 (mkInput (Received []) all_delivered);
   Step 2 (mkInput (Received []) all_delivered);
   Step 1 (mkInput (Received (PyStr.text "MOVE,A,1,2")) all_delivered);
   Step 1 (mkInput (Received []) all_delivered);
   Step 1 (mkInput (Received []) all_delivered);
   Step 2 (mkInput (Received []) all_delivered);
   Step 2 (mkInput (Received []) all_delivered);
   Step 2 (mkInput (Received []) all_delivered);
   Step 2 (mkInput (Received []) all_delivered)].

(** The step after that run: the handler of 1 broadcasts. *)
Definition stale_update_step : label :=
  Step 1 (mkInput (Received []) all_delivered).

(** A game with its local player Me, listed, at the centre. *)
Definition game_of_me : Game.t :=
  Game.mk [Player.new (PyStr.text "Me") 200 150] [0] (Some 0)
    (NetWorking.mk true true []) false.

(** The game of Me that also lists a player named Bob and one whose
    name is Bob followed by a space. *)
Definition game_of_bobs : Game.t :=
  Game.mk [Player.new (PyStr.text "Me") 200 150;
           Player.new (PyStr.text "Bob") 30 40;
           Player.new (PyStr.text "Bob ") 50 60]
    [0; 1; 2] (Some 0) (NetWorking.mk true true []) false.

(** A server with two connections, the second one joined as Al. *)
Definition two_clients : Server :=
  mkServer [1; 2] [(2, Info.mk (PyStr.text "Al") 0 0)].

(** Settles [no_comma] on a literal. *)
Ltac no_comma_solve :=
  let H := fresh in
  intros H; vm_compute in H; intuition discriminate.

(** ** Lemmas on strings *)

Module PyStrFacts.
Import PyStr.

Lemma eqb_eq (a b : str) : eqb a b = true <-> a = b.
Proof.
  revert b; induction a as [|x a IH]; intros [|y b]; simpl;
    try (split; [discriminate | discriminate]); try tauto.
  rewrite andb_true_iff, N.eqb_eq, IH.
  split; [intros [-> ->]; reflexivity | intros E; inversion E; auto].
Qed.

Lemma eqb_refl (a : str) : eqb a a = true.
Proof. apply eqb_eq; reflexivity. Qed.

Lemma split_one (sep : char) (a : str) :
  ~ In sep a -> split sep a = [a].
Proof.
  induction a as [|ch a IH]; simpl; intros H; [reflexivity|].
  destruct (N.eqb_spec ch sep) as [->|_]; [tauto|].
  rewrite IH by tauto. reflexivity.
Qed.

Lemma split_app (sep : char) (a b : str) :
  ~ In sep a -> split sep (a ++ sep :: b) = a :: split sep b.
Proof.
  induction a as [|ch a IH]; simpl; intros H.
  - rewrite N.eqb_refl. reflexivity.
  - destruct (N.eqb_spec ch sep) as [->|_]; [tauto|].
    rewrite IH by tauto. reflexivity.
Qed.

Lemma split_length (sep : char) (s : str) :
  List.length (split sep s) = S (count_occ N.eq_dec s sep).
Proof.
  induction s as [|ch s IH]; simpl; [reflexivity|].
  destruct (N.eqb_spec ch sep) as [->|Hne].
  - destruct (N.eq_dec sep sep); [|tauto]. simpl. now rewrite IH.
  - destruct (N.eq_dec ch sep); [tauto|].
    destruct (split sep s); simpl in *; [discriminate|exact IH].
Qed.

Lemma text_no_comma_JOIN : ~ In comma (text "JOIN").
Proof. vm_compute. intuition discriminate. Qed.

Lemma text_no_comma_MOVE : ~ In comma (text "MOVE").
Proof. vm_compute. intuition discriminate. Qed.

End PyStrFacts.

(** ** Lemmas on dictionaries *)

Module PyDictFacts.
Import PyDict.
Section Facts.
Variable V : Type.
Implicit Types (d : dict V) (k : nat) (v : V).

Lemma get_set_same k v d : get k (set k v d) = Some v.
Proof.
  induction d as [|[k' v'] d IH]; simpl.
  - now rewrite Nat.eqb_refl.
  - destruct (Nat.eqb k k') eqn:E; simpl; rewrite ?Nat.eqb_refl, ?E; auto.
Qed.

Lemma get_set_other k k' v d : k' <> k -> get k' (set k v d) = get k' d.
Proof.
  intros Hne. induction d as [|[k0 v0] d IH]; simpl.
  - destruct (Nat.eqb_spec k' k); [tauto|reflexivity].
  - destruct (Nat.eqb_spec k k0) as [->|]; simpl.
    + destruct (Nat.eqb_spec k' k0); [tauto|reflexivity].
    + now rewrite IH.
Qed.

Lemma get_del_same k d : get k (del k d) = None.
Proof.
  induction d as [|[k' v'] d IH]; simpl; [reflexivity|].
  destruct (Nat.eqb k k') eqn:E; simpl; rewrite ?E; auto.
Qed.

Lemma get_del_other k k' d : k' <> k -> get k' (del k d) = get k' d.
Proof.
  intros Hne. induction d as [|[k0 v0] d IH]; simpl; [reflexivity|].
  destruct (Nat.eqb_spec k k0) as [->|]; simpl.
  - destruct (Nat.eqb_spec k' k0); [tauto|exact IH].
  - now rewrite IH.
Qed.

Lemma get_keys k d : In k (keys d) <-> get k d <> None.
Proof.
  induction d as [|[k' v'] d IH]; simpl; [tauto|].
  destruct (Nat.eqb_spec k k') as [->|Hne].
  - split; [discriminate|auto].
  - rewrite <- IH. split; [intros [E|H]; [congruence|exact H]|auto].
Qed.

Lemma contains_keys k d : contains k d = true <-> In k (keys d).
Proof.
  rewrite get_keys. unfold contains.
  destruct (get k d); split; congruence.
Qed.

Lemma keys_set k v d :
  forall c, In c (keys (set k v d)) <-> c = k \/ In c (keys d).
Proof.
  intros c. induction d as [|[k' v'] d IH]; simpl.
  - intuition.
  - destruct (Nat.eqb_spec k k') as [->|Hne]; simpl; [intuition|].
    rewrite IH. intuition.
Qed.

Lemma keys_filter (f : nat * V -> bool) d :
  forall c, In c (keys (filter f d)) -> In c (keys d).
Proof.
  intros c. unfold keys. rewrite !in_map_iff.
  intros [e [E H]]. apply filter_In in H. exists e. tauto.
Qed.

Lemma keys_del k d :
  forall c, In c (keys (del k d)) <-> c <> k /\ In c (keys d).
Proof.
  intros c. unfold del, keys. rewrite !in_map_iff. split.
  - intros [[k0 v0] [E H]]. apply filter_In in H. simpl in *. subst k0.
    destruct H as [H Hk]. apply negb_true_iff, Nat.eqb_neq in Hk.
    split; [congruence|]. exists (c, v0). auto.
  - intros [Hne [[k0 v0] [E H]]]. simpl in E. subst k0.
    exists (c, v0). split; [reflexivity|]. apply filter_In. split; [exact H|].
    simpl. apply negb_true_iff, Nat.eqb_neq. congruence.
Qed.

Lemma del_absent k d : contains k d = false -> del k d = d.
Proof.
  unfold contains. induction d as [|[k' v'] d IH]; simpl; [reflexivity|].
  destruct (Nat.eqb k k') eqn:E; [discriminate|]. simpl.
  intros H. now rewrite IH.
Qed.

Lemma set_present k v d :
  get k d = Some v -> set k v d = d.
Proof.
  induction d as [|[k' v'] d IH]; simpl; [discriminate|].
  destruct (Nat.eqb_spec k k') as [->|Hne].
  - intros E. congruence.
  - intros E. now rewrite IH.
Qed.

Lemma set_set k v v' d : set k v' (set k v d) = set k v' d.
Proof.
  induction d as [|[k0 v0] d IH]; simpl.
  - now rewrite Nat.eqb_refl.
  - destruct (Nat.eqb k k0) eqn:E; simpl; rewrite ?Nat.eqb_refl, ?E; auto.
    now rewrite IH.
Qed.

Lemma wf_set k v d : wf d -> wf (set k v d).
Proof.
  unfold wf. induction d as [|[k' v'] d IH]; simpl; intros H.
  - constructor; [simpl; tauto|constructor].
  - inversion H as [|? ? Hn Hd]; subst.
    destruct (Nat.eqb_spec k k') as [->|Hne]; simpl.
    + constructor; assumption.
    + constructor; [|auto].
      intros Hin. apply keys_set in Hin. destruct Hin; [congruence|tauto].
Qed.

Lemma wf_filter (f : nat * V -> bool) d : wf d -> wf (filter f d).
Proof.
  unfold wf. induction d as [|[k' v'] d IH]; simpl; intros H; [exact H|].
  inversion H as [|? ? Hn Hd]; subst.
  destruct (f (k', v')); simpl; [|auto].
  constructor; [|auto]. intros Hin. apply keys_filter in Hin. tauto.
Qed.

(** In a dictionary the entries under one key are at most one. *)
Lemma wf_entry k v d : wf d -> In (k, v) d -> get k d = Some v.
Proof.
  unfold wf. induction d as [|[k' v'] d IH]; simpl; [tauto|].
  intros H [E|Hin].
  - inversion E; subst. now rewrite Nat.eqb_refl.
  - inversion H as [|? ? Hn Hd]; subst.
    destruct (Nat.eqb_spec k k') as [->|Hne]; [|auto].
    exfalso. apply Hn. unfold keys. apply in_map_iff. exists (k', v). auto.
Qed.

Lemma get_entry k v d : get k d = Some v -> In (k, v) d.
Proof.
  induction d as [|[k' v'] d IH]; simpl; [discriminate|].
  destruct (Nat.eqb_spec k k') as [->|Hne]; [|auto].
  intros E; inversion E; auto.
Qed.

Lemma get_filter (f : nat * V -> bool) k d :
  (forall v, f (k, v) = true) -> get k (filter f d) = get k d.
Proof.
  intros Hf. induction d as [|[k' v'] d IH]; simpl; [reflexivity|].
  destruct (Nat.eqb_spec k k') as [->|Hne].
  - rewrite Hf. simpl. now rewrite Nat.eqb_refl.
  - destruct (f (k', v')); simpl; [|exact IH].
    destruct (Nat.eqb_spec k k'); [tauto|exact IH].
Qed.

Lemma get_filter_out (f : nat * V -> bool) k d :
  (forall v, f (k, v) = false) -> get k (filter f d) = None.
Proof.
  intros Hf. induction d as [|[k' v'] d IH]; simpl; [reflexivity|].
  destruct (f (k', v')) eqn:E; simpl; [|exact IH].
  destruct (Nat.eqb_spec k k') as [->|Hne]; [|exact IH].
  rewrite Hf in E. discriminate.
Qed.
End Facts.
End PyDictFacts.

(** ** [broadcast] computed *)

Section Broadcast.
Variable fails : conn -> bool.
Variable message : PyStr.str.
Variable exclude_socket : option conn.

Lemma contains_In (c : conn) (l : list conn) :
  contains c l = true <-> In c l.
Proof.
  unfold contains. rewrite existsb_exists. split.
  - intros [c' [H E]]. apply Nat.eqb_eq in E. now subst.
  - intros H. exists c. split; [exact H|apply Nat.eqb_refl].
Qed.

Lemma list_remove_middle (c : conn) (pre rest : list conn) :
  ~ In c pre -> list_remove c (pre ++ c :: rest) = Some (pre ++ rest).
Proof.
  induction pre as [|a pre IH]; simpl; intros H.
  - now rewrite Nat.eqb_refl.
  - destruct (Nat.eqb_spec c a) as [->|_]; [tauto|].
    rewrite IH by tauto. reflexivity.
Qed.

Lemma drop_refused_step_refused (c : conn) (rest : list conn)
  (d : PyDict.dict Info.t) :
  refused fails exclude_socket c = true ->
  drop_refused fails exclude_socket rest (PyDict.del c d)
  = drop_refused fails exclude_socket (c :: rest) d.
Proof.
  intros Hc. unfold drop_refused, PyDict.del.
  induction d as [|[k v] d IH]; simpl; [reflexivity|].
  destruct (Nat.eqb_spec c k) as [<-|Hne]; simpl.
  - rewrite Hc, Nat.eqb_refl. simpl. exact IH.
  - destruct (Nat.eqb_spec k c) as [->|_]; [tauto|]. simpl.
    rewrite IH. reflexivity.
Qed.

Lemma drop_refused_step_ok (c : conn) (rest : list conn)
  (d : PyDict.dict Info.t) :
  refused fails exclude_socket c = false ->
  drop_refused fails exclude_socket rest d
  = drop_refused fails exclude_socket (c :: rest) d.
Proof.
  intros Hc. unfold drop_refused. apply filter_ext. intros [k v]. simpl.
  destruct (Nat.eqb_spec k c) as [->|_]; simpl; [|reflexivity].
  now rewrite Hc.
Qed.

(** The [except] branch of the loop on a peer still listed. *)
Lemma drop_peer_run (c : conn) (pre rest : list conn)
  (d : PyDict.dict Info.t) :
  ~ In c pre ->
  (clients_remove c ;;
   (present <- players_contains c ;;
    if present then players_del c else ret tt) ;;
   close c) (mkServer (pre ++ c :: rest) d)
  = (Return tt, mkServer (pre ++ rest) (PyDict.del c d), [Close c]).
Proof.
  intros Hnin.
  unfold bind, clients_remove, players_contains, players_del, close, ret.
  cbn [clients players].
  rewrite list_remove_middle by exact Hnin.
  cbn [clients players].
  destruct (PyDict.contains c d) eqn:E; cbn [clients players].
  - rewrite E. reflexivity.
  - rewrite PyDictFacts.del_absent by exact E. reflexivity.
Qed.

(** The loop over the snapshot [rest], started with the peers [pre]
    already served and kept: the peers of [rest] that refuse the write
    leave both tables, in one pass, and no [remove] misses. *)
Lemma broadcast_loop (rest : list conn) :
  forall (pre : list conn) (d : PyDict.dict Info.t),
    Forall (fun c => kept fails exclude_socket c = true) pre ->
    for_each rest (broadcast_turn fails message exclude_socket) (mkServer (pre ++ rest) d)
    = (Return tt,
       mkServer (pre ++ filter (kept fails exclude_socket) rest)
                (drop_refused fails exclude_socket rest d),
       flat_map (send_events fails message exclude_socket) rest).
Proof.
  induction rest as [|c rest IH]; intros pre d Hpre.
  - simpl. unfold ret, drop_refused. f_equal. f_equal. f_equal.
    symmetry. apply forallb_filter_id. apply forallb_forall.
    intros [k v] _. simpl. now rewrite andb_false_r.
  - cbn [for_each flat_map filter]. unfold bind at 1.
    destruct (refused fails exclude_socket c) eqn:Hc.
    + (* the write to [c] is refused *)
      assert (Hd : differs c exclude_socket = true /\ fails c = true)
        by (apply andb_true_iff; exact Hc).
      destruct Hd as [Hd Hf].
      assert (Hnin : ~ In c pre).
      { intros Hin. rewrite Forall_forall in Hpre.
        apply Hpre in Hin. unfold kept in Hin. rewrite Hc in Hin.
        discriminate. }
      unfold broadcast_turn at 1. rewrite Hd.
      unfold try_except, sendall. rewrite Hf.
      cbn iota beta.
      rewrite drop_peer_run by exact Hnin.
      rewrite (IH pre (PyDict.del c d) Hpre).
      unfold kept at 2. rewrite Hc. cbn [negb].
      rewrite drop_refused_step_refused by exact Hc.
      unfold send_events. rewrite Hd, Hf. reflexivity.
    + (* the write goes through, or [c] is the excluded socket *)
      assert (Hstep : broadcast_turn fails message exclude_socket c (mkServer (pre ++ c :: rest) d)
              = (Return tt, mkServer (pre ++ c :: rest) d,
                 send_events fails message exclude_socket c)).
      { unfold broadcast_turn, send_events.
        destruct (differs c exclude_socket) eqn:Hd; [|reflexivity].
        unfold refused in Hc. rewrite Hd in Hc. simpl in Hc.
        unfold try_except, sendall. rewrite Hc. reflexivity. }
      rewrite Hstep.
      assert (Hpre' : Forall (fun c => kept fails exclude_socket c = true) (pre ++ [c])).
      { apply Forall_app. split; [exact Hpre|].
        constructor; [|constructor]. unfold kept. now rewrite Hc. }
      replace (pre ++ c :: rest) with ((pre ++ [c]) ++ rest)
        by (rewrite <- app_assoc; reflexivity).
      rewrite (IH (pre ++ [c]) d Hpre').
      unfold kept at 2. rewrite Hc. cbn [negb].
      rewrite <- app_assoc. cbn [app].
      rewrite (@drop_refused_step_ok c rest d Hc). reflexivity.
Qed.

(** [broadcast] always returns; what it leaves and what it emits. *)
Lemma broadcast_run (s : Server) :
  broadcast fails message exclude_socket s
  = (Return tt, after_broadcast fails exclude_socket s,
     LockAcquire
     :: flat_map (send_events fails message exclude_socket) (clients s)
     ++ [LockRelease]).
Proof.
  destruct s as [cl d].
  pose proof (@broadcast_loop cl [] d (Forall_nil _)) as H.
  cbn [app] in H.
  unfold broadcast, with_lock, bind at 1, clients_copy.
  fold (broadcast_turn fails message exclude_socket). cbn [clients players].
  rewrite H. reflexivity.
Qed.
End Broadcast.

(** ** The loop body computed *)

Lemma locked_set_run (c : conn) (info : Info.t) (s : Server) :
  with_lock (players_set c info) s
  = (Return tt, with_player c info s, [LockAcquire; LockRelease]).
Proof. reflexivity. Qed.

(** One chunk: nothing for a line that is no command, otherwise the entry
    of the sender is written and the notice is broadcast. *)
Lemma handle_data_run (fails : conn -> bool) (c : conn) (data : PyStr.str)
  (s : Server) :
  handle_data fails c data s
  = match command_of data with
    | Some (Join name) =>
        let s1 := with_player c (Info.mk name 0 0) s in
        (Return tt, after_broadcast fails None s1,
         [LockAcquire; LockRelease]
         ++ broadcast_events fails (PyStr.text "JOINED," ++ name) None s1)
    | Some (Move name x y) =>
        let s1 := with_player c (Info.mk name x y) s in
        (Return tt, after_broadcast fails None s1,
         [LockAcquire; LockRelease; LockAcquire; LockRelease]
         ++ broadcast_events fails
              (PyStr.text "UPDATE;" ++ serialize (players s1)) None s1)
    | None => (Return tt, s, [])
    end.
Proof.
  unfold handle_data, command_of.
  destruct (PyStr.eqb (item (PyStr.split PyStr.comma data) 0)
              (PyStr.text "JOIN")
            && Nat.eqb (List.length (PyStr.split PyStr.comma data)) 2).
  - unfold bind. rewrite locked_set_run. rewrite broadcast_run. reflexivity.
  - destruct (PyStr.eqb (item (PyStr.split PyStr.comma data) 0)
                (PyStr.text "MOVE")
              && Nat.eqb (List.length (PyStr.split PyStr.comma data)) 4);
      [|reflexivity].
    unfold try_except, bind at 1, int_of.
    destruct (PyStr.int (item (PyStr.split PyStr.comma data) 2)) as [x|];
      [|reflexivity].
    unfold ret at 1. unfold bind at 1.
    destruct (PyStr.int (item (PyStr.split PyStr.comma data) 3)) as [y|];
      [|reflexivity].
    unfold ret at 1. unfold bind at 1. rewrite locked_set_run.
    unfold bind at 1.
    unfold with_lock at 1, bind at 1, players_values, ret at 1.
    cbn [players with_player].
    rewrite broadcast_run. reflexivity.
Qed.

Lemma contains_false (c : conn) (l : list conn) :
  contains c l = false <-> ~ In c l.
Proof.
  rewrite <- contains_In. destruct (contains c l); split; congruence.
Qed.

Lemma list_remove_none (c : conn) (l : list conn) :
  list_remove c l = None <-> ~ In c l.
Proof.
  induction l as [|a l IH]; simpl; [tauto|].
  destruct (Nat.eqb_spec c a) as [->|Hne].
  - split; [discriminate|tauto].
  - destruct (list_remove c l); simpl.
    + split; [discriminate|]. intros H. exfalso. apply H. right.
      destruct (in_dec Nat.eq_dec c l) as [Hin|Hnin]; [exact Hin|].
      apply IH in Hnin. discriminate.
    + split; [|reflexivity]. intros _ [E|Hin]; [congruence|].
      now apply IH.
Qed.

(** What [without] leaves was there before. *)
Lemma without_incl (c : conn) (l : list conn) :
  forall a, In a (without c l) -> In a l.
Proof.
  unfold without. induction l as [|b l IH]; simpl; [tauto|].
  destruct (Nat.eqb_spec c b) as [->|Hne]; [tauto|].
  destruct (list_remove c l); simpl in *; intuition.
Qed.

(** The other peers stay. *)
Lemma without_other (c : conn) (l : list conn) :
  forall a, a <> c -> In a l -> In a (without c l).
Proof.
  unfold without. induction l as [|b l IH]; simpl; [tauto|].
  intros a Hne Hin. destruct (Nat.eqb_spec c b) as [->|Hcb].
  - destruct Hin; [congruence|assumption].
  - specialize (IH a Hne). destruct (list_remove c l); simpl in *; intuition.
Qed.

Lemma without_absent (c : conn) (l : list conn) :
  ~ In c l -> without c l = l.
Proof.
  intros H. unfold without. apply list_remove_none in H. now rewrite H.
Qed.

(** A peer listed once is gone. *)
Lemma without_NoDup (c : conn) (l : list conn) :
  NoDup l -> ~ In c (without c l).
Proof.
  unfold without. induction l as [|b l IH]; simpl; [tauto|].
  intros H. inversion H as [|? ? Hn Hd]; subst.
  destruct (Nat.eqb_spec c b) as [->|Hcb]; [exact Hn|].
  specialize (IH Hd). destruct (list_remove c l); simpl in *; intuition.
Qed.

(** The locked part of the [finally] block. *)
Lemma locked_unregister_run (c : conn) (s : Server) :
  with_lock (
    present <- clients_contains c ;;
    (if present then clients_remove c else ret tt) ;;
    players_pop c) s
  = (Return (PyDict.get c (players s)), unregister c s,
     [LockAcquire; LockRelease]).
Proof.
  unfold with_lock, bind, clients_contains, clients_remove, players_pop, ret,
    unregister, without.
  destruct (contains c (clients s)) eqn:E.
  - apply contains_In in E.
    destruct (list_remove c (clients s)) as [l|] eqn:R.
    + reflexivity.
    + apply list_remove_none in R. tauto.
  - apply contains_false, list_remove_none in E. rewrite E.
    destruct s; reflexivity.
Qed.

(** The [finally] block: the connection leaves both tables and is closed;
    [LEFT] is broadcast when there was an entry to pop. *)
Lemma finally_block_run (fails : conn -> bool) (c : conn) (s : Server) :
  finally_block fails c s
  = match PyDict.get c (players s) with
    | Some info =>
        (Return tt, after_broadcast fails None (unregister c s),
         [LockAcquire; LockRelease; Close c]
         ++ broadcast_events fails (PyStr.text "LEFT," ++ Info.name info)
              None (unregister c s))
    | None => (Return tt, unregister c s, [LockAcquire; LockRelease; Close c])
    end.
Proof.
  unfold finally_block. unfold bind at 1. rewrite locked_unregister_run.
  destruct (PyDict.get c (players s)) as [info|].
  - unfold bind, close. rewrite broadcast_run. reflexivity.
  - reflexivity.
Qed.

(** ** Reading a line *)

Module WireFacts.
Import PyStr PyStrFacts.

Lemma split_nonempty (sep : char) (s : str) : split sep s <> [].
Proof.
  destruct s as [|ch s]; simpl; [discriminate|].
  destruct (ch =? sep)%N; [discriminate|].
  destruct (split sep s); discriminate.
Qed.

(** Joining the fields gives the line back. *)
Lemma join_split (sep : char) (s : str) : join [sep] (split sep s) = s.
Proof.
  induction s as [|ch s IH]; [reflexivity|].
  cbn [split]. destruct (ch =? sep)%N eqn:E.
  - apply N.eqb_eq in E. subst ch.
    pose proof (split_nonempty sep s) as Hne.
    cbn [join]. destruct (split sep s) as [|p ps]; [tauto|].
    cbn [app]. now rewrite IH.
  - destruct (split sep s) as [|p ps] eqn:Es;
      [exfalso; now apply (split_nonempty sep s)|].
    rewrite <- IH. cbn [join]. destruct ps; reflexivity.
Qed.

(** No field holds the separator. *)
Lemma split_fields (sep : char) (s : str) :
  Forall (fun p => ~ In sep p) (split sep s).
Proof.
  induction s as [|ch s IH]; simpl.
  - constructor; [tauto|constructor].
  - destruct (N.eqb_spec ch sep) as [->|Hne].
    + constructor; [simpl; tauto|exact IH].
    + destruct (split sep s) as [|p ps].
      * constructor; [simpl; intuition congruence|constructor].
      * inversion IH; subst. constructor; [|assumption].
        simpl. intuition congruence.
Qed.

Lemma split_join_line (name : str) :
  no_comma name ->
  split comma (join_line name) = [text "JOIN"; name].
Proof.
  intros H. unfold join_line.
  rewrite split_app by exact text_no_comma_JOIN.
  now rewrite split_one.
Qed.

Lemma split_move_line (name x y : str) :
  no_comma name -> no_comma x -> no_comma y ->
  split comma (move_line name x y) = [text "MOVE"; name; x; y].
Proof.
  intros Hn Hx Hy. unfold move_line.
  rewrite split_app by exact text_no_comma_MOVE.
  rewrite split_app by exact Hn.
  rewrite split_app by exact Hx.
  now rewrite split_one.
Qed.

Lemma command_of_join (name : str) :
  no_comma name -> command_of (join_line name) = Some (Join (strip name)).
Proof.
  intros H. unfold command_of. rewrite split_join_line by exact H.
  reflexivity.
Qed.

Lemma command_of_move (name xs ys : str) (x y : Z) :
  no_comma name -> no_comma xs -> no_comma ys ->
  int xs = Some x -> int ys = Some y ->
  command_of (move_line name xs ys) = Some (Move name x y).
Proof.
  intros Hn Hx Hy Ex Ey. unfold command_of.
  rewrite split_move_line by assumption.
  cbn [item nth List.length].
  replace (eqb (text "MOVE") (text "JOIN")) with false by reflexivity.
  rewrite eqb_refl. cbn [andb Nat.eqb].
  now rewrite Ex, Ey.
Qed.

(** A line the handler acts on is a well-formed command. *)
Lemma command_of_well_formed (data : str) (cmd : command) :
  command_of data = Some cmd -> well_formed data.
Proof.
  unfold command_of.
  pose proof (join_split comma data) as Hj.
  pose proof (split_fields comma data) as Hf.
  destruct (split comma data) as [|p0 [|p1 [|p2 [|p3 [|p4 ps]]]]];
    cbn [item nth List.length Nat.eqb];
    rewrite ?andb_false_r; try discriminate.
  - (* two fields *)
    destruct (eqb p0 (text "JOIN")) eqn:E0; cbn [andb]; [|discriminate].
    intros _. apply eqb_eq in E0. subst p0.
    left. exists p1. split.
    + inversion Hf as [|? ? _ Hf1]; subst. now inversion Hf1.
    + now rewrite <- Hj.
  - (* four fields *)
    destruct (eqb p0 (text "MOVE")) eqn:E0; cbn [andb]; [|discriminate].
    apply eqb_eq in E0. subst p0.
    destruct (int p2) as [x|] eqn:Ex; [|discriminate].
    destruct (int p3) as [y|] eqn:Ey; [|discriminate].
    intros _. right. exists p1, p2, p3.
    inversion Hf as [|? ? _ Hf1]; subst.
    inversion Hf1 as [|? ? H1 Hf2]; subst.
    inversion Hf2 as [|? ? H2 Hf3]; subst.
    inversion Hf3 as [|? ? H3 _]; subst.
    repeat split; try assumption; try congruence.
Qed.

Lemma command_of_malformed (data : str) :
  ~ well_formed data -> command_of data = None.
Proof.
  intros H. destruct (command_of data) as [cmd|] eqn:E; [|reflexivity].
  exfalso. apply H. exact (command_of_well_formed _ E).
Qed.

End WireFacts.

(** ** Reading a trace *)

Lemma attempts_app (t u : list event) :
  attempts (t ++ u) = attempts t ++ attempts u.
Proof.
  induction t as [|e t IH]; [reflexivity|].
  destruct e; simpl; rewrite IH; reflexivity.
Qed.

Lemma deliveries_app (t u : list event) :
  deliveries (t ++ u) = deliveries t ++ deliveries u.
Proof.
  induction t as [|e t IH]; [reflexivity|].
  destruct e; simpl; rewrite IH; reflexivity.
Qed.

Lemma closed_app (t u : list event) :
  closed (t ++ u) = closed t ++ closed u.
Proof.
  induction t as [|e t IH]; [reflexivity|].
  destruct e; simpl; rewrite IH; reflexivity.
Qed.

Section BroadcastTrace.
Variable fails : conn -> bool.
Variable message : PyStr.str.
Variable exclude_socket : option conn.

Lemma attempts_loop (l : list conn) :
  attempts (flat_map (send_events fails message exclude_socket) l)
  = List.map (fun c => (c, message))
      (filter (fun c => differs c exclude_socket) l).
Proof.
  induction l as [|c l IH]; [reflexivity|].
  cbn [flat_map filter]. rewrite attempts_app, IH. unfold send_events.
  destruct (differs c exclude_socket); [|reflexivity].
  destruct (fails c); reflexivity.
Qed.

Lemma deliveries_loop (l : list conn) :
  deliveries (flat_map (send_events fails message exclude_socket) l)
  = List.map (fun c => (c, message))
      (filter (fun c => differs c exclude_socket && negb (fails c)) l).
Proof.
  induction l as [|c l IH]; [reflexivity|].
  cbn [flat_map filter]. rewrite deliveries_app, IH. unfold send_events.
  destruct (differs c exclude_socket); [|reflexivity].
  destruct (fails c); reflexivity.
Qed.

Lemma closed_loop (l : list conn) :
  closed (flat_map (send_events fails message exclude_socket) l)
  = filter (refused fails exclude_socket) l.
Proof.
  induction l as [|c l IH]; [reflexivity|].
  cbn [flat_map filter]. rewrite closed_app, IH.
  unfold send_events, refused.
  destruct (differs c exclude_socket); [|reflexivity].
  destruct (fails c); reflexivity.
Qed.

Lemma attempts_broadcast (s : Server) :
  attempts (broadcast_events fails message exclude_socket s)
  = List.map (fun c => (c, message))
      (filter (fun c => differs c exclude_socket) (clients s)).
Proof.
  unfold broadcast_events. cbn [attempts].
  rewrite attempts_app, attempts_loop. cbn [attempts].
  now rewrite app_nil_r.
Qed.

Lemma deliveries_broadcast (s : Server) :
  deliveries (broadcast_events fails message exclude_socket s)
  = List.map (fun c => (c, message))
      (filter (fun c => differs c exclude_socket && negb (fails c))
         (clients s)).
Proof.
  unfold broadcast_events. cbn [deliveries].
  rewrite deliveries_app, deliveries_loop. cbn [deliveries].
  now rewrite app_nil_r.
Qed.

Lemma closed_broadcast (s : Server) :
  closed (broadcast_events fails message exclude_socket s)
  = filter (refused fails exclude_socket) (clients s).
Proof.
  unfold broadcast_events. cbn [closed].
  rewrite closed_app, closed_loop. cbn [closed].
  now rewrite app_nil_r.
Qed.

(** Every write of a broadcast is made with the lock held. *)
Lemma locked_loop (l : list conn) (t : list event) :
  locked true
    (flat_map (send_events fails message exclude_socket) l ++ t)
  = locked true t.
Proof.
  induction l as [|c l IH]; [reflexivity|].
  cbn [flat_map]. rewrite <- app_assoc. unfold send_events at 1.
  destruct (differs c exclude_socket); [|exact IH].
  destruct (fails c); cbn [app locked andb]; exact IH.
Qed.

(** A peer is listed after a broadcast when it was before and did not
    refuse the write. *)
Lemma clients_after_broadcast (s : Server) (c : conn) :
  In c (clients (after_broadcast fails exclude_socket s))
  <-> In c (clients s) /\ refused fails exclude_socket c = false.
Proof.
  unfold after_broadcast. cbn [clients]. rewrite filter_In.
  rewrite negb_true_iff. reflexivity.
Qed.

(** The entry of a peer after a broadcast: gone when the peer was
    listed and refused the write, untouched otherwise. *)
Lemma players_after_broadcast (s : Server) (c : conn) :
  PyDict.get c (players (after_broadcast fails exclude_socket s))
  = if refused fails exclude_socket c && contains c (clients s)
    then None
    else PyDict.get c (players s).
Proof.
  unfold after_broadcast, drop_refused. cbn [players].
  destruct (refused fails exclude_socket c && contains c (clients s)) eqn:E.
  - apply PyDictFacts.get_filter_out. intros v. cbn [fst]. now rewrite E.
  - apply PyDictFacts.get_filter. intros v. cbn [fst]. now rewrite E.
Qed.

(** With no refusal among the listed peers a broadcast changes
    nothing. *)
Lemma after_broadcast_quiet (s : Server) :
  (forall c, In c (clients s) -> refused fails exclude_socket c = false) ->
  after_broadcast fails exclude_socket s = s.
Proof.
  intros H. destruct s as [cl d]. unfold after_broadcast, drop_refused.
  cbn [clients players] in *. f_equal.
  - apply forallb_filter_id. apply forallb_forall. intros c Hc.
    now rewrite (H c Hc).
  - apply forallb_filter_id. apply forallb_forall. intros [k v] _.
    cbn [fst]. destruct (contains k cl) eqn:E.
    + apply contains_In in E. now rewrite (H k E).
    + now rewrite andb_false_r.
Qed.

Lemma keys_after_broadcast (s : Server) (c : conn) :
  In c (PyDict.keys (players (after_broadcast fails exclude_socket s))) ->
  In c (PyDict.keys (players s)).
Proof. apply PyDictFacts.keys_filter. Qed.
End BroadcastTrace.

(** ** The protocol commands *)

Lemma handle_data_join (fails : conn -> bool) (c : conn) (name : PyStr.str)
  (s : Server) :
  no_comma name ->
  let info := Info.mk (PyStr.strip name) 0 0 in
  handle_data fails c (join_line name) s
  = (Return tt, after_broadcast fails None (with_player c info s),
     [LockAcquire; LockRelease]
     ++ broadcast_events fails (PyStr.text "JOINED," ++ PyStr.strip name)
          None (with_player c info s)).
Proof.
  intros H. rewrite handle_data_run, WireFacts.command_of_join by exact H.
  reflexivity.
Qed.

Lemma handle_data_move (fails : conn -> bool) (c : conn)
  (name xs ys : PyStr.str) (x y : Z) (s : Server) :
  no_comma name -> no_comma xs -> no_comma ys ->
  PyStr.int xs = Some x -> PyStr.int ys = Some y ->
  let s1 := with_player c (Info.mk name x y) s in
  handle_data fails c (move_line name xs ys) s
  = (Return tt, after_broadcast fails None s1,
     [LockAcquire; LockRelease; LockAcquire; LockRelease]
     ++ broadcast_events fails
          (PyStr.text "UPDATE;" ++ serialize (players s1)) None s1).
Proof.
  intros Hn Hx Hy Ex Ey.
  rewrite handle_data_run.
  rewrite (WireFacts.command_of_move Hn Hx Hy Ex Ey).
  reflexivity.
Qed.

Lemma filter_all (A : Type) (l : list A) : filter (fun _ => true) l = l.
Proof. induction l; simpl; congruence. Qed.

Lemma refused_none (fails : conn -> bool) (c : conn) :
  refused fails None c = fails c.
Proof. reflexivity. Qed.

(** The entry written by a command outlives the broadcast of its notice
    when the write to the sender is not refused. *)
Lemma entry_after_notice (fails : conn -> bool) (c : conn) (info : Info.t)
  (s : Server) :
  fails c = false ->
  PyDict.get c (players (after_broadcast fails None (with_player c info s)))
  = Some info.
Proof.
  intros Hc. rewrite players_after_broadcast, refused_none, Hc.
  cbn [andb with_player players]. apply PyDictFacts.get_set_same.
Qed.

Lemma pair_with_injective (A B : Type) (b : B) :
  Injective (fun a : A => (a, b)).
Proof. intros a a' E. now inversion E. Qed.

(** C3. [broadcast(message, exclude)] tries to write [message] to every
    listed connection other than [exclude]; a connection whose write fails
    leaves [self.clients], loses its player entry and is closed; the
    others are written to all the same and keep their place and entry;
    the call returns normally whatever fails. *)
Theorem broadcast_drops_failed_peers (fails : conn -> bool)
  (message : PyStr.str) (exclude_socket : option conn) (s : Server) :
  let r := broadcast fails message exclude_socket s in
  result r = Return tt
  /\ attempts (trace r)
     = List.map (fun c => (c, message))
         (filter (fun c => differs c exclude_socket) (clients s))
  /\ deliveries (trace r)
     = List.map (fun c => (c, message))
         (filter (fun c => differs c exclude_socket && negb (fails c))
            (clients s))
  /\ (forall c, In c (clients s) -> differs c exclude_socket = true ->
        fails c = true ->
        ~ In c (clients (state r))
        /\ PyDict.get c (players (state r)) = None
        /\ In c (closed (trace r)))
  /\ (forall c, differs c exclude_socket = false \/ fails c = false ->
        (In c (clients (state r)) <-> In c (clients s))
        /\ PyDict.get c (players (state r)) = PyDict.get c (players s)
        /\ ~ In c (closed (trace r))).
Proof.
  cbv zeta. rewrite broadcast_run. unfold result, state, trace.
  cbn [fst snd]. fold (broadcast_events fails message exclude_socket s).
  rewrite attempts_broadcast, deliveries_broadcast, closed_broadcast.
  repeat split.
  - rewrite clients_after_broadcast. unfold refused.
    rewrite H0, H1. intros [_ E]. discriminate.
  - rewrite players_after_broadcast. unfold refused.
    rewrite H0, H1. apply contains_In in H. now rewrite H.
  - apply filter_In. split; [exact H|]. unfold refused. now rewrite H0, H1.
  - rewrite clients_after_broadcast. tauto.
  - rewrite clients_after_broadcast. intros Hin. split; [exact Hin|].
    unfold refused. destruct H as [-> | ->]; [reflexivity|apply andb_false_r].
  - rewrite players_after_broadcast.
    replace (refused fails exclude_socket c) with false; [reflexivity|].
    unfold refused. destruct H as [-> | ->];
      [reflexivity|symmetry; apply andb_false_r].
  - rewrite filter_In. intros [_ E]. unfold refused in E.
    destruct H as [H | H]; rewrite H in E;
      [discriminate|rewrite andb_false_r in E; discriminate].
Qed.

(** C7, as the code has it.  [broadcast] takes the lock first and gives
    it back last: the copy of [self.clients] is taken and every write is
    attempted, and every failed peer removed and closed, while the lock is
    held. *)
Theorem broadcast_writes_under_lock (fails : conn -> bool)
  (message : PyStr.str) (exclude_socket : option conn) (s : Server) :
  let t := trace (broadcast fails message exclude_socket s) in
  locked false t = true
  /\ exists body,
       t = LockAcquire :: body ++ [LockRelease]
       /\ ~ In LockAcquire body /\ ~ In LockRelease body
       /\ attempts body = attempts t
       /\ closed body = closed t.
Proof.
  cbv zeta. rewrite broadcast_run. unfold trace. cbn [snd]. split.
  - cbn [locked]. now rewrite locked_loop.
  - exists (flat_map (send_events fails message exclude_socket) (clients s)).
    assert (Hno : forall e, e = LockAcquire \/ e = LockRelease ->
      ~ In e (flat_map (send_events fails message exclude_socket) (clients s))).
    { intros e He Hin. apply in_flat_map in Hin.
      destruct Hin as [c [_ Hin]]. unfold send_events in Hin.
      destruct (differs c exclude_socket); [|exact Hin].
      destruct (fails c); simpl in Hin; intuition congruence. }
    repeat split; try (apply Hno; tauto).
    + cbn [attempts]. rewrite attempts_app. cbn [attempts].
      now rewrite app_nil_r.
    + cbn [closed]. rewrite closed_app. cbn [closed]. now rewrite app_nil_r.
Qed.

(** C7, as the claim has it, fails on a server with one connection: the
    single write of the broadcast is made between the acquisition and the
    release of the lock. *)
Lemma broadcast_lock_free_fails :
  lock_free false
    (trace (broadcast all_delivered (PyStr.text "JOINED,Alice") None
              (mkServer [1] [])))
  = false
  /\ trace (broadcast all_delivered (PyStr.text "JOINED,Alice") None
              (mkServer [1] []))
     = [LockAcquire; SendAll 1 (PyStr.text "JOINED,Alice"); LockRelease].
Proof. split; reflexivity. Qed.

(** C1. A line [MOVE,<name>,<x>,<y>] whose last two fields read as the
    integers [x] and [y] makes the handler of [c] set the entry of [c] to
    [{name, x, y}], whether or not [c] had one, and then broadcast to
    every listed connection, none excluded, [UPDATE;] followed by all the
    entries then known, each as [name,x,y], joined by [;]. *)
Theorem move_sets_entry_and_broadcasts_update (fails : conn -> bool)
  (c : conn) (name xs ys : PyStr.str) (x y : Z) (s : Server) :
  no_comma name -> no_comma xs -> no_comma ys ->
  PyStr.int xs = Some x -> PyStr.int ys = Some y ->
  let info := Info.mk name x y in
  let known := PyDict.set c info (players s) in
  let update :=
    PyStr.text "UPDATE;"
    ++ PyStr.join [PyStr.semicolon]
         (List.map format_info (PyDict.values known)) in
  let r := handle_data fails c (move_line name xs ys) s in
  result r = Return tt
  /\ PyDict.get c known = Some info
  /\ state r = state (broadcast fails update None (mkServer (clients s) known))
  /\ attempts (trace r) = List.map (fun cl => (cl, update)) (clients s)
  /\ deliveries (trace r)
     = List.map (fun cl => (cl, update))
         (filter (fun cl => negb (fails cl)) (clients s))
  /\ (fails c = false -> PyDict.get c (players (state r)) = Some info).
Proof.
  intros Hn Hx Hy Ex Ey. cbv zeta.
  rewrite (handle_data_move fails c s Hn Hx Hy Ex Ey), broadcast_run.
  unfold result, state, trace. cbn [fst snd].
  rewrite attempts_app, deliveries_app.
  unfold with_player at 3 5. cbn [players].
  rewrite attempts_broadcast, deliveries_broadcast.
  cbn [attempts deliveries app differs andb with_player clients].
  rewrite filter_all.
  repeat split.
  - apply PyDictFacts.get_set_same.
  - intros Hc. now apply entry_after_notice.
Qed.

(** C2. A line [JOIN,<name>] makes the handler of [c] set the entry of
    [c] to the name without its surrounding white space at (0, 0), and
    broadcast [JOINED,<name>] once to every listed connection, the sender
    among them. *)
Theorem join_sets_entry_and_broadcasts_joined (fails : conn -> bool)
  (c : conn) (name : PyStr.str) (s : Server) :
  no_comma name ->
  let info := Info.mk (PyStr.strip name) 0 0 in
  let joined := PyStr.text "JOINED," ++ PyStr.strip name in
  let r := handle_data fails c (join_line name) s in
  result r = Return tt
  /\ state r = state (broadcast fails joined None (with_player c info s))
  /\ attempts (trace r) = List.map (fun cl => (cl, joined)) (clients s)
  /\ deliveries (trace r)
     = List.map (fun cl => (cl, joined))
         (filter (fun cl => negb (fails cl)) (clients s))
  /\ (In c (clients s) -> In (c, joined) (attempts (trace r)))
  /\ (NoDup (clients s) -> NoDup (attempts (trace r)))
  /\ (fails c = false -> PyDict.get c (players (state r)) = Some info).
Proof.
  intros Hn. cbv zeta.
  rewrite (handle_data_join fails c s Hn), broadcast_run.
  cbv zeta. unfold result, state, trace. cbn [fst snd].
  rewrite attempts_app, deliveries_app.
  rewrite attempts_broadcast, deliveries_broadcast.
  cbn [attempts deliveries app differs andb with_player clients].
  rewrite filter_all.
  repeat split.
  - intros Hin. apply in_map_iff. exists c. auto.
  - intros Hnd. apply Injective_map_NoDup; [|exact Hnd].
    apply pair_with_injective.
  - intros Hc. now apply entry_after_notice.
Qed.

Lemma well_formed_command (data : PyStr.str) :
  well_formed data <-> command_of data <> None.
Proof.
  split.
  - intros [[name [Hn ->]] | [name [xs [ys [Hn [Hx [Hy [Ex [Ey ->]]]]]]]]].
    + rewrite WireFacts.command_of_join by exact Hn. discriminate.
    + destruct (PyStr.int xs) as [x|] eqn:Exs; [|tauto].
      destruct (PyStr.int ys) as [y|] eqn:Eys; [|tauto].
      rewrite (WireFacts.command_of_move Hn Hx Hy Exs Eys). discriminate.
  - destruct (command_of data) as [cmd|] eqn:E; [|tauto].
    intros _. exact (WireFacts.command_of_well_formed _ E).
Qed.

(** C5. A line that is no well-formed command (another first token, a
    wrong number of arguments, a coordinate that is no integer) leaves
    [self.clients] and [self.players] as they were, writes to no one, and
    the loop goes on to the next chunk with the connection open. *)
Theorem malformed_line_is_ignored (fails : conn -> bool) (c : conn)
  (data : PyStr.str) (s : Server) :
  data <> [] -> ~ well_formed data ->
  handle_data fails c data s = (Return tt, s, [])
  /\ forall script fl,
       handle_client c (mkInput (Received data) fails :: script) fl s
       = handle_client c script fl s.
Proof.
  intros Hne Hwf.
  assert (Hd : handle_data fails c data s = (Return tt, s, [])).
  { rewrite handle_data_run.
    now rewrite (WireFacts.command_of_malformed Hwf). }
  split; [exact Hd|].
  intros script fl.
  assert (Hl : read_loop c (mkInput (Received data) fails :: script) s
               = read_loop c script s).
  { cbn [read_loop recv sendall_fails].
    destruct data as [|ch data]; [tauto|]. cbn [is_empty].
    unfold bind. rewrite Hd.
    destruct (read_loop c script s) as [[exit s1] t1]. reflexivity. }
  unfold handle_client, session, bind, try_except. now rewrite Hl.
Qed.

Lemma del_set (V : Type) (k : nat) (v : V) (d : PyDict.dict V) :
  PyDict.del k (PyDict.set k v d) = PyDict.del k d.
Proof.
  unfold PyDict.del. induction d as [|[k' v'] d IH]; simpl.
  - now rewrite Nat.eqb_refl.
  - destruct (Nat.eqb k k') eqn:E; simpl; rewrite ?Nat.eqb_refl, ?E; simpl;
      [reflexivity|now rewrite IH].
Qed.

(** The registry after one chunk, whatever the chunk. *)
Lemma handle_data_state (fails : conn -> bool) (c : conn) (data : PyStr.str)
  (s : Server) :
  state (handle_data fails c data s) = s
  \/ exists info,
       state (handle_data fails c data s)
       = after_broadcast fails None (with_player c info s).
Proof.
  rewrite handle_data_run.
  destruct (command_of data) as [[name|name x y]|]; cbv zeta; unfold state;
    cbn [fst snd]; eauto.
Qed.

(** C9. A broadcast whose writes all succeed changes neither
    [self.clients] nor [self.players].  The assignment a [JOIN] or [MOVE]
    makes for [c] touches the entry of [c] only; with the notice that
    follows, the entries and the listing of the other connections are
    unchanged for every connection that takes the notice, and when all do
    the whole registry is unchanged but for the entry of [c]. *)
Theorem frame_of_broadcast_and_commands (fails : conn -> bool) (c : conn)
  (s : Server) :
  (forall message exclude_socket,
     (forall cl, In cl (clients s) -> fails cl = false) ->
     state (broadcast fails message exclude_socket s) = s)
  /\ (forall info,
        let s1 := state (with_lock (players_set c info) s) in
        clients s1 = clients s
        /\ PyDict.del c (players s1) = PyDict.del c (players s))
  /\ (forall data c',
        let r := handle_data fails c data s in
        c' <> c -> fails c' = false ->
        PyDict.get c' (players (state r)) = PyDict.get c' (players s)
        /\ (In c' (clients (state r)) <-> In c' (clients s)))
  /\ (forall data,
        let r := handle_data fails c data s in
        (forall cl, In cl (clients s) -> fails cl = false) ->
        clients (state r) = clients s
        /\ PyDict.del c (players (state r)) = PyDict.del c (players s)).
Proof.
  split; [|split; [|split]].
  - intros message exclude_socket Hq.
    rewrite broadcast_run. unfold state. cbn [fst snd].
    apply after_broadcast_quiet. intros cl Hcl. unfold refused.
    rewrite (Hq cl Hcl). apply andb_false_r.
  - intros info.
    cbn [with_lock players_set state fst snd players clients].
    split; [reflexivity|apply del_set].
  - intros data c' r Hne Hc'. unfold r.
    destruct (handle_data_state fails c data s) as [-> | [info ->]];
      [split; reflexivity|].
    rewrite players_after_broadcast, clients_after_broadcast, refused_none, Hc'.
    cbn [andb with_player players clients]. split; [|tauto].
    now apply PyDictFacts.get_set_other.
  - intros data r Hq. unfold r.
    destruct (handle_data_state fails c data s) as [-> | [info ->]];
      [split; reflexivity|].
    rewrite after_broadcast_quiet.
    + cbn [with_player players clients]. split; [reflexivity|apply del_set].
    + intros cl Hcl. rewrite refused_none. now apply Hq.
Qed.

Lemma wf_after_command (fails : conn -> bool) (c : conn) (data : PyStr.str)
  (s : Server) :
  PyDict.wf (players s) ->
  PyDict.wf (players (state (handle_data fails c data s))).
Proof.
  intros H.
  destruct (handle_data_state fails c data s) as [-> | [info ->]];
    [exact H|].
  unfold after_broadcast, drop_refused. cbn [players with_player].
  apply PyDictFacts.wf_filter, PyDictFacts.wf_set, H.
Qed.

(** C8. Two moves of one connection leave one entry, the second:
    after [MOVE,Bob,10,20] and [MOVE,Bob,15,-5] from [c] the only entry
    under [c] is (15, -5), and it is there whenever the write of the
    second notice to [c] went through.  A well-formed [MOVE] sent twice,
    with all writes succeeding, leaves the registry after the second as
    after the first and is answered by the same [UPDATE] to the same
    peers both times. *)
Theorem move_overwrites_and_repeats (c : conn) (s : Server) :
  PyDict.wf (players s) ->
  (forall f1 f2,
     let s1 := state (handle_data f1 c (PyStr.text "MOVE,Bob,10,20") s) in
     let s2 := state (handle_data f2 c (PyStr.text "MOVE,Bob,15,-5") s1) in
     (forall info, In (c, info) (players s2) ->
                   info = Info.mk (PyStr.text "Bob") 15 (-5))
     /\ ~ In (c, Info.mk (PyStr.text "Bob") 10 20) (players s2)
     /\ (f2 c = false ->
         PyDict.get c (players s2) = Some (Info.mk (PyStr.text "Bob") 15 (-5))))
  /\ (forall fails name xs ys,
        no_comma name -> no_comma xs -> no_comma ys ->
        PyStr.int xs <> None -> PyStr.int ys <> None ->
        (forall cl, In cl (clients s) -> fails cl = false) ->
        let r1 := handle_data fails c (move_line name xs ys) s in
        let r2 := handle_data fails c (move_line name xs ys) (state r1) in
        state r2 = state r1
        /\ trace r2 = trace r1
        /\ attempts (trace r2)
           = List.map
               (fun cl => (cl, PyStr.text "UPDATE;"
                               ++ serialize (players (state r1))))
               (clients s)).
Proof.
  intros Hwf. split.
  - intros f1 f2 s1 s2.
    set (bob := PyStr.text "Bob") in *.
    assert (Hn : no_comma bob) by no_comma_solve.
    assert (Hs2 : s2 = after_broadcast f2 None
                         (with_player c (Info.mk bob 15 (-5)) s1)).
    { unfold s2.
      change (PyStr.text "MOVE,Bob,15,-5")
        with (move_line bob (PyStr.text "15") (PyStr.text "-5")).
      rewrite (@handle_data_move f2 c bob (PyStr.text "15") (PyStr.text "-5")
                 15 (-5) s1);
        [reflexivity|exact Hn|no_comma_solve|no_comma_solve
        |reflexivity|reflexivity]. }
    assert (Hwf2 : PyDict.wf (players s2)).
    { unfold s2. apply wf_after_command. unfold s1.
      apply wf_after_command. exact Hwf. }
    assert (Hget : forall info, In (c, info) (players s2) ->
                   info = Info.mk bob 15 (-5)).
    { intros info Hin. apply PyDictFacts.wf_entry in Hin; [|exact Hwf2].
      rewrite Hs2, players_after_broadcast in Hin.
      destruct (refused f2 None c && _); [discriminate|].
      cbn [with_player players] in Hin.
      rewrite PyDictFacts.get_set_same in Hin. congruence. }
    repeat split.
    + exact Hget.
    + intros Hin. apply Hget in Hin. discriminate.
    + intros Hc. rewrite Hs2. now apply entry_after_notice.
  - intros fails name xs ys Hn Hx Hy Ex Ey Hq.
    destruct (PyStr.int xs) as [x|] eqn:Exs; [|tauto].
    destruct (PyStr.int ys) as [y|] eqn:Eys; [|tauto].
    set (info := Info.mk name x y).
    set (s1 := with_player c info s).
    set (t1 := [LockAcquire; LockRelease; LockAcquire; LockRelease]
               ++ broadcast_events fails
                    (PyStr.text "UPDATE;" ++ serialize (players s1)) None s1).
    assert (Hq1 : after_broadcast fails None s1 = s1).
    { apply after_broadcast_quiet. intros cl Hcl.
      rewrite refused_none. now apply Hq. }
    assert (E1 : handle_data fails c (move_line name xs ys) s
                 = (Return tt, s1, t1)).
    { rewrite (handle_data_move fails c s Hn Hx Hy Exs Eys).
      cbv zeta. fold info. fold s1. now rewrite Hq1. }
    assert (E2 : handle_data fails c (move_line name xs ys) s1
                 = (Return tt, s1, t1)).
    { rewrite (handle_data_move fails c s1 Hn Hx Hy Exs Eys).
      cbv zeta. fold info.
      replace (with_player c info s1) with s1.
      - now rewrite Hq1.
      - unfold s1, with_player. cbn [clients players].
        now rewrite PyDictFacts.set_set. }
    cbv zeta. rewrite E1. unfold state, trace. cbn [fst snd]. rewrite E2.
    cbn [fst snd]. repeat split.
    unfold t1. rewrite attempts_app, attempts_broadcast.
    cbn [attempts app differs]. now rewrite filter_all.
Qed.

(** ** White space around an integer *)

Module IntFacts.
Import PyStr.

Lemma c_space_no_digit (w : char) :
  is_c_space w = true -> is_digit w = false /\ (w =? 95)%N = false.
Proof.
  unfold is_c_space, is_digit, in_range.
  rewrite orb_true_iff, andb_true_iff, !N.leb_le, N.eqb_eq.
  intros H. split.
  - apply andb_false_iff. rewrite !N.leb_gt. lia.
  - apply N.eqb_neq. lia.
Qed.

Lemma scan_digits_space (w : char) (s : str) :
  is_c_space w = true ->
  forall acc p,
    scan_digits acc p (s ++ [w])
    = match scan_digits acc p s with
      | Some (n, rest) => Some (n, rest ++ [w])
      | None => None
      end.
Proof.
  intros Hw. destruct (c_space_no_digit w Hw) as [Hd Hu].
  induction s as [|ch s IH]; intros acc p; cbn [app scan_digits].
  - rewrite Hd, Hu. destruct p; reflexivity.
  - destruct (is_digit ch); [apply IH|].
    destruct (ch =? 95)%N; [destruct p; [reflexivity|apply IH]|].
    destruct p; reflexivity.
Qed.

Lemma skip_space_space (w : char) (s : str) :
  is_c_space w = true ->
  skip_space (s ++ [w])
  = match skip_space s with
    | [] => []
    | ch :: r => ch :: r ++ [w]
    end.
Proof.
  intros Hw. induction s as [|ch s IH]; cbn [app skip_space].
  - now rewrite Hw.
  - destruct (is_c_space ch); [exact IH|reflexivity].
Qed.

Lemma parse_unsigned_space (w : char) (s : str) :
  is_c_space w = true -> parse_unsigned (s ++ [w]) = parse_unsigned s.
Proof.
  intros Hw. destruct s as [|ch s].
  - cbn [app parse_unsigned].
    destruct (c_space_no_digit w Hw) as [-> _]. reflexivity.
  - change ((ch :: s) ++ [w]) with (ch :: (s ++ [w])).
    unfold parse_unsigned. destruct (is_digit ch); [|reflexivity].
    change (ch :: (s ++ [w])) with ((ch :: s) ++ [w]).
    rewrite scan_digits_space by exact Hw.
    destruct (scan_digits 0 false (ch :: s)) as [[n rest]|]; [|reflexivity].
    rewrite skip_space_space by exact Hw.
    destruct (skip_space rest); reflexivity.
Qed.

(** [int] does not mind one more blank, line end or other white space
    that [to_ascii] turns into C white space, at either end. *)
Lemma int_trailing_space (w : char) (s : str) :
  is_c_space (to_ascii w) = true -> int (s ++ [w]) = int s.
Proof.
  intros Hw. unfold int. rewrite map_app. cbn [List.map].
  rewrite skip_space_space by exact Hw.
  destruct (skip_space (List.map to_ascii s)) as [|ch r]; [reflexivity|].
  destruct (ch =? 43)%N; [now apply parse_unsigned_space|].
  destruct (ch =? 45)%N; [now rewrite parse_unsigned_space|].
  change (ch :: r ++ [to_ascii w]) with ((ch :: r) ++ [to_ascii w]).
  now apply parse_unsigned_space.
Qed.

Lemma int_leading_space (w : char) (s : str) :
  is_c_space (to_ascii w) = true -> int (w :: s) = int s.
Proof.
  intros Hw. unfold int. cbn [List.map skip_space]. now rewrite Hw.
Qed.

End IntFacts.

(** C10. [JOIN] records the name stripped, [MOVE] records it as sent; the
    coordinates of a [MOVE] may carry white space that [int] accepts, a
    line end among it: [MOVE,Bob,1,2] followed by a line feed sets the
    entry to (1, 2). *)
Theorem join_strips_name_move_keeps_it (fails : conn -> bool) (c : conn)
  (n : PyStr.str) (s : Server) :
  no_comma n -> fails c = false ->
  PyDict.get c (players (state (handle_data fails c (join_line n) s)))
  = Some (Info.mk (PyStr.strip n) 0 0)
  /\ PyDict.get c
       (players (state (handle_data fails c
          (move_line n (PyStr.text "1") (PyStr.text "2" ++ [PyStr.newline]))
          s)))
     = Some (Info.mk n 1 2)
  /\ PyDict.get c
       (players (state (handle_data fails c
          (PyStr.text "MOVE,Bob,1,2" ++ [PyStr.newline]) s)))
     = Some (Info.mk (PyStr.text "Bob") 1 2)
  /\ (forall xs w,
        PyStr.is_c_space (PyStr.to_ascii w) = true ->
        PyStr.int (xs ++ [w]) = PyStr.int xs
        /\ PyStr.int (w :: xs) = PyStr.int xs)
  /\ PyStr.is_c_space (PyStr.to_ascii PyStr.newline) = true.
Proof.
  intros Hn Hc.
  assert (H1 : no_comma (PyStr.text "1")) by no_comma_solve.
  assert (H2 : no_comma (PyStr.text "2" ++ [PyStr.newline]))
    by no_comma_solve.
  assert (Hb : no_comma (PyStr.text "Bob")) by no_comma_solve.
  assert (E1 : PyStr.int (PyStr.text "1") = Some 1%Z) by reflexivity.
  assert (E2 : PyStr.int (PyStr.text "2" ++ [PyStr.newline]) = Some 2%Z)
    by reflexivity.
  split; [|split; [|split; [|split]]].
  - rewrite (handle_data_join fails c s Hn). cbv zeta.
    unfold state. cbn [fst snd]. now apply entry_after_notice.
  - rewrite (handle_data_move fails c s Hn H1 H2 E1 E2). cbv zeta.
    unfold state. cbn [fst snd]. now apply entry_after_notice.
  - change (PyStr.text "MOVE,Bob,1,2" ++ [PyStr.newline])
      with (move_line (PyStr.text "Bob") (PyStr.text "1")
              (PyStr.text "2" ++ [PyStr.newline])).
    rewrite (handle_data_move fails c s Hb H1 H2 E1 E2). cbv zeta.
    unfold state. cbn [fst snd]. now apply entry_after_notice.
  - intros xs w Hw. split.
    + now apply IntFacts.int_trailing_space.
    + now apply IntFacts.int_leading_space.
  - reflexivity.
Qed.

(** ** The steps of a handler *)

Lemma bind_run (A B : Type) (m : M A) (k : A -> M B) (s s1 s2 : Server)
  (a : A) (r : outcome B) (t1 t2 : list event) :
  m s = (Return a, s1, t1) -> k a s1 = (r, s2, t2) ->
  bind m k s = (r, s2, t1 ++ t2).
Proof. intros Hm Hk. unfold bind. now rewrite Hm, Hk. Qed.

(** A step never raises; it leaves the registry and the handler as
    [step_server] and [step_pc] say. *)
Lemma thread_step_run (c : conn) (i : input) (p : pc) (s : Server) :
  thread_step c i p s
  = (Return (step_pc c i p s), step_server c i p s, step_events c i p s).
Proof.
  destruct p as [|name|name|name x y| |all_data| |player|info|];
    cbn [thread_step step_pc step_server step_events].
  - destruct (recv i) as [data|e]; [|reflexivity].
    destruct (is_empty data); [reflexivity|].
    destruct (command_of data) as [[name|name x y]|]; reflexivity.
  - reflexivity.
  - unfold try_except.
    erewrite bind_run; [|apply broadcast_run|reflexivity].
    now rewrite app_nil_r.
  - reflexivity.
  - reflexivity.
  - unfold try_except.
    erewrite bind_run; [|apply broadcast_run|reflexivity].
    now rewrite app_nil_r.
  - erewrite bind_run; [|apply locked_unregister_run|reflexivity].
    reflexivity.
  - destruct player; reflexivity.
  - erewrite bind_run; [|apply broadcast_run|reflexivity].
    now rewrite app_nil_r.
  - reflexivity.
Qed.

Lemma thread_steps_S (c : conn) (i : input) (n : nat) (p : pc) (s s2 : Server)
  (r : outcome pc) (t2 : list event) :
  thread_steps c i n (step_pc c i p s) (step_server c i p s) = (r, s2, t2) ->
  thread_steps c i (S n) p s = (r, s2, step_events c i p s ++ t2).
Proof.
  intros H. cbn [thread_steps].
  eapply bind_run; [apply thread_step_run|exact H].
Qed.

Lemma sys_step_thread (c : conn) (i : input) (g : System) (p : pc) :
  PyDict.get c (threads g) = Some p ->
  sys_step (Step c i) g
  = Some (mkSystem (step_server c i p (server g))
                   (PyDict.set c (step_pc c i p (server g)) (threads g))).
Proof.
  intros Hp. cbn [sys_step]. rewrite Hp, thread_step_run. reflexivity.
Qed.

(** One chunk, step by step with no other thread in between, is the loop
    body: the same registry, the same events, and the handler back at
    [recv]. *)
Lemma handle_data_in_steps (c : conn) (i : input) (data : PyStr.str)
  (s : Server) :
  recv i = Received data -> data <> [] ->
  exists n,
    thread_steps c i n AtRecv s
    = (Return AtRecv,
       state (handle_data (sendall_fails i) c data s),
       trace (handle_data (sendall_fails i) c data s)).
Proof.
  intros Hr Hne. rewrite handle_data_run.
  assert (He : is_empty data = false) by (destruct data; [tauto|reflexivity]).
  destruct (command_of data) as [[name|name x y]|] eqn:Ec.
  - exists 3.
    erewrite thread_steps_S;
      [|cbn [step_pc step_server]; rewrite Hr, He, Ec;
        erewrite thread_steps_S;
        [|cbn [step_pc step_server];
          erewrite thread_steps_S; [|reflexivity]; reflexivity];
        reflexivity].
    cbn [step_events step_server]. rewrite Hr, app_nil_r. reflexivity.
  - exists 4.
    erewrite thread_steps_S;
      [|cbn [step_pc step_server]; rewrite Hr, He, Ec;
        erewrite thread_steps_S;
        [|cbn [step_pc step_server];
          erewrite thread_steps_S;
          [|cbn [step_pc step_server];
            erewrite thread_steps_S; [|reflexivity]; reflexivity];
          reflexivity];
        reflexivity].
    cbn [step_events step_server]. rewrite Hr, app_nil_r. reflexivity.
  - exists 1.
    erewrite thread_steps_S;
      [|cbn [step_pc step_server]; rewrite Hr, He, Ec; reflexivity].
    cbn [step_events]. rewrite Hr. reflexivity.
Qed.

(** The [finally] block is the steps from [AtFinally] on. *)
Lemma finally_block_in_steps (c : conn) (i : input) (s : Server) :
  thread_steps c i 3 AtFinally s
  = (Return Finished,
     state (finally_block (sendall_fails i) c s),
     trace (finally_block (sendall_fails i) c s)).
Proof.
  rewrite finally_block_run.
  erewrite thread_steps_S;
    [|erewrite thread_steps_S;
      [|erewrite thread_steps_S; [|reflexivity]; reflexivity];
      reflexivity].
  cbn [step_pc step_server step_events].
  destruct (PyDict.get c (players s)) as [info|];
    cbn [step_pc step_server step_events]; rewrite ?app_nil_r; reflexivity.
Qed.

(** ** The registry invariant *)

Lemma registered_after_broadcast (fails : conn -> bool)
  (exclude_socket : option conn) (s : Server) :
  players_registered s ->
  players_registered (after_broadcast fails exclude_socket s).
Proof.
  intros H c Hc. apply clients_after_broadcast.
  assert (Hk : In c (PyDict.keys (players s)))
    by (eapply keys_after_broadcast; exact Hc).
  pose proof (H c Hk) as Hin. split; [exact Hin|].
  apply PyDictFacts.get_keys in Hc.
  rewrite players_after_broadcast in Hc.
  apply contains_In in Hin. rewrite Hin, andb_true_r in Hc.
  destruct (refused fails exclude_socket c); [tauto|reflexivity].
Qed.

Lemma registered_with_player (c : conn) (info : Info.t) (s : Server) :
  In c (clients s) -> players_registered s ->
  players_registered (with_player c info s).
Proof.
  intros Hc H k Hk. cbn [with_player players clients] in *.
  apply PyDictFacts.keys_set in Hk. destruct Hk as [-> | Hk]; auto.
Qed.

Lemma registered_unregister (c : conn) (s : Server) :
  players_registered s -> players_registered (unregister c s).
Proof.
  intros H k Hk. cbn [unregister players clients] in *.
  apply PyDictFacts.keys_del in Hk. destruct Hk as [Hne Hk].
  apply without_other; auto.
Qed.

Lemma registered_accept (c : conn) (s : Server) :
  players_registered s -> players_registered (state (accept c s)).
Proof.
  intros H k Hk. cbn [accept with_lock clients_append state fst snd
                      clients players] in *.
  apply in_or_app. left. auto.
Qed.

Lemma registered_step (c : conn) (i : input) (p : pc) (s : Server) :
  (updates p = true -> In c (clients s)) ->
  players_registered s -> players_registered (step_server c i p s).
Proof.
  intros Hu H.
  destruct p; cbn [step_server]; try exact H;
    try (apply registered_after_broadcast; exact H).
  - apply registered_with_player; [apply Hu; reflexivity|exact H].
  - apply registered_with_player; [apply Hu; reflexivity|exact H].
  - apply registered_unregister; exact H.
Qed.

Lemma registered_run (ls : list label) :
  forall g g',
    players_registered (server g) ->
    all_timely ls g = true -> run ls g = Some g' ->
    players_registered (server g').
Proof.
  induction ls as [|l ls IH]; intros g g' Hreg Ht Hrun.
  - cbn [run] in Hrun. inversion Hrun; subst. exact Hreg.
  - cbn [run all_timely] in *. apply andb_true_iff in Ht.
    destruct Ht as [Hl Ht].
    destruct (sys_step l g) as [g1|] eqn:Es; [|discriminate].
    apply (IH g1 g'); [|exact Ht|exact Hrun].
    destruct l as [c|c i].
    + cbn [sys_step] in Es.
      destruct (PyDict.contains c (threads g)); [discriminate|].
      inversion Es; subst. cbn [server]. now apply registered_accept.
    + destruct (PyDict.get c (threads g)) as [p|] eqn:Ep.
      * rewrite (sys_step_thread c i g Ep) in Es.
        inversion Es; subst. cbn [server].
        apply registered_step; [|exact Hreg].
        intros Hu. cbn [timely] in Hl. rewrite Ep, Hu in Hl.
        cbn [negb orb] in Hl. now apply contains_In.
      * cbn [sys_step] in Es. rewrite Ep in Es. discriminate.
Qed.

(** C6, as the code has it.  Accepting a connection, a broadcast with
    its removals, and the [finally] block keep every key of
    [self.players] in [self.clients]; the assignment of a [JOIN] or
    [MOVE] for [c] does when [c] is in [self.clients], which the handler
    does not look at; so the keys of [self.players] are in
    [self.clients] in every state reached by runs in which each such
    assignment is made for a connection still listed. *)
Theorem players_registered_by_timely_updates :
  (forall c s,
     players_registered s -> players_registered (state (accept c s)))
  /\ (forall c info s,
        In c (clients s) -> players_registered s ->
        players_registered (state (with_lock (players_set c info) s)))
  /\ (forall fails message exclude_socket s,
        players_registered s ->
        players_registered (state (broadcast fails message exclude_socket s)))
  /\ (forall fails c s,
        players_registered s ->
        players_registered (state (finally_block fails c s)))
  /\ (forall fails c data s,
        In c (clients s) -> players_registered s ->
        players_registered (state (handle_data fails c data s)))
  /\ (forall ls g,
        run ls initial = Some g -> all_timely ls initial = true ->
        players_registered (server g)).
Proof.
  split; [|split; [|split; [|split; [|split]]]].
  - intros c s. apply registered_accept.
  - intros c info s. apply registered_with_player.
  - intros fails message exclude_socket s H. rewrite broadcast_run.
    unfold state. cbn [fst snd]. now apply registered_after_broadcast.
  - intros fails c s H. rewrite finally_block_run.
    destruct (PyDict.get c (players s)); unfold state; cbn [fst snd].
    + now apply registered_after_broadcast, registered_unregister.
    + now apply registered_unregister.
  - intros fails c data s Hc H.
    destruct (handle_data_state fails c data s) as [-> | [info ->]];
      [exact H|].
    now apply registered_after_broadcast, registered_with_player.
  - intros ls g Hrun Ht.
    apply (@registered_run ls initial g); [|exact Ht|exact Hrun].
    intros c Hc. cbn in Hc. tauto.
Qed.

(** C6, as the claim has it, fails: [late_update_run] reaches a state in
    which connection 1 has a player entry and is not in
    [self.clients]. *)
Lemma late_update_leaves_unregistered_player :
  exists g,
    run late_update_run initial = Some g
    /\ clients (server g) = [2]
    /\ PyDict.keys (players (server g)) = [2; 1]
    /\ ~ players_registered (server g).
Proof.
  eexists. split; [reflexivity|]. split; [reflexivity|].
  split; [reflexivity|].
  intros H. specialize (H 1). cbn in H.
  assert (Hin : 2 = 1 \/ 1 = 1 \/ False) by tauto.
  apply H in Hin. destruct Hin as [E | []]. discriminate.
Qed.

(** ** Leaving *)

(** A script read to its end, then more of it. *)
Lemma read_loop_app (c : conn) (pre : list input) :
  forall (more : list input) (s s1 : Server) (t1 : list event),
    read_loop c pre s = (Return Blocked, s1, t1) ->
    read_loop c (pre ++ more) s
    = match read_loop c more s1 with (r, s2, t2) => (r, s2, t1 ++ t2) end.
Proof.
  induction pre as [|i pre IH]; intros more s s1 t1 H.
  - cbn [read_loop ret] in H. inversion H; subst. cbn [app].
    destruct (read_loop c more s1) as [[r2 s2] t2]. reflexivity.
  - cbn [app read_loop] in *.
    destruct (recv i) as [data|e]; [|discriminate].
    destruct (is_empty data); [discriminate|].
    unfold bind at 1 in H. unfold bind at 1.
    destruct (handle_data (sendall_fails i) c data s)
      as [[[[]|e0] s0] t0]; [|discriminate].
    destruct (read_loop c pre s0) as [[r2 s2] t2] eqn:E2.
    inversion H; subst.
    rewrite (IH more s0 s1 t2 E2).
    destruct (read_loop c more s1) as [[r3 s3] t3].
    now rewrite app_assoc.
Qed.

Lemma gone_step (c : conn) (l : label) (g g' : System) :
  gone c g -> sys_step l g = Some g' -> gone c g'.
Proof.
  intros [[p [Hp Ht]] Hn] Hs. destruct l as [c'|c' i].
  - cbn [sys_step] in Hs.
    destruct (PyDict.contains c' (threads g)) eqn:Ec; [discriminate|].
    inversion Hs; subst. clear Hs.
    assert (Hne : c <> c').
    { intros ->. unfold PyDict.contains in Ec. rewrite Hp in Ec.
      discriminate. }
    split; cbn [threads server].
    + exists p. rewrite PyDictFacts.get_set_other by exact Hne. auto.
    + exact Hn.
  - destruct (PyDict.get c' (threads g)) as [p'|] eqn:Ep';
      [|cbn [sys_step] in Hs; rewrite Ep' in Hs; discriminate].
    rewrite (sys_step_thread c' i g Ep') in Hs.
    inversion Hs; subst. clear Hs. cbn [threads server].
    destruct (Nat.eq_dec c c') as [<-|Hne].
    + assert (p' = p) by congruence. subst p'.
      split; cbn [threads server].
      * exists (step_pc c i p (server g)).
        rewrite PyDictFacts.get_set_same. split; [reflexivity|].
        destruct p as [| | | | | | |[info|]| |]; try discriminate;
          reflexivity.
      * destruct p; try discriminate; cbn [step_server]; try exact Hn.
        rewrite players_after_broadcast.
        destruct (refused _ _ _ && _); [reflexivity|exact Hn].
    + split; cbn [threads server].
      * exists p. rewrite PyDictFacts.get_set_other by exact Hne. auto.
      * destruct p'; cbn [step_server]; try exact Hn;
          try (rewrite players_after_broadcast;
               destruct (refused _ _ _ && _); [reflexivity|exact Hn]).
        -- cbn [with_player players].
           now rewrite PyDictFacts.get_set_other by exact Hne.
        -- cbn [with_player players].
           now rewrite PyDictFacts.get_set_other by exact Hne.
        -- cbn [unregister players].
           now rewrite PyDictFacts.get_del_other by exact Hne.
Qed.

Lemma gone_run (c : conn) (ls : list label) :
  forall g g', gone c g -> run ls g = Some g' -> gone c g'.
Proof.
  induction ls as [|l ls IH]; intros g g' Hg Hrun; cbn [run] in Hrun.
  - now inversion Hrun; subst.
  - destruct (sys_step l g) as [g1|] eqn:Es; [|discriminate].
    apply (IH g1 g'); [|exact Hrun]. eapply gone_step; eassumption.
Qed.

(** C4, as amended. However the loop of the handler of [c] is left (a
    read of no bytes, a fault of the transport, any exception raised in
    the loop), the handler takes [c] out of [self.clients] if it is
    there, pops its entry, closes it, and broadcasts [LEFT,<name>] to the
    connections left exactly when there was an entry.  From the locked
    part of the [finally] block on, [c] has no entry in any state the
    server reaches: a handler that takes its snapshot of the table in
    such a state holds the payload made from a table without an entry of
    [c], and the [UPDATE] it then writes carries the payload it holds.
    A payload another handler took before the entry was popped is not
    covered: it can be broadcast after the [LEFT] notice. *)
Theorem loop_end_unregisters_and_announces (loop : M loop_exit)
  (fails : conn -> bool) (c : conn) (s s1 : Server) (t1 : list event) :
  (loop s = (Return Break, s1, t1) \/ exists e, loop s = (Raise e, s1, t1)) ->
  let r := session loop fails c s in
  let rest := unregister c s1 in
  (exists t2,
     result r = Return Break
     /\ trace r = t1 ++ t2
     /\ In c (closed t2)
     /\ attempts t2
        = match PyDict.get c (players s1) with
          | Some info =>
              List.map (fun cl => (cl, PyStr.text "LEFT," ++ Info.name info))
                (clients rest)
          | None => []
          end
     /\ state r
        = match PyDict.get c (players s1) with
          | Some info =>
              state (broadcast fails (PyStr.text "LEFT," ++ Info.name info)
                       None rest)
          | None => rest
          end)
  /\ (~ In c (clients s1) -> clients rest = clients s1)
  /\ (NoDup (clients s1) -> ~ In c (clients rest))
  /\ (forall cl, cl <> c -> (In cl (clients rest) <-> In cl (clients s1)))
  /\ PyDict.get c (players (state r)) = None
  /\ (forall pre term post s0 t0,
        read_loop c pre s = (Return Blocked, s0, t0) ->
        (recv term = Received [] ->
         read_loop c (pre ++ term :: post) s = (Return Break, s0, t0))
        /\ (forall e, recv term = RecvRaised e ->
            read_loop c (pre ++ term :: post) s = (Raise e, s0, t0)))
  /\ (forall g i,
        PyDict.get c (threads g) = Some AtFinally ->
        exists g', sys_step (Step c i) g = Some g' /\ gone c g')
  /\ (forall g ls g',
        gone c g -> run ls g = Some g' ->
        gone c g'
        /\ forall c' i g1,
             PyDict.get c' (threads g') = Some AtMoveSnapshot ->
             sys_step (Step c' i) g' = Some g1 ->
             PyDict.get c (players (server g')) = None
             /\ server g1 = server g'
             /\ PyDict.get c' (threads g1)
                = Some (AtMoveBroadcast (serialize (players (server g')))))
  /\ (forall g c' i all_data,
        PyDict.get c' (threads g) = Some (AtMoveBroadcast all_data) ->
        attempts (step_trace (Step c' i) g)
        = List.map (fun cl => (cl, PyStr.text "UPDATE;" ++ all_data))
            (clients (server g))).
Proof.
  intros Hloop r rest.
  assert (Hs : exists t0,
    try_except loop (fun e => print_error e ;; ret Break) s
    = (Return Break, s1, t1 ++ t0)
    /\ attempts t0 = []).
  { unfold try_except. destruct Hloop as [-> | [e ->]].
    - exists []. now rewrite app_nil_r.
    - exists [Print e]. split; reflexivity. }
  destruct Hs as [t0 [Hs Ht0]].
  assert (Hr : r = match PyDict.get c (players s1) with
    | Some info =>
        (Return Break, after_broadcast fails None rest,
         (t1 ++ t0)
         ++ ([LockAcquire; LockRelease; Close c]
             ++ broadcast_events fails (PyStr.text "LEFT," ++ Info.name info)
                  None rest) ++ [])
    | None =>
        (Return Break, rest,
         (t1 ++ t0) ++ [LockAcquire; LockRelease; Close c] ++ [])
    end).
  { pose proof (finally_block_run fails c s1) as Hf. fold rest in Hf.
    unfold r, session.
    destruct (PyDict.get c (players s1)) as [info|].
    - erewrite bind_run; [reflexivity|exact Hs|].
      cbv beta iota. erewrite bind_run; [reflexivity|exact Hf|reflexivity].
    - erewrite bind_run; [reflexivity|exact Hs|].
      cbv beta iota. erewrite bind_run; [reflexivity|exact Hf|reflexivity]. }
  split; [|split; [|split; [|split; [|split; [|split; [|split; [|split]]]]]]].
  - rewrite Hr.
    destruct (PyDict.get c (players s1)) as [info|];
      unfold result, trace, state; cbn [fst snd].
    + eexists. split; [reflexivity|]. split.
      { rewrite <- app_assoc. reflexivity. }
      rewrite !closed_app, !attempts_app, attempts_broadcast.
      rewrite broadcast_run. cbn [fst snd differs].
      rewrite filter_all. split.
      { apply in_or_app. right. cbn. auto. }
      split; [|reflexivity].
      rewrite Ht0. cbn. now rewrite app_nil_r.
    + eexists. split; [reflexivity|]. split.
      { rewrite <- app_assoc. reflexivity. }
      rewrite !closed_app, !attempts_app. split.
      { apply in_or_app. right. cbn. auto. }
      split; [|reflexivity].
      rewrite Ht0. reflexivity.
  - intros Hn. unfold rest. cbn [unregister clients].
    now apply without_absent.
  - intros Hnd. unfold rest. cbn [unregister clients].
    now apply without_NoDup.
  - intros cl Hne. unfold rest. cbn [unregister clients]. split.
    + apply without_incl.
    + now apply without_other.
  - rewrite Hr. unfold rest.
    destruct (PyDict.get c (players s1)) as [info|];
      unfold state; cbn [fst snd].
    + rewrite players_after_broadcast.
      destruct (refused _ _ _ && _); [reflexivity|].
      cbn [unregister players]. apply PyDictFacts.get_del_same.
    + cbn [unregister players]. apply PyDictFacts.get_del_same.
  - intros pre term post s0 t0' Hpre. split.
    + intros E. rewrite (@read_loop_app c pre (term :: post) s s0 t0' Hpre).
      cbn [read_loop]. rewrite E. cbn [is_empty ret]. now rewrite app_nil_r.
    + intros e E. rewrite (@read_loop_app c pre (term :: post) s s0 t0' Hpre).
      cbn [read_loop]. rewrite E. cbn [raise]. now rewrite app_nil_r.
  - intros g i Hp. eexists. split; [apply (sys_step_thread c i g Hp)|].
    split; cbn [threads server step_pc step_server].
    + eexists. rewrite PyDictFacts.get_set_same. split; reflexivity.
    + cbn [unregister players]. apply PyDictFacts.get_del_same.
  - intros g ls g' Hg Hrun.
    assert (Hg' : gone c g') by (eapply gone_run; eassumption).
    split; [exact Hg'|]. intros c' i g1 Hp Hstep.
    rewrite (sys_step_thread c' i g' Hp) in Hstep.
    inversion Hstep; subst g1. cbn [server threads step_server step_pc].
    split; [apply Hg'|]. split; [reflexivity|].
    apply PyDictFacts.get_set_same.
  - intros g c' i all_data Hp. cbn [step_trace]. rewrite Hp.
    rewrite thread_step_run. unfold trace. cbn [snd step_events].
    rewrite attempts_broadcast. cbn [differs]. now rewrite filter_all.
Qed.

(** C4, the counterexample to the claim as it stands: after the handler
    of 2, joined as B, has popped its entry, closed its socket and
    broadcast [LEFT,B], the handler of 1 broadcasts the snapshot it took
    before, and the [UPDATE] written after the [LEFT] notice carries the
    entry of B. *)
Lemma stale_snapshot_is_broadcast_after_left :
  exists g g',
    run stale_snapshot_run initial = Some g
    /\ attempts (run_trace stale_snapshot_run initial)
       = [(1, PyStr.text "JOINED,B"); (2, PyStr.text "JOINED,B");
          (1, PyStr.text "LEFT,B")]
    /\ gone 2 g
    /\ PyDict.get 2 (threads g) = Some Finished
    /\ clients (server g) = [1]
    /\ players (server g) = [(1, Info.mk (PyStr.text "A") 1 2)]
    /\ sys_step stale_update_step g = Some g'
    /\ attempts (step_trace stale_update_step g)
       = [(1, PyStr.text "UPDATE;B,0,0;A,1,2")].
Proof.
  eexists. eexists.
  split; [vm_compute; reflexivity|].
  split; [vm_compute; reflexivity|].
  split.
  { split; [exists Finished; split; reflexivity|reflexivity]. }
  split; [reflexivity|]. split; [reflexivity|]. split; [reflexivity|].
  split; [vm_compute; reflexivity|].
  vm_compute; reflexivity.
Qed.

(** ** The theorems at work *)

(** C1 on [MOVE,Bob,10,20] from connection 1: both connections are sent
    the table with the new entry last. *)
Lemma move_sets_entry_and_broadcasts_update_witness :
  (no_comma (PyStr.text "Bob") /\ no_comma (PyStr.text "10")
   /\ no_comma (PyStr.text "20")
   /\ PyStr.int (PyStr.text "10") = Some 10%Z
   /\ PyStr.int (PyStr.text "20") = Some 20%Z)
  /\ attempts
       (trace (handle_data all_delivered 1 (PyStr.text "MOVE,Bob,10,20")
                 two_clients))
     = [(1, PyStr.text "UPDATE;Al,0,0;Bob,10,20");
        (2, PyStr.text "UPDATE;Al,0,0;Bob,10,20")].
Proof.
  assert (Hn : no_comma (PyStr.text "Bob")) by no_comma_solve.
  assert (Hx : no_comma (PyStr.text "10")) by no_comma_solve.
  assert (Hy : no_comma (PyStr.text "20")) by no_comma_solve.
  assert (Ex : PyStr.int (PyStr.text "10") = Some 10%Z) by reflexivity.
  assert (Ey : PyStr.int (PyStr.text "20") = Some 20%Z) by reflexivity.
  split; [tauto|].
  exact (proj1 (proj2 (proj2 (proj2
    (@move_sets_entry_and_broadcasts_update all_delivered 1
       (PyStr.text "Bob") (PyStr.text "10") (PyStr.text "20") 10 20
       two_clients Hn Hx Hy Ex Ey))))).
Defined.

(** C2 on [JOIN, Bob ] from connection 1. *)
Lemma join_sets_entry_and_broadcasts_joined_witness :
  no_comma (PyStr.text " Bob ")
  /\ attempts
       (trace (handle_data all_delivered 1 (PyStr.text "JOIN, Bob ")
                 two_clients))
     = [(1, PyStr.text "JOINED,Bob"); (2, PyStr.text "JOINED,Bob")].
Proof.
  assert (Hn : no_comma (PyStr.text " Bob ")) by no_comma_solve.
  split; [exact Hn|].
  exact (proj1 (proj2 (proj2
    (@join_sets_entry_and_broadcasts_joined all_delivered 1
       (PyStr.text " Bob ") two_clients Hn)))).
Defined.

(** C4 on the handler of connection 2, joined as Al, reading no bytes:
    connection 1 is sent [LEFT,Al], and 2 is left without an entry. *)
Lemma loop_end_unregisters_and_announces_witness :
  read_loop 2 [mkInput (Received []) all_delivered] two_clients
  = (Return Break, two_clients, [])
  /\ attempts
       (trace (handle_client 2 [mkInput (Received []) all_delivered]
                 all_delivered two_clients))
     = [(1, PyStr.text "LEFT,Al")]
  /\ PyDict.get 2
       (players (state (handle_client 2 [mkInput (Received []) all_delivered]
                          all_delivered two_clients)))
     = None.
Proof.
  assert (H : read_loop 2 [mkInput (Received []) all_delivered] two_clients
              = (Return Break, two_clients, [])) by reflexivity.
  split; [exact H|].
  pose proof (@loop_end_unregisters_and_announces
                (read_loop 2 [mkInput (Received []) all_delivered])
                all_delivered 2 two_clients two_clients [] (or_introl H))
    as [[t2 [_ [Ht [_ [Ha _]]]]] [_ [_ [_ [Hget _]]]]].
  split; [|exact Hget].
  unfold handle_client. rewrite Ht. exact Ha.
Defined.

(** C5 on [MOVE,Bob,1,abc]: the first coordinate reads as an integer,
    the second does not. *)
Lemma malformed_line_is_ignored_witness :
  (PyStr.text "MOVE,Bob,1,abc" <> [] /\ ~ well_formed (PyStr.text "MOVE,Bob,1,abc"))
  /\ handle_data all_delivered 1 (PyStr.text "MOVE,Bob,1,abc") two_clients
     = (Return tt, two_clients, []).
Proof.
  assert (Hne : PyStr.text "MOVE,Bob,1,abc" <> []) by discriminate.
  assert (Hwf : ~ well_formed (PyStr.text "MOVE,Bob,1,abc")).
  { intros H. apply well_formed_command in H. apply H. reflexivity. }
  split; [tauto|].
  exact (proj1 (@malformed_line_is_ignored all_delivered 1
                  (PyStr.text "MOVE,Bob,1,abc") two_clients Hne Hwf)).
Defined.

(** C8 on connection 1. *)
Lemma move_overwrites_and_repeats_witness :
  PyDict.wf (players two_clients)
  /\ PyDict.get 1
       (players
          (state (handle_data all_delivered 1 (PyStr.text "MOVE,Bob,15,-5")
                    (state (handle_data all_delivered 1
                              (PyStr.text "MOVE,Bob,10,20") two_clients)))))
     = Some (Info.mk (PyStr.text "Bob") 15 (-5)).
Proof.
  assert (Hwf : PyDict.wf (players two_clients)).
  { unfold PyDict.wf. simpl. constructor; [simpl; tauto|constructor]. }
  split; [exact Hwf|].
  exact (proj2 (proj2
    (proj1 (@move_overwrites_and_repeats 1 two_clients Hwf)
       all_delivered all_delivered)) eq_refl).
Defined.

(** C10 on the name [ Bob ], blanks around it. *)
Lemma join_strips_name_move_keeps_it_witness :
  (no_comma (PyStr.text " Bob ") /\ all_delivered 1 = false)
  /\ PyDict.get 1
       (players (state (handle_data all_delivered 1
                          (PyStr.text "JOIN, Bob ") two_clients)))
     = Some (Info.mk (PyStr.text "Bob") 0 0)
  /\ PyDict.get 1
       (players (state (handle_data all_delivered 1
                          (PyStr.text "MOVE, Bob ,1,2" ++ [PyStr.newline])
                          two_clients)))
     = Some (Info.mk (PyStr.text " Bob ") 1 2).
Proof.
  assert (Hn : no_comma (PyStr.text " Bob ")) by no_comma_solve.
  split; [split; [exact Hn|reflexivity]|].
  pose proof (@join_strips_name_move_keeps_it all_delivered 1
                (PyStr.text " Bob ") two_clients Hn eq_refl) as H.
  split; [exact (proj1 H)|exact (proj1 (proj2 H))].
Defined.

(** ** Integers written and read back *)

Module IntRoundTrip.
Import PyStr.

Lemma digit_facts (ch : char) :
  is_digit ch = true ->
  to_ascii ch = ch /\ is_c_space ch = false /\ isspace ch = false
  /\ (ch =? 43)%N = false /\ (ch =? 45)%N = false /\ (ch =? 95)%N = false
  /\ ch <> comma /\ ch <> semicolon /\ ch <> newline.
Proof.
  unfold is_digit, in_range. rewrite andb_true_iff, !N.leb_le. intros [Hlo Hhi].
  assert (Hs : isspace ch = false).
  { unfold isspace, in_range.
    repeat (apply orb_false_iff; split);
      try (apply andb_false_iff; rewrite !N.leb_gt; lia);
      apply N.eqb_neq; lia. }
  repeat split; try (apply N.eqb_neq; lia);
    try (unfold comma, semicolon, newline; lia); try exact Hs.
  - unfold to_ascii. destruct (N.ltb_spec ch 127); [reflexivity|lia].
  - unfold is_c_space, in_range. apply orb_false_iff. split.
    + apply andb_false_iff. rewrite !N.leb_gt. lia.
    + apply N.eqb_neq. lia.
Qed.

Lemma digits_are_digits (d : Decimal.uint) :
  Forall (fun ch => is_digit ch = true) (digits d).
Proof.
  unfold digits. induction d; cbn; constructor; auto.
Qed.

Lemma scan_digits_digits (d : Decimal.uint) :
  forall acc, scan_digits acc false (digits d) = Some (uint_value d acc, []).
Proof.
  unfold digits. induction d; intros acc; cbn [NilEmpty.string_of_uint];
    try reflexivity;
    cbn [text list_ascii_of_string List.map scan_digits uint_value];
    change (List.map N_of_ascii (list_ascii_of_string
              (NilEmpty.string_of_uint d)))
      with (text (NilEmpty.string_of_uint d));
    apply IHd.
Qed.

Lemma uint_value_acc (d : Decimal.uint) :
  forall acc : positive,
    uint_value d (Z.pos acc) = Z.pos (Pos.of_uint_acc d acc).
Proof.
  induction d; intros acc; cbn [uint_value Pos.of_uint_acc];
    try reflexivity;
    match goal with
    | |- uint_value _ ?z = Z.pos (Pos.of_uint_acc _ ?p) =>
        replace z with (Z.pos p) by lia
    end; apply IHd.
Qed.

Lemma uint_value_of_uint (d : Decimal.uint) :
  uint_value d 0 = Z.of_N (Pos.of_uint d).
Proof.
  induction d; cbn [uint_value Pos.of_uint]; try reflexivity;
    try exact IHd;
    cbn [Z.mul Z.add Z.of_N]; apply uint_value_acc.
Qed.

Lemma parse_unsigned_digits (d : Decimal.uint) :
  d <> Decimal.Nil ->
  parse_unsigned (digits d) = Some (Z.of_N (Pos.of_uint d)).
Proof.
  intros Hd. pose proof (digits_are_digits d) as Hall.
  pose proof (scan_digits_digits d 0) as Hscan.
  destruct (digits d) as [|ch s] eqn:E.
  - destruct d; try tauto; discriminate.
  - inversion Hall as [|? ? Hch _]; subst.
    unfold parse_unsigned. rewrite Hch, Hscan. cbn [skip_space].
    now rewrite uint_value_of_uint.
Qed.

Lemma to_ascii_digits (s : str) :
  Forall (fun ch => is_digit ch = true) s -> List.map to_ascii s = s.
Proof.
  induction 1 as [|ch s Hch _ IH]; [reflexivity|].
  cbn [List.map]. rewrite IH.
  now destruct (digit_facts ch Hch) as [-> _].
Qed.

(** [int] reads a run of digits as the number they write. *)
Lemma int_digits (d : Decimal.uint) :
  d <> Decimal.Nil -> int (digits d) = Some (Z.of_N (Pos.of_uint d)).
Proof.
  intros Hd. unfold int.
  rewrite to_ascii_digits by apply digits_are_digits.
  pose proof (digits_are_digits d) as Hall.
  pose proof (parse_unsigned_digits Hd) as Hp.
  destruct (digits d) as [|ch s] eqn:E; [discriminate|].
  inversion Hall as [|? ? Hch _]; subst.
  destruct (digit_facts ch Hch) as [_ [Hs [_ [H43 [H45 _]]]]].
  cbn [skip_space]. rewrite Hs, H43, H45. exact Hp.
Qed.

Lemma int_minus_digits (d : Decimal.uint) :
  d <> Decimal.Nil ->
  int (45%N :: digits d) = Some (- Z.of_N (Pos.of_uint d))%Z.
Proof.
  intros Hd. unfold int. cbn [List.map].
  rewrite to_ascii_digits by apply digits_are_digits.
  change (to_ascii 45%N) with 45%N. cbn [skip_space].
  change (is_c_space 45%N) with false. cbn iota.
  change (45 =? 43)%N with false. change (45 =? 45)%N with true. cbn iota.
  now rewrite parse_unsigned_digits.
Qed.

Lemma of_int_pos (p : positive) : of_int (Z.pos p) = digits (Pos.to_uint p).
Proof.
  unfold of_int, digits. cbn [Z.to_int NilZero.string_of_int].
  unfold NilZero.string_of_uint.
  pose proof (DecimalPos.Unsigned.to_uint_nonnil p) as Hn.
  destruct (Pos.to_uint p); try reflexivity. tauto.
Qed.

Lemma of_int_neg (p : positive) :
  of_int (Z.neg p) = 45%N :: digits (Pos.to_uint p).
Proof.
  unfold of_int, digits. cbn [Z.to_int NilZero.string_of_int].
  unfold NilZero.string_of_uint.
  pose proof (DecimalPos.Unsigned.to_uint_nonnil p) as Hn.
  destruct (Pos.to_uint p); try reflexivity. tauto.
Qed.

(** What [str(n)] is made of. *)
Lemma of_int_numerals (z : Z) :
  of_int z <> [] /\ Forall (fun ch => is_numeral ch = true) (of_int z)
  /\ exists s ch, of_int z = s ++ [ch] /\ is_digit ch = true.
Proof.
  assert (Hd : forall d, Forall (fun ch => is_numeral ch = true) (digits d)).
  { intros d. eapply Forall_impl; [|apply digits_are_digits].
    intros ch H. unfold is_numeral. now rewrite H. }
  assert (Hl : forall d, d <> Decimal.Nil -> forall pre,
            exists s ch, pre ++ digits d = s ++ [ch] /\ is_digit ch = true).
  { intros d Hn pre. pose proof (digits_are_digits d) as Hall.
    destruct (digits d) as [|c0 s0] eqn:E.
    - destruct d; try tauto; discriminate.
    - destruct (@exists_last _ (c0 :: s0)) as [s [ch Es]]; [discriminate|].
      exists (pre ++ s), ch. rewrite Es, app_assoc. split; [reflexivity|].
      rewrite Es in Hall. apply Forall_app in Hall.
      destruct Hall as [_ Hall]. now inversion Hall. }
  destruct z as [|p|p].
  - split; [discriminate|]. split.
    + repeat constructor.
    + exists [], 48%N. split; reflexivity.
  - rewrite of_int_pos.
    pose proof (DecimalPos.Unsigned.to_uint_nonnil p) as Hn.
    split; [|split; [apply Hd|exact (Hl _ Hn [])]].
    intros E. destruct (Hl _ Hn []) as [s [ch [Es _]]].
    cbn [app] in Es. rewrite E in Es. now destruct s.
  - rewrite of_int_neg.
    pose proof (DecimalPos.Unsigned.to_uint_nonnil p) as Hn.
    split; [discriminate|]. split; [constructor; [reflexivity|apply Hd]|].
    exact (Hl _ Hn [45%N]).
Qed.

End IntRoundTrip.

(** In the model, where no conversion is refused for its length, [int]
    reads every [str(z)] back as [z]. *)
Lemma int_of_formatted (z : Z) : PyStr.int (PyStr.of_int z) = Some z.
Proof.
  destruct z as [|p|p].
  - reflexivity.
  - rewrite IntRoundTrip.of_int_pos, IntRoundTrip.int_digits
      by apply DecimalPos.Unsigned.to_uint_nonnil.
    rewrite DecimalPos.Unsigned.of_to. reflexivity.
  - rewrite IntRoundTrip.of_int_neg, IntRoundTrip.int_minus_digits
      by apply DecimalPos.Unsigned.to_uint_nonnil.
    rewrite DecimalPos.Unsigned.of_to. reflexivity.
Qed.

(** X1. An integer of at most 4300 digits, the length up to which [str]
    and [int] convert, written the way the [UPDATE] payload writes a
    coordinate is read back by [int], the way a [MOVE] is read, as the
    same integer. *)
Theorem int_reads_back_formatted_int (z : Z) :
  convertible z -> PyStr.int (PyStr.of_int z) = Some z.
Proof. intros _. apply int_of_formatted. Qed.

(** X1 on -20. *)
Lemma int_reads_back_formatted_int_witness :
  convertible (-20) /\ PyStr.int (PyStr.of_int (-20)) = Some (-20)%Z.
Proof.
  assert (H : convertible (-20)) by (vm_compute; reflexivity).
  split; [exact H|]. exact (@int_reads_back_formatted_int (-20) H).
Defined.

(** ** A whole session *)

(** A chunk handled while no listed peer refuses a write: the listing is
    as before, and so is every entry but the sender's. *)
Lemma handle_data_calm (fails : conn -> bool) (c : conn) (data : PyStr.str)
  (s : Server) :
  (forall cl, In cl (clients s) -> fails cl = false) ->
  exists s' t,
    handle_data fails c data s = (Return tt, s', t)
    /\ clients s' = clients s
    /\ PyDict.del c (players s') = PyDict.del c (players s).
Proof.
  intros Hq. rewrite handle_data_run.
  assert (Hb : forall info,
    after_broadcast fails None (with_player c info s) = with_player c info s).
  { intros info. apply after_broadcast_quiet. intros cl Hcl.
    rewrite refused_none. now apply Hq. }
  destruct (command_of data) as [[name|name x y]|]; cbv zeta.
  - rewrite Hb. eexists. eexists. split; [reflexivity|].
    cbn [with_player clients players]. split; [reflexivity|apply del_set].
  - rewrite Hb. eexists. eexists. split; [reflexivity|].
    cbn [with_player clients players]. split; [reflexivity|apply del_set].
  - eexists. eexists. split; [reflexivity|]. split; reflexivity.
Qed.

Lemma read_loop_calm (c : conn) (s : Server) (script : list input) :
  Forall (calm_chunk s) script ->
  forall s0,
    clients s0 = clients s ->
    exists s1 t1,
      read_loop c script s0 = (Return Blocked, s1, t1)
      /\ clients s1 = clients s
      /\ PyDict.del c (players s1) = PyDict.del c (players s0).
Proof.
  induction 1 as [|i script [[data [Hr Hne]] Hq] _ IH]; intros s0 Hs0.
  - exists s0, []. repeat split. exact Hs0.
  - cbn [read_loop]. rewrite Hr.
    assert (He : is_empty data = false)
      by (destruct data; [tauto|reflexivity]).
    rewrite He.
    destruct (@handle_data_calm (sendall_fails i) c data s0)
      as [s' [t [Hd [Hc Hp]]]].
    { intros cl Hcl. apply Hq. now rewrite <- Hs0. }
    destruct (IH s') as [s1 [t1 [Hl [Hc1 Hp1]]]]; [congruence|].
    exists s1, (t ++ t1). split; [|split; [exact Hc1|congruence]].
    eapply bind_run; [exact Hd|exact Hl].
Qed.

(** X2. A handler that reads any chunks and then the end of its stream,
    or a fault, while every write to a listed peer succeeds, leaves the
    registry as it found it less its own connection: the first listing of
    the connection and its entry are gone, every other connection is
    listed and has the entry it had, and nothing after the last read is
    looked at. *)
Theorem session_leaves_registry_less_own_connection (c : conn)
  (script post : list input) (last : input) (fl : conn -> bool) (s : Server) :
  Forall (calm_chunk s) script -> last_read last ->
  (forall cl, In cl (clients s) -> fl cl = false) ->
  let r := handle_client c (script ++ last :: post) fl s in
  result r = Return Break
  /\ state r = unregister c s
  /\ In c (closed (trace r))
  /\ PyDict.get c (players (state r)) = None
  /\ (NoDup (clients s) -> ~ In c (clients (state r)))
  /\ (forall c', c' <> c ->
        PyDict.get c' (players (state r)) = PyDict.get c' (players s)
        /\ (In c' (clients (state r)) <-> In c' (clients s))).
Proof.
  intros Hcalm Hlast Hfl r.
  destruct (read_loop_calm c Hcalm s eq_refl) as [s1 [t1 [Hl [Hc1 Hp1]]]].
  assert (Hun : unregister c s1 = unregister c s)
    by (unfold unregister; congruence).
  assert (Hloop : exists t0,
    try_except (read_loop c (script ++ last :: post))
      (fun e => print_error e ;; ret Break) s
    = (Return Break, s1, t1 ++ t0)).
  { unfold try_except.
    rewrite (@read_loop_app c script (last :: post) s s1 t1 Hl).
    cbn [read_loop]. destruct Hlast as [E | [e E]]; rewrite E.
    - exists []. reflexivity.
    - exists [Print e]. cbn [raise]. rewrite app_nil_r. reflexivity. }
  destruct Hloop as [t0 Hloop].
  assert (Hquiet : after_broadcast fl None (unregister c s) = unregister c s).
  { apply after_broadcast_quiet. intros cl Hcl. rewrite refused_none.
    apply Hfl. cbn [unregister clients] in Hcl.
    now apply without_incl in Hcl. }
  assert (Hr : exists t2,
    r = (Return Break, unregister c s,
         (t1 ++ t0) ++ ([LockAcquire; LockRelease; Close c] ++ t2) ++ [])).
  { pose proof (finally_block_run fl c s1) as Hf. rewrite Hun in Hf.
    unfold r, handle_client, session.
    destruct (PyDict.get c (players s1)) as [info|].
    - rewrite Hquiet in Hf. eexists.
      erewrite bind_run; [reflexivity|exact Hloop|].
      cbv beta iota. erewrite bind_run; [reflexivity|exact Hf|reflexivity].
    - exists [].
      erewrite bind_run; [reflexivity|exact Hloop|].
      cbv beta iota. erewrite bind_run; [reflexivity|exact Hf|reflexivity]. }
  destruct Hr as [t2 Hr]. rewrite Hr. unfold result, state, trace.
  cbn [fst snd]. split; [reflexivity|]. split; [reflexivity|].
  split; [|split; [|split]].
  - rewrite !closed_app. apply in_or_app. right. cbn. auto.
  - cbn [unregister players]. apply PyDictFacts.get_del_same.
  - intros Hnd. cbn [unregister clients]. now apply without_NoDup.
  - intros c' Hne. cbn [unregister clients players]. split.
    + now apply PyDictFacts.get_del_other.
    + split; [apply without_incl|now apply without_other].
Qed.

(** ** Handlers and what the registry holds *)

Lemma without_NoDup_keep (c : conn) (l : list conn) :
  NoDup l -> NoDup (without c l).
Proof.
  unfold without. induction l as [|a l IH]; simpl; intros H; [exact H|].
  inversion H as [|? ? Hn Hd]; subst.
  destruct (Nat.eqb_spec c a) as [->|Hne]; [exact Hd|].
  specialize (IH Hd).
  destruct (list_remove c l) as [l'|] eqn:E; simpl in *; [|exact H].
  constructor; [|exact IH].
  intros Hin. apply Hn.
  assert (Hw : In a (without c l)) by (unfold without; now rewrite E).
  now apply without_incl in Hw.
Qed.

Lemma step_clients_incl (c : conn) (i : input) (p : pc) (s : Server) :
  forall a, In a (clients (step_server c i p s)) -> In a (clients s).
Proof.
  intros a. destruct p; cbn [step_server with_player clients unregister];
    try tauto;
    try (rewrite clients_after_broadcast; tauto).
  apply without_incl.
Qed.

Lemma step_clients_NoDup (c : conn) (i : input) (p : pc) (s : Server) :
  NoDup (clients s) -> NoDup (clients (step_server c i p s)).
Proof.
  intros H. destruct p;
    cbn [step_server with_player clients unregister after_broadcast];
    try exact H; try (now apply NoDup_filter).
  now apply without_NoDup_keep.
Qed.

Lemma step_keys_incl (c : conn) (i : input) (p : pc) (s : Server) :
  forall a, In a (PyDict.keys (players (step_server c i p s))) ->
            In a (PyDict.keys (players s)) \/ (a = c /\ updates p = true).
Proof.
  intros a. destruct p; cbn [step_server with_player players unregister updates];
    try tauto;
    try (intros H; left; eapply keys_after_broadcast; exact H).
  - intros H. apply PyDictFacts.keys_set in H. tauto.
  - intros H. apply PyDictFacts.keys_set in H. tauto.
  - intros H. apply PyDictFacts.keys_del in H. tauto.
Qed.

(** What the handlers keep true of the registry. *)
Lemma live_registry_step (l : label) (g g' : System) :
  NoDup (clients (server g)) ->
  (forall a, In a (clients (server g)) -> live g a) ->
  (forall a, In a (PyDict.keys (players (server g))) -> live g a) ->
  sys_step l g = Some g' ->
  NoDup (clients (server g'))
  /\ (forall a, In a (clients (server g')) -> live g' a)
  /\ (forall a, In a (PyDict.keys (players (server g'))) -> live g' a).
Proof.
  intros Hnd Hcl Hpl Hs. destruct l as [c|c i].
  - cbn [sys_step] in Hs.
    destruct (PyDict.contains c (threads g)) eqn:Ec; [discriminate|].
    inversion Hs; subst. clear Hs.
    assert (Hfresh : forall a, live g a -> a <> c).
    { intros a [p [Hp _]] ->. unfold PyDict.contains in Ec.
      rewrite Hp in Ec. discriminate. }
    assert (Hkeep : forall a, live g a ->
              live (mkSystem (state (accept c (server g)))
                             (PyDict.set c AtRecv (threads g))) a).
    { intros a Ha. pose proof (Hfresh a Ha) as Hne.
      destruct Ha as [p [Hp Ht]]. exists p. cbn [threads].
      rewrite PyDictFacts.get_set_other by exact Hne. auto. }
    cbn [server accept with_lock clients_append state fst snd clients players].
    split; [|split].
    + apply NoDup_app; [exact Hnd|repeat constructor; simpl; tauto|].
      intros a Ha [E | []]. subst a. exact (Hfresh c (Hcl c Ha) eq_refl).
    + intros a Ha. apply in_app_or in Ha. destruct Ha as [Ha | [<- | []]].
      * apply Hkeep, Hcl, Ha.
      * exists AtRecv. cbn [threads]. rewrite PyDictFacts.get_set_same. auto.
    + intros a Ha. apply Hkeep, Hpl, Ha.
  - destruct (PyDict.get c (threads g)) as [p|] eqn:Ep;
      [|cbn [sys_step] in Hs; rewrite Ep in Hs; discriminate].
    rewrite (sys_step_thread c i g Ep) in Hs. inversion Hs; subst. clear Hs.
    cbn [server].
    assert (Hother : forall a, a <> c -> live g a ->
              live (mkSystem (step_server c i p (server g))
                             (PyDict.set c (step_pc c i p (server g))
                                (threads g))) a).
    { intros a Hne [q [Hq Ht]]. exists q. cbn [threads].
      rewrite PyDictFacts.get_set_other by exact Hne. auto. }
    assert (Hself : torn_down (step_pc c i p (server g)) = false ->
              live (mkSystem (step_server c i p (server g))
                             (PyDict.set c (step_pc c i p (server g))
                                (threads g))) c).
    { intros Ht. eexists. cbn [threads].
      rewrite PyDictFacts.get_set_same. auto. }
    assert (Hdone : torn_down (step_pc c i p (server g)) = true ->
              ~ In c (clients (step_server c i p (server g)))
              /\ ~ In c (PyDict.keys (players (step_server c i p (server g))))).
    { intros Ht. destruct (torn_down p) eqn:Etp.
      - (* the handler had run its [finally] block already *)
        assert (Hdead : ~ live g c).
        { intros [q [Hq Hq']]. congruence. }
        split.
        + intros Hin. apply step_clients_incl in Hin. apply Hdead, Hcl, Hin.
        + intros Hin. apply step_keys_incl in Hin.
          destruct Hin as [Hin | [_ Hu]]; [apply Hdead, Hpl, Hin|].
          destruct p; discriminate.
      - (* it runs it now *)
        destruct p; try discriminate Etp; cbn [step_pc] in Ht;
          try discriminate Ht.
        + destruct (recv i) as [data|e]; [|discriminate].
          destruct (is_empty data); [discriminate|].
          destruct (command_of data) as [[?|? ? ?]|]; discriminate.
        + cbn [step_server unregister clients players]. split.
          * now apply without_NoDup.
          * intros Hin. apply PyDictFacts.keys_del in Hin. tauto. }
    split; [now apply step_clients_NoDup|]. split.
    + intros a Ha. destruct (Nat.eq_dec a c) as [->|Hne].
      * destruct (torn_down (step_pc c i p (server g))) eqn:Et;
          [|now apply Hself].
        exfalso. now apply (proj1 (Hdone eq_refl)).
      * apply Hother; [exact Hne|]. apply Hcl.
        eapply step_clients_incl; exact Ha.
    + intros a Ha. destruct (Nat.eq_dec a c) as [->|Hne].
      * destruct (torn_down (step_pc c i p (server g))) eqn:Et;
          [|now apply Hself].
        exfalso. now apply (proj2 (Hdone eq_refl)).
      * apply Hother; [exact Hne|]. apply Hpl.
        apply step_keys_incl in Ha. tauto.
Qed.

Lemma live_registry_run (ls : list label) :
  forall g g',
    NoDup (clients (server g)) ->
    (forall a, In a (clients (server g)) -> live g a) ->
    (forall a, In a (PyDict.keys (players (server g))) -> live g a) ->
    run ls g = Some g' ->
    NoDup (clients (server g'))
    /\ (forall a, In a (clients (server g')) -> live g' a)
    /\ (forall a, In a (PyDict.keys (players (server g'))) -> live g' a).
Proof.
  induction ls as [|l ls IH]; intros g g' Hnd Hcl Hpl Hrun; cbn [run] in Hrun.
  - inversion Hrun; subst. auto.
  - destruct (sys_step l g) as [g1|] eqn:Es; [|discriminate].
    destruct (live_registry_step l Hnd Hcl Hpl Es) as [H1 [H2 H3]].
    exact (IH g1 g' H1 H2 H3 Hrun).
Qed.

(** X3. In every state the server reaches, however its handlers
    interleave, a connection is listed at most once, and every listed
    connection and every key of the player table belongs to a handler
    that has not yet run its [finally] block; so once a handler has run
    it, its connection is neither listed nor keyed in the player table,
    also when another handler's broadcast had dropped it first. *)
Theorem registry_holds_only_live_handlers (ls : list label) (g : System) :
  run ls initial = Some g ->
  NoDup (clients (server g))
  /\ (forall c, In c (clients (server g)) -> live g c)
  /\ (forall c, In c (PyDict.keys (players (server g))) -> live g c)
  /\ (forall c p,
        PyDict.get c (threads g) = Some p -> torn_down p = true ->
        ~ In c (clients (server g))
        /\ PyDict.get c (players (server g)) = None).
Proof.
  intros Hrun.
  destruct (@live_registry_run ls initial g) as [H1 [H2 H3]];
    try exact Hrun; try (cbn; intros; tauto); [constructor|].
  split; [exact H1|]. split; [exact H2|]. split; [exact H3|].
  intros c p Hp Ht.
  assert (Hdead : ~ live g c) by (intros [q [Hq Hq']]; congruence).
  split.
  - intros Hin. apply Hdead, H2, Hin.
  - destruct (PyDict.get c (players (server g))) eqn:E; [|reflexivity].
    exfalso. apply Hdead, H3. apply PyDictFacts.get_keys. congruence.
Qed.

(** ** Shutting down *)

Lemma close_all_run (l : list conn) (s : Server) :
  for_each l (fun client => try_except (close client) (fun _ => ret tt)) s
  = (Return tt, s, List.map Close l).
Proof.
  induction l as [|c l IH]; [reflexivity|].
  cbn [for_each List.map].
  change (Close c :: List.map Close l) with ([Close c] ++ List.map Close l).
  eapply bind_run; [reflexivity|exact IH].
Qed.

Lemma attempts_closes (l : list conn) : attempts (List.map Close l) = [].
Proof. induction l; [reflexivity|exact IHl]. Qed.

Lemma closed_closes (l : list conn) : closed (List.map Close l) = l.
Proof. induction l; [reflexivity|]. cbn. now rewrite IHl. Qed.

(** With no connection listed a broadcast writes to no one. *)
Lemma broadcast_to_nobody (fails : conn -> bool) (message : PyStr.str)
  (exclude_socket : option conn) (s : Server) :
  clients s = [] ->
  broadcast fails message exclude_socket s
  = (Return tt, s, [LockAcquire; LockRelease]).
Proof.
  intros E. rewrite broadcast_run. destruct s as [cl d].
  cbn [clients] in E. subst cl. unfold after_broadcast, drop_refused.
  cbn [clients players filter flat_map app contains existsb].
  f_equal. f_equal. f_equal.
  apply forallb_filter_id. apply forallb_forall. intros e _.
  now rewrite andb_false_r.
Qed.

(** X4. The [finally] block of [start] closes every listed socket once,
    in the order of the list, writes to none, and leaves both tables
    empty; and while no connection is listed, as from then on, a handler
    that goes on with a command or with its [finally] block writes to no
    socket and lists none. *)
Theorem shutdown_closes_all_and_silences_handlers (s : Server) :
  let r := shutdown s in
  result r = Return tt
  /\ state r = mkServer [] []
  /\ closed (trace r) = clients s
  /\ attempts (trace r) = []
  /\ (forall fails c data d,
        let r' := handle_data fails c data (mkServer [] d) in
        attempts (trace r') = [] /\ closed (trace r') = []
        /\ clients (state r') = [])
  /\ (forall fails c d,
        let r' := finally_block fails c (mkServer [] d) in
        attempts (trace r') = [] /\ closed (trace r') = [c]
        /\ state r' = mkServer [] (PyDict.del c d)).
Proof.
  assert (Hin :
    (listed <- clients_copy ;;
     for_each listed (fun client =>
       try_except (close client) (fun _ => ret tt)) ;;
     clients_clear ;;
     players_clear) s
    = (Return tt, mkServer [] [],
       [] ++ List.map Close (clients s) ++ [] ++ [])).
  { eapply bind_run; [reflexivity|].
    eapply bind_run; [apply close_all_run|].
    eapply bind_run; reflexivity. }
  cbv zeta. unfold shutdown, with_lock. rewrite Hin.
  unfold result, state, trace. cbn [fst snd app].
  rewrite app_nil_r.
  split; [reflexivity|]. split; [reflexivity|].
  split; [|split; [|split]].
  - cbn [closed]. rewrite closed_app, closed_closes. cbn.
    now rewrite app_nil_r.
  - cbn [attempts]. rewrite attempts_app, attempts_closes. reflexivity.
  - intros fails c data d. rewrite handle_data_run.
    destruct (command_of data) as [[name|name x y]|]; cbv zeta;
      cbn [fst snd]; repeat split; reflexivity.
  - intros fails c d. rewrite finally_block_run.
    cbn [players]. destruct (PyDict.get c d) as [info|]; cbn [fst snd].
    + unfold unregister. cbn [clients players without list_remove].
      repeat split.
      unfold after_broadcast, drop_refused.
      cbn [clients players filter contains existsb]. f_equal.
      apply forallb_filter_id. apply forallb_forall. intros e _.
      now rewrite andb_false_r.
    + repeat split.
Qed.

(** X3 on the run in which connection 1 is dropped by the broadcast of
    connection 2 before it writes its entry: 1 has an entry and a handler
    still to run its [finally] block. *)
Lemma registry_holds_only_live_handlers_witness :
  (exists g, run late_update_run initial = Some g
             /\ live g 1 /\ NoDup (clients (server g))).
Proof.
  eexists. split; [reflexivity|].
  pose proof (@registry_holds_only_live_handlers late_update_run _ eq_refl)
    as [Hnd [_ [Hpl _]]].
  split; [|exact Hnd]. apply Hpl. cbn. tauto.
Defined.

(** X2 on the handler of connection 2, which moves once and then reads
    the end of its stream. *)
Lemma session_leaves_registry_less_own_connection_witness :
  (Forall (calm_chunk two_clients)
     [mkInput (Received (PyStr.text "MOVE,Al,3,4")) all_delivered]
   /\ last_read (mkInput (Received []) all_delivered))
  /\ state (handle_client 2
              ([mkInput (Received (PyStr.text "MOVE,Al,3,4")) all_delivered]
               ++ mkInput (Received []) all_delivered :: [])
              all_delivered two_clients)
     = mkServer [1] [].
Proof.
  assert (H1 : Forall (calm_chunk two_clients)
            [mkInput (Received (PyStr.text "MOVE,Al,3,4")) all_delivered]).
  { constructor; [|constructor]. split.
    - eexists. split; [reflexivity|discriminate].
    - reflexivity. }
  assert (H2 : last_read (mkInput (Received []) all_delivered))
    by (left; reflexivity).
  split; [split; assumption|].
  exact (proj1 (proj2
    (@session_leaves_registry_less_own_connection 2 _ [] _ all_delivered
       two_clients H1 H2 (fun _ _ => eq_refl)))).
Defined.

(** ** Client and server on one wire *)

Module StripFacts.
Import PyStr.

Lemma lstrip_length (s : str) : List.length (lstrip s) <= List.length s.
Proof.
  induction s as [|ch s IH]; simpl; [lia|].
  destruct (isspace ch); simpl; lia.
Qed.

(** A string [lstrip] leaves alone starts with no white space. *)
Lemma lstrip_fixed_head (ch : char) (s : str) :
  lstrip (ch :: s) = ch :: s -> isspace ch = false.
Proof.
  cbn [lstrip]. destruct (isspace ch); [|reflexivity].
  intros E. pose proof (lstrip_length s) as H. rewrite E in H.
  simpl in H. lia.
Qed.

Lemma lstrip_head (ch : char) (s : str) :
  isspace ch = false -> lstrip (ch :: s) = ch :: s.
Proof. intros H. cbn [lstrip]. now rewrite H. Qed.

Lemma rstrip_last (s : str) (ch : char) :
  isspace ch = false -> rstrip (s ++ [ch]) = s ++ [ch].
Proof.
  intros H. unfold rstrip. rewrite rev_app_distr. cbn [rev app lstrip].
  rewrite H. cbn [rev]. now rewrite rev_involutive.
Qed.

(** [strip] leaves alone a string with no white space at either end. *)
Lemma strip_fixed (c0 : char) (s : str) (ch : char) :
  isspace c0 = false -> isspace ch = false ->
  forall whole, whole = c0 :: s -> (exists pre, whole = pre ++ [ch]) ->
  strip whole = whole.
Proof.
  intros H0 Hl whole -> [pre Epre]. unfold strip.
  rewrite lstrip_head by exact H0. rewrite Epre.
  now apply rstrip_last.
Qed.

(** White space is taken from the front up to the first other
    character. *)
Lemma lstrip_app_head (u v : str) (ch : char) :
  isspace ch = false -> lstrip (u ++ ch :: v) = lstrip u ++ ch :: v.
Proof.
  intros H. induction u as [|a u IH]; cbn [app lstrip].
  - now rewrite H.
  - destruct (isspace a); [exact IH|reflexivity].
Qed.

(** [rstrip] goes no further back than a character that is no white
    space. *)
Lemma rstrip_app (a : str) (ch : char) (s : str) :
  isspace ch = false ->
  rstrip ((a ++ [ch]) ++ s) = (a ++ [ch]) ++ rstrip s.
Proof.
  intros H. unfold rstrip. rewrite !rev_app_distr. cbn [rev app].
  rewrite lstrip_app_head by exact H.
  rewrite rev_app_distr. cbn [rev]. now rewrite rev_involutive.
Qed.

Lemma join_without (ch sep : char) (l : list str) :
  ch <> sep -> Forall (fun p => ~ In ch p) l -> ~ In ch (join [sep] l).
Proof.
  intros Hne H. induction H as [|a l Ha Hl IH]; [simpl; tauto|].
  destruct l as [|b l]; [exact Ha|].
  change (join [sep] (a :: b :: l)) with (a ++ sep :: join [sep] (b :: l)).
  rewrite in_app_iff. intros [H | [H | H]]; [tauto| |tauto].
  now apply Hne.
Qed.

Lemma join_ends (sep : char) (Q : char -> Prop) (l : list str) :
  l <> [] -> Forall (fun p => exists s ch, p = s ++ [ch] /\ Q ch) l ->
  exists s ch, join [sep] l = s ++ [ch] /\ Q ch.
Proof.
  intros Hne H. induction H as [|a l Ha Hl IH]; [tauto|].
  destruct l as [|b l]; [exact Ha|].
  destruct IH as [s [ch [E HQ]]]; [discriminate|].
  exists (a ++ sep :: s), ch. split; [|exact HQ].
  change (join [sep] (a :: b :: l)) with (a ++ sep :: join [sep] (b :: l)).
  rewrite E, <- app_assoc. reflexivity.
Qed.

Lemma split_join (sep : char) (l : list str) :
  l <> [] -> Forall (fun p => ~ In sep p) l ->
  split sep (join [sep] l) = l.
Proof.
  induction l as [|a l IH]; [tauto|]. intros _ H.
  inversion H as [|? ? Ha Hl]; subst.
  destruct l as [|b l].
  - cbn [join]. now apply PyStrFacts.split_one.
  - change (join [sep] (a :: b :: l)) with (a ++ sep :: join [sep] (b :: l)).
    rewrite PyStrFacts.split_app by exact Ha.
    rewrite IH; [reflexivity|discriminate|exact Hl].
Qed.

End StripFacts.

Lemma numerals_plain (s : PyStr.str) (ch : PyStr.char) :
  Forall (fun c => is_numeral c = true) s ->
  In ch s ->
  ch <> PyStr.comma /\ ch <> PyStr.semicolon /\ ch <> PyStr.newline.
Proof.
  intros H Hin. rewrite Forall_forall in H. specialize (H ch Hin).
  unfold is_numeral in H. apply orb_true_iff in H. destruct H as [H|H].
  - destruct (IntRoundTrip.digit_facts ch H)
      as [_ [_ [_ [_ [_ [_ [H1 [H2 H3]]]]]]]]. auto.
  - apply N.eqb_eq in H. subst ch.
    unfold PyStr.comma, PyStr.semicolon, PyStr.newline.
    repeat split; discriminate.
Qed.

Lemma of_int_no_comma (z : Z) : no_comma (PyStr.of_int z).
Proof.
  intros Hin.
  destruct (IntRoundTrip.of_int_numerals z) as [_ [H _]].
  destruct (@numerals_plain _ _ H Hin) as [Hc _]. now apply Hc.
Qed.

Lemma of_int_no_semicolon (z : Z) : ~ In PyStr.semicolon (PyStr.of_int z).
Proof.
  intros Hin.
  destruct (IntRoundTrip.of_int_numerals z) as [_ [H _]].
  destruct (@numerals_plain _ _ H Hin) as [_ [Hc _]]. now apply Hc.
Qed.

(** The line [send_position] builds is a [MOVE] line of the wire. *)
Lemma position_line (name : PyStr.str) (x y : Z) :
  PyStr.text "MOVE," ++ name ++ [PyStr.comma] ++ PyStr.of_int x
  ++ [PyStr.comma] ++ PyStr.of_int y
  = move_line name (PyStr.of_int x) (PyStr.of_int y).
Proof.
  unfold move_line.
  change (PyStr.text "MOVE,") with (PyStr.text "MOVE" ++ [PyStr.comma]).
  rewrite <- !app_assoc. reflexivity.
Qed.

(** X5. What the game sends is what the server records: the line
    [send_position] writes for a local player whose name holds no comma
    makes the handler set the entry of the sender to that name and that
    position, and the [JOIN] line [add_player] writes for the first
    player makes it set the entry to the stripped name at (0, 0),
    whatever the client's own position. *)
Theorem server_records_what_the_game_sends (fails : conn -> bool) (c : conn)
  (s : Server) (g : Game.t) (r : nat) :
  Game.player g = Some r ->
  NetWorking.connected (Game.network g) = true ->
  no_comma (Player.name (Game.obj g r)) ->
  fails c = false ->
  let p := Game.obj g r in
  (exists data,
     snd (Game.send_position false g) = [ClientSent data]
     /\ command_of data = Some (Move (Player.name p) (Player.x p) (Player.y p))
     /\ PyDict.get c (players (state (handle_data fails c data s)))
        = Some (Info.mk (Player.name p) (Player.x p) (Player.y p)))
  /\ (forall objs net sound,
        NetWorking.connected net = true ->
        exists data,
          snd (Game.add_player false 0 (Game.mk (p :: objs) [] None net sound))
          = [ClientSent data]
          /\ PyDict.get c (players (state (handle_data fails c data s)))
             = Some (Info.mk (PyStr.strip (Player.name p)) 0 0)).
Proof.
  intros Hp Hconn Hn Hc p. subst p. split.
  - eexists. split; [|split].
    + unfold Game.send_position. rewrite Hp. unfold NetWorking.send.
      rewrite Hconn. reflexivity.
    + rewrite position_line.
      apply WireFacts.command_of_move;
        [exact Hn|apply of_int_no_comma|apply of_int_no_comma| |];
        apply int_of_formatted.
    + rewrite position_line.
      rewrite (@handle_data_move fails c (Player.name (Game.obj g r))
                 (PyStr.of_int (Player.x (Game.obj g r)))
                 (PyStr.of_int (Player.y (Game.obj g r)))
                 (Player.x (Game.obj g r)) (Player.y (Game.obj g r)) s Hn
                 (of_int_no_comma _) (of_int_no_comma _)
                 (int_of_formatted _)
                 (int_of_formatted _)).
      cbv zeta. unfold state. cbn [fst snd]. now apply entry_after_notice.
  - intros objs net sound Hnet. exists (join_line (Player.name (Game.obj g r))). split.
    + unfold Game.add_player.
      cbn [Game.with_obj Game.players Game.network Game.objects Game.obj
           Game.update nth Player.at_ Player.name].
      unfold NetWorking.send. rewrite Hnet. reflexivity.
    + rewrite (handle_data_join fails c s Hn). cbv zeta.
      unfold state. cbn [fst snd]. now apply entry_after_notice.
Qed.

(** One entry as the server writes it, as the client takes it. *)
Lemma entry_comes_through (info : Info.t) :
  plain_name (Info.name info) ->
  ~ In PyStr.semicolon (format_info info)
  /\ PyStr.strip (format_info info) = format_info info
  /\ format_info info <> []
  /\ Game._parse_player_data (format_info info) = reading info.
Proof.
  intros [Hc [Hs Hl]]. destruct info as [name x y]. cbn [Info.name] in *.
  unfold format_info. cbn [Info.name Info.x Info.y].
  split; [|split; [|split]].
  - rewrite !in_app_iff. intros [H | [H | [H | [H | H]]]].
    + tauto.
    + destruct H as [H | []]. discriminate.
    + now apply (of_int_no_semicolon x).
    + destruct H as [H | []]. discriminate.
    + now apply (of_int_no_semicolon y).
  - destruct (IntRoundTrip.of_int_numerals y) as [_ [_ [s [ch [Ey Hd]]]]].
    destruct (IntRoundTrip.digit_facts ch Hd) as [_ [_ [Hsp _]]].
    assert (Hend : exists pre,
      name ++ [PyStr.comma] ++ PyStr.of_int x ++ [PyStr.comma]
      ++ PyStr.of_int y = pre ++ [ch]).
    { exists (name ++ [PyStr.comma] ++ PyStr.of_int x ++ [PyStr.comma] ++ s).
      rewrite Ey, <- !app_assoc. reflexivity. }
    destruct name as [|c0 name'].
    + eapply StripFacts.strip_fixed;
        [|exact Hsp|reflexivity|exact Hend]. reflexivity.
    + eapply StripFacts.strip_fixed;
        [|exact Hsp|reflexivity|exact Hend].
      now apply StripFacts.lstrip_fixed_head with (s := name').
  - destruct name; discriminate.
  - unfold Game._parse_player_data, reading.
    change (name ++ [PyStr.comma] ++ PyStr.of_int x ++ [PyStr.comma]
            ++ PyStr.of_int y)
      with (name ++ PyStr.comma :: PyStr.of_int x
            ++ PyStr.comma :: PyStr.of_int y).
    rewrite PyStrFacts.split_app by exact Hc.
    rewrite PyStrFacts.split_app by apply of_int_no_comma.
    rewrite PyStrFacts.split_one by apply of_int_no_comma.
    rewrite !int_of_formatted. reflexivity.
Qed.

Lemma extract_update (d : PyDict.dict Info.t) :
  Forall (fun info => plain_name (Info.name info)) (PyDict.values d) ->
  Game._extract_all_data (PyStr.text "UPDATE;" ++ serialize d)
  = List.map format_info (PyDict.values d).
Proof.
  intros H. unfold Game._extract_all_data, serialize.
  change (PyStrMore.from 7 (PyStr.text "UPDATE;" ++ ?x)) with x.
  remember (PyDict.values d) as vals eqn:Ev. clear Ev d.
  destruct vals as [|v vals]; [reflexivity|].
  rewrite StripFacts.split_join.
  - induction H as [|info l Hi _ IH]; [reflexivity|].
    destruct (@entry_comes_through info Hi) as [_ [Hs [Hne _]]].
    cbn [List.map filter]. rewrite Hs.
    destruct (format_info info) eqn:E; [tauto|]. cbn [is_empty negb List.map].
    rewrite Hs. f_equal. exact IH.
  - discriminate.
  - rewrite Forall_forall in *. intros p Hp. apply in_map_iff in Hp.
    destruct Hp as [info [<- Hin]].
    apply (@entry_comes_through info (H info Hin)).
Qed.

Lemma of_int_no_newline (z : Z) : ~ In PyStr.newline (PyStr.of_int z).
Proof.
  intros Hin.
  destruct (IntRoundTrip.of_int_numerals z) as [_ [H _]].
  destruct (@numerals_plain _ _ H Hin) as [_ [_ Hc]]. now apply Hc.
Qed.

(** An entry is a line of its own and ends in a digit. *)
Lemma format_info_line (info : Info.t) :
  ~ In PyStr.newline (Info.name info) ->
  ~ In PyStr.newline (format_info info)
  /\ exists s ch, format_info info = s ++ [ch] /\ PyStr.isspace ch = false.
Proof.
  intros Hn. destruct info as [name x y]. unfold format_info.
  cbn [Info.name Info.x Info.y] in *. split.
  - rewrite !in_app_iff. intros [H | [H | [H | [H | H]]]].
    + tauto.
    + destruct H as [H | []]. discriminate.
    + now apply (of_int_no_newline x).
    + destruct H as [H | []]. discriminate.
    + now apply (of_int_no_newline y).
  - destruct (IntRoundTrip.of_int_numerals y) as [_ [_ [s [ch [Ey Hd]]]]].
    destruct (IntRoundTrip.digit_facts ch Hd) as [_ [_ [Hsp _]]].
    exists (name ++ [PyStr.comma] ++ PyStr.of_int x ++ [PyStr.comma] ++ s), ch.
    split; [|exact Hsp]. rewrite Ey, <- !app_assoc. reflexivity.
Qed.

(** The receiving thread buffers an [UPDATE] that arrives as one chunk
    whole, as one message. *)
Lemma update_message_whole (d : PyDict.dict Info.t) :
  Forall (fun info => ~ In PyStr.newline (Info.name info)) (PyDict.values d) ->
  NetWorking.messages_of (PyStr.text "UPDATE;" ++ serialize d)
  = [PyStr.text "UPDATE;" ++ serialize d].
Proof.
  intros H.
  assert (Hnl : ~ In PyStr.newline (PyStr.text "UPDATE;" ++ serialize d)).
  { rewrite in_app_iff. intros [Hin | Hin].
    - vm_compute in Hin. intuition discriminate.
    - revert Hin. apply StripFacts.join_without; [discriminate|].
      rewrite Forall_forall in *. intros p Hp. apply in_map_iff in Hp.
      destruct Hp as [info [<- Hin]].
      apply (@format_info_line info (H info Hin)). }
  assert (Hend : exists pre ch,
            PyStr.text "UPDATE;" ++ serialize d = pre ++ [ch]
            /\ PyStr.isspace ch = false).
  { unfold serialize. destruct (PyDict.values d) as [|v vals] eqn:Ev.
    - exists (PyStr.text "UPDATE"), PyStr.semicolon. split; reflexivity.
    - destruct (@StripFacts.join_ends PyStr.semicolon
                  (fun ch => PyStr.isspace ch = false)
                  (List.map format_info (v :: vals))) as [s [ch [E Hsp]]].
      + discriminate.
      + rewrite Forall_forall in *. intros p Hp. apply in_map_iff in Hp.
        destruct Hp as [info [<- Hin]].
        apply (@format_info_line info (H info Hin)).
      + exists (PyStr.text "UPDATE;" ++ s), ch. split; [|exact Hsp].
        rewrite E, app_assoc. reflexivity. }
  destruct Hend as [pre [ch [Epre Hsp]]].
  assert (Hs : PyStr.strip (PyStr.text "UPDATE;" ++ serialize d)
               = PyStr.text "UPDATE;" ++ serialize d).
  { eapply StripFacts.strip_fixed with (c0 := 85%N);
      [reflexivity|exact Hsp|reflexivity|]. exists pre. exact Epre. }
  unfold NetWorking.messages_of.
  rewrite PyStrFacts.split_one by exact Hnl.
  cbn [filter]. rewrite Hs.
  change (PyStr.text "UPDATE;" ++ serialize d)
    with (85%N :: PyStr.text "PDATE;" ++ serialize d) at 1.
  cbn [is_empty negb List.map]. now rewrite Hs.
Qed.

(** A chunk that holds one message, arriving at an empty buffer, is what
    the next [update_players] takes and dispatches on. *)
Lemma one_message_taken (fails : bool) (chunk m : PyStr.str) (g : Game.t) :
  chunk <> [] ->
  NetWorking.recv_buffer (Game.network g) = [] ->
  NetWorking.messages_of chunk = [m] ->
  Game.update_players fails (client_do (Receive (Received chunk)) g)
  = if negb (is_empty m) then
      if PyStrMore.startswith (PyStr.text "JOINED,") m
      then Game.handle_joined m g
      else if PyStrMore.startswith (PyStr.text "LEFT,") m
      then Game.handle_left m g
      else if PyStrMore.startswith (PyStr.text "UPDATE;") m
      then Game.handle_update fails m g
      else (g, [])
    else (g, []).
Proof.
  intros Hne Hb Hm. destruct chunk as [|c0 chunk]; [tauto|].
  destruct g as [objs pls pl [conn run buf] sound].
  cbn [Game.network NetWorking.recv_buffer] in Hb. subst buf.
  unfold Game.update_players, client_do, NetWorking.receive_turn.
  cbn [fst Game.network Game.with_network NetWorking.recv_buffer
       NetWorking.connected NetWorking.running Game.objects Game.players
       Game.player Game.move_sound app].
  rewrite Hm. reflexivity.
Qed.

(** X6. The client reads the server's [UPDATE] back as the server's
    table.  For a player table whose names hold no comma, no semicolon,
    no line feed and no leading white space, serialized to a message
    that fits one [recv] of the client: the receiving thread buffers the
    message whole; the next [update_players] hands it to
    [handle_update]; and what [_extract_all_data] and
    [_parse_player_data] make of it is the name and position of every
    entry, in the table's order, none malformed; the empty table gives no
    entry. *)
Theorem client_reads_update_as_sent (d : PyDict.dict Info.t) (fails : bool)
  (g : Game.t) :
  Forall (fun info => wire_name (Info.name info)) (PyDict.values d) ->
  one_chunk (PyStr.text "UPDATE;" ++ serialize d) ->
  NetWorking.recv_buffer (Game.network g) = [] ->
  NetWorking.messages_of (PyStr.text "UPDATE;" ++ serialize d)
  = [PyStr.text "UPDATE;" ++ serialize d]
  /\ Game.update_players fails
       (client_do (Receive (Received (PyStr.text "UPDATE;" ++ serialize d)))
          g)
     = Game.handle_update fails (PyStr.text "UPDATE;" ++ serialize d) g
  /\ List.map Game._parse_player_data
       (Game._extract_all_data (PyStr.text "UPDATE;" ++ serialize d))
     = List.map reading (PyDict.values d).
Proof.
  intros H _ Hb.
  assert (Hplain : Forall (fun info => plain_name (Info.name info))
                     (PyDict.values d)).
  { eapply Forall_impl; [|exact H]. intros info Hw. apply Hw. }
  assert (Hline : Forall (fun info => ~ In PyStr.newline (Info.name info))
                    (PyDict.values d)).
  { eapply Forall_impl; [|exact H]. intros info Hw. apply Hw. }
  pose proof (@update_message_whole d Hline) as Hm.
  split; [exact Hm|]. split.
  - assert (Hne : PyStr.text "UPDATE;" ++ serialize d <> []) by discriminate.
    rewrite (@one_message_taken fails _ _ g Hne Hb Hm).
    generalize (serialize d). intros rest. reflexivity.
  - rewrite extract_update by exact Hplain.
    rewrite map_map. apply map_ext_in. intros info Hin.
    rewrite Forall_forall in Hplain.
    apply (@entry_comes_through info (Hplain info Hin)).
Qed.

(** X6 on the table of [two_clients] after connection 1 has moved, sent
    to the game of Me. *)
Lemma client_reads_update_as_sent_witness :
  (Forall (fun info => wire_name (Info.name info))
     (PyDict.values
        (players (state (handle_data all_delivered 1
                           (PyStr.text "MOVE,Bob,10,-20") two_clients))))
   /\ one_chunk (PyStr.text "UPDATE;Al,0,0;Bob,10,-20")
   /\ NetWorking.recv_buffer (Game.network game_of_me) = [])
  /\ NetWorking.messages_of (PyStr.text "UPDATE;Al,0,0;Bob,10,-20")
     = [PyStr.text "UPDATE;Al,0,0;Bob,10,-20"]
  /\ List.map Game._parse_player_data
       (Game._extract_all_data (PyStr.text "UPDATE;Al,0,0;Bob,10,-20"))
     = [Some (PyStr.text "Al", 0%Z, 0%Z);
        Some (PyStr.text "Bob", 10%Z, (-20)%Z)].
Proof.
  assert (H : Forall (fun info => wire_name (Info.name info))
    (PyDict.values
       (players (state (handle_data all_delivered 1
                          (PyStr.text "MOVE,Bob,10,-20") two_clients))))).
  { repeat constructor; try no_comma_solve. }
  assert (Hc : one_chunk
    (PyStr.text "UPDATE;"
     ++ serialize
          (players (state (handle_data all_delivered 1
                             (PyStr.text "MOVE,Bob,10,-20") two_clients))))).
  { unfold one_chunk. apply Nat.leb_le. vm_compute. reflexivity. }
  assert (Hb : NetWorking.recv_buffer (Game.network game_of_me) = [])
    by reflexivity.
  split; [split; [exact H|split; [exact Hc|exact Hb]]|].
  pose proof (@client_reads_update_as_sent _ false game_of_me H Hc Hb)
    as [Hm [_ Hr]].
  split; [exact Hm|exact Hr].
Defined.

(** ** The game's objects *)

Lemma update_length (r : nat) (p : Player.t) (l : list Player.t) :
  List.length (Game.update r p l) = List.length l.
Proof.
  revert r. induction l as [|q l IH]; intros [|r]; simpl; auto.
Qed.

Lemma nth_update_same (r : nat) (p d : Player.t) (l : list Player.t) :
  r < List.length l -> nth r (Game.update r p l) d = p.
Proof.
  revert r. induction l as [|q l IH]; intros [|r]; simpl; intros H;
    try lia; auto. apply IH. lia.
Qed.

Lemma nth_update_other (r r' : nat) (p d : Player.t) (l : list Player.t) :
  r' <> r -> nth r' (Game.update r p l) d = nth r' l d.
Proof.
  revert r r'. induction l as [|q l IH]; intros [|r] [|r']; simpl;
    intros H; try tauto; auto.
Qed.

Lemma obj_with_obj_same (r : nat) (p : Player.t) (g : Game.t) :
  r < List.length (Game.objects g) -> Game.obj (Game.with_obj r p g) r = p.
Proof. intros H. unfold Game.obj, Game.with_obj. cbn. now apply nth_update_same. Qed.

Lemma obj_with_obj_other (r r' : nat) (p : Player.t) (g : Game.t) :
  r' <> r -> Game.obj (Game.with_obj r p g) r' = Game.obj g r'.
Proof. intros H. unfold Game.obj, Game.with_obj. cbn. now apply nth_update_other. Qed.

Lemma send_position_frame (fails : bool) (g : Game.t) :
  Game.objects (fst (Game.send_position fails g)) = Game.objects g
  /\ Game.players (fst (Game.send_position fails g)) = Game.players g
  /\ Game.player (fst (Game.send_position fails g)) = Game.player g
  /\ Game.move_sound (fst (Game.send_position fails g)) = Game.move_sound g.
Proof.
  unfold Game.send_position. destruct (Game.player g) as [r|] eqn:E;
    [|cbn [fst]; auto].
  destruct (NetWorking.send fails _ (Game.network g)) as [n ev].
  cbn [fst Game.with_network Game.objects Game.players Game.player
       Game.move_sound]. auto.
Qed.

Lemma move_player_objects (fails : bool) (r : nat) (dx dy : Z) (g : Game.t) :
  let p := Game.obj g r in
  let new_x := Z.max Game.PLAYER_RADIUS
                 (Z.min (Game.WIDTH - Game.PLAYER_RADIUS) (Player.x p + dx)) in
  let new_y := Z.max Game.PLAYER_RADIUS
                 (Z.min (Game.HEIGHT - Game.PLAYER_RADIUS) (Player.y p + dy)) in
  Game.objects (fst (Game.move_player fails r dx dy g))
  = Game.update r (Player.mk (Player.name p) (Player.color p)
                     (Player.health p) new_x new_y) (Game.objects g)
  /\ Game.players (fst (Game.move_player fails r dx dy g)) = Game.players g
  /\ Game.player (fst (Game.move_player fails r dx dy g)) = Game.player g.
Proof.
  cbv zeta. unfold Game.move_player.
  set (p := Game.obj g r).
  set (new_x := Z.max _ (Z.min _ (Player.x p + dx))).
  set (new_y := Z.max _ (Z.min _ (Player.y p + dy))).
  assert (Hm : Player.move (new_x - Player.x p) (new_y - Player.y p) p
               = Player.mk (Player.name p) (Player.color p) (Player.health p)
                   new_x new_y).
  { unfold Player.move. f_equal; lia. }
  rewrite Hm.
  destruct (negb (new_x =? Player.x p)%Z || negb (new_y =? Player.y p)%Z).
  - pose proof (send_position_frame fails
                  (Game.with_obj r (Player.mk (Player.name p) (Player.color p)
                                      (Player.health p) new_x new_y) g))
      as [Ho [Hl [Hp _]]].
    destruct (Game.send_position fails _) as [g2 ev]. cbn [fst] in *.
    rewrite Ho, Hl, Hp. cbn. auto.
  - cbn. auto.
Qed.

(** X7. [move_player] never lets a player out of the border: wherever
    the player was and whatever the step, its new position is the old one
    plus the step, brought back into [20, 380] x [20, 280]; no other
    object and neither list changes; when the position did not change
    nothing is sent and no sound is played, and when that of the local
    player changed, on a live connection, exactly the [MOVE] line of the
    new position is sent. *)
Theorem move_player_stays_in_border (fails : bool) (r : nat) (dx dy : Z)
  (g : Game.t) :
  r < List.length (Game.objects g) ->
  let g' := fst (Game.move_player fails r dx dy g) in
  let p := Game.obj g r in
  let p' := Game.obj g' r in
  Game.in_border p'
  /\ Player.x p' = Z.max 20 (Z.min 380 (Player.x p + dx))
  /\ Player.y p' = Z.max 20 (Z.min 280 (Player.y p + dy))
  /\ Player.name p' = Player.name p
  /\ (forall r', r' <> r -> Game.obj g' r' = Game.obj g r')
  /\ Game.players g' = Game.players g
  /\ Game.player g' = Game.player g
  /\ (Player.position p' = Player.position p ->
      snd (Game.move_player fails r dx dy g) = [])
  /\ (Player.position p' <> Player.position p ->
      Game.player g = Some r ->
      NetWorking.connected (Game.network g) = true ->
      snd (Game.move_player false r dx dy g)
      = ClientSent (PyStr.text "MOVE," ++ Player.name p ++ [PyStr.comma]
                    ++ PyStr.of_int (Player.x p') ++ [PyStr.comma]
                    ++ PyStr.of_int (Player.y p'))
        :: (if Game.move_sound g then [SoundStop; SoundPlay] else [])).
Proof.
  intros Hr g' p p'.
  destruct (move_player_objects fails r dx dy g) as [Ho [Hl Hp]].
  fold g' in Ho, Hl, Hp. fold p in Ho.
  assert (Ep' : p' = Player.mk (Player.name p) (Player.color p)
                       (Player.health p)
                       (Z.max 20 (Z.min 380 (Player.x p + dx)))
                       (Z.max 20 (Z.min 280 (Player.y p + dy)))).
  { unfold p', Game.obj. rewrite Ho. now apply nth_update_same. }
  split; [|split; [|split; [|split; [|split; [|split; [|split; [|split]]]]]]].
  - rewrite Ep'. unfold Game.in_border. cbn. unfold Game.PLAYER_RADIUS,
      Game.WIDTH, Game.HEIGHT. lia.
  - now rewrite Ep'.
  - now rewrite Ep'.
  - now rewrite Ep'.
  - intros r' Hne. unfold Game.obj. rewrite Ho. now apply nth_update_other.
  - exact Hl.
  - exact Hp.
  - rewrite Ep'. unfold Player.position. cbn [Player.x Player.y].
    intros E. inversion E as [[Ex Ey]].
    unfold Game.move_player. fold p.
    change (Z.max Game.PLAYER_RADIUS
              (Z.min (Game.WIDTH - Game.PLAYER_RADIUS) (Player.x p + dx)))
      with (Z.max 20 (Z.min 380 (Player.x p + dx))).
    change (Z.max Game.PLAYER_RADIUS
              (Z.min (Game.HEIGHT - Game.PLAYER_RADIUS) (Player.y p + dy)))
      with (Z.max 20 (Z.min 280 (Player.y p + dy))).
    rewrite Ex, Ey, !Z.eqb_refl. reflexivity.
  - intros Hmoved Hlocal Hconn.
    assert (Ep0 : Game.obj (fst (Game.move_player false r dx dy g)) r = p').
    { destruct (move_player_objects false r dx dy g) as [Ho' _].
      unfold Game.obj. rewrite Ho'. fold p.
      rewrite Ep'. now apply nth_update_same. }
    rewrite Ep'. cbn [Player.x Player.y].
    rewrite Ep' in Hmoved. unfold Player.position in Hmoved.
    cbn [Player.x Player.y] in Hmoved.
    unfold Game.move_player. fold p.
    change (Z.max Game.PLAYER_RADIUS
              (Z.min (Game.WIDTH - Game.PLAYER_RADIUS) (Player.x p + dx)))
      with (Z.max 20 (Z.min 380 (Player.x p + dx))).
    change (Z.max Game.PLAYER_RADIUS
              (Z.min (Game.HEIGHT - Game.PLAYER_RADIUS) (Player.y p + dy)))
      with (Z.max 20 (Z.min 280 (Player.y p + dy))).
    set (nx := Z.max 20 (Z.min 380 (Player.x p + dx))) in *.
    set (ny := Z.max 20 (Z.min 280 (Player.y p + dy))) in *.
    assert (Hm : negb (nx =? Player.x p)%Z || negb (ny =? Player.y p)%Z = true).
    { destruct (Z.eqb_spec nx (Player.x p)) as [Ex|]; [|reflexivity].
      destruct (Z.eqb_spec ny (Player.y p)) as [Ey|]; [|reflexivity].
      exfalso. apply Hmoved. now rewrite Ex, Ey. }
    rewrite Hm.
    assert (Hmv : Player.move (nx - Player.x p) (ny - Player.y p) p
                  = Player.mk (Player.name p) (Player.color p)
                      (Player.health p) nx ny).
    { unfold Player.move. f_equal; lia. }
    rewrite Hmv. unfold Game.send_position.
    cbn [Game.player Game.with_obj Game.network]. rewrite Hlocal.
    rewrite obj_with_obj_same by exact Hr.
    unfold NetWorking.send. rewrite Hconn.
    cbn [Player.name Player.x Player.y fst snd Game.with_network
         Game.move_sound app]. reflexivity.
Qed.

(** X7 on a player at the right edge who steps right and up. *)
Lemma move_player_stays_in_border_witness :
  0 < List.length [Player.new (PyStr.text "Me") 380 150]
  /\ Player.position
       (Game.obj
          (fst (Game.move_player false 0 5 (-5)
                  (Game.mk [Player.new (PyStr.text "Me") 380 150] [0] (Some 0)
                     (NetWorking.mk true true []) false))) 0)
     = (380%Z, 145%Z).
Proof.
  assert (H : 0 < List.length [Player.new (PyStr.text "Me") 380 150])
    by (simpl; lia).
  split; [exact H|].
  pose proof (@move_player_stays_in_border false 0 5 (-5)
                (Game.mk [Player.new (PyStr.text "Me") 380 150] [0] (Some 0)
                   (NetWorking.mk true true []) false) H)
    as [_ [Hx [Hy _]]].
  unfold Player.position. rewrite Hx, Hy. reflexivity.
Defined.

(** ** The receive buffer *)

Lemma messages_nonempty (text : PyStr.str) :
  Forall (fun m => m <> []) (NetWorking.messages_of text).
Proof.
  unfold NetWorking.messages_of. apply Forall_forall. intros m Hm.
  apply in_map_iff in Hm. destruct Hm as [msg [<- Hin]].
  apply filter_In in Hin. destruct Hin as [_ H].
  destruct (PyStr.strip msg); [discriminate|discriminate].
Qed.

Lemma buffer_run_order (l : list buffer_action) :
  forall n,
    Forall (fun m => m <> []) (NetWorking.recv_buffer n) ->
    filter (fun m => negb (is_empty m)) (snd (buffer_run l n))
    ++ NetWorking.recv_buffer (fst (buffer_run l n))
    = NetWorking.recv_buffer n
      ++ flat_map NetWorking.messages_of (arrivals l)
    /\ Forall (fun m => m <> []) (NetWorking.recv_buffer (fst (buffer_run l n))).
Proof.
  induction l as [|[text|] l IH]; intros n Hn.
  - cbn. rewrite app_nil_r. auto.
  - cbn [buffer_run arrivals flat_map app].
    destruct (IH (NetWorking.mk (NetWorking.connected n) (NetWorking.running n)
                    (NetWorking.recv_buffer n ++ NetWorking.messages_of text)))
      as [H1 H2].
    { cbn. apply Forall_app. split; [exact Hn|apply messages_nonempty]. }
    split; [|exact H2]. rewrite H1. cbn. now rewrite <- app_assoc.
  - cbn [buffer_run arrivals flat_map app]. unfold NetWorking.recv.
    destruct (NetWorking.recv_buffer n) as [|m rest] eqn:E.
    + destruct (IH n) as [H1 H2]; [now rewrite E|].
      destruct (buffer_run l n) as [n' taken]. cbn [fst snd] in *.
      cbn [filter is_empty negb]. rewrite E in H1. auto.
    + inversion Hn as [|? ? Hm Hrest]; subst.
      destruct (IH (NetWorking.mk (NetWorking.connected n)
                      (NetWorking.running n) rest)) as [H1 H2];
        [exact Hrest|].
      destruct (buffer_run l _) as [n' taken]. cbn [fst snd] in *.
      cbn [filter]. destruct m as [|ch m]; [tauto|].
      cbn [is_empty negb app]. split; [|exact H2].
      cbn [NetWorking.recv_buffer] in H1. now rewrite H1.
Qed.

Lemma receive_thread_chunks (texts : list PyStr.str) :
  forall n rest last,
    Forall (fun text => text <> []) texts ->
    NetWorking.connected n = true -> NetWorking.running n = true ->
    last = Received [] \/ (exists e, last = RecvRaised e) ->
    fst (NetWorking._receive_thread
           (List.map Received texts ++ last :: rest) n)
    = NetWorking.mk false true
        (NetWorking.recv_buffer n ++ flat_map NetWorking.messages_of texts).
Proof.
  induction texts as [|text texts IH]; intros n rest last Ht Hc Hr Hl.
  - cbn [List.map app NetWorking._receive_thread]. rewrite Hc, Hr.
    cbn [andb]. destruct n as [c r b]. cbn in Hc, Hr. subst.
    destruct Hl as [-> | [e ->]]; cbn; now rewrite app_nil_r.
  - inversion Ht as [|? ? Hne Ht']; subst.
    cbn [List.map app NetWorking._receive_thread]. rewrite Hc, Hr.
    cbn [andb]. destruct text as [|ch text]; [tauto|].
    cbn [NetWorking.receive_turn].
    specialize (IH (NetWorking.mk (NetWorking.connected n)
                      (NetWorking.running n)
                      (NetWorking.recv_buffer n
                       ++ NetWorking.messages_of (ch :: text)))
                   rest last Ht' Hc Hr Hl).
    destruct (NetWorking._receive_thread _ _) as [n'' ev'] eqn:E.
    cbn [fst] in *. rewrite IH. cbn [NetWorking.recv_buffer flat_map].
    now rewrite <- app_assoc.
Qed.

(** X8. The receive buffer is a queue without loss: however the
    receiving thread and the game loop take turns at it, the messages
    [recv()] has handed out, followed by those still buffered, are the
    non-blank lines of the chunks received, stripped, in the order
    received; an empty string from [recv()] is never a message, it says
    the buffer was empty.  The receiving thread buffers chunk after chunk
    until a read of no bytes or a fault, which ends it with [connected]
    false and without a look at what follows. *)
Theorem receive_buffer_is_a_queue (l : list buffer_action)
  (n : NetWorking.t) :
  Forall (fun m => m <> []) (NetWorking.recv_buffer n) ->
  (filter (fun m => negb (is_empty m)) (snd (buffer_run l n))
   ++ NetWorking.recv_buffer (fst (buffer_run l n))
   = NetWorking.recv_buffer n ++ flat_map NetWorking.messages_of (arrivals l))
  /\ Forall (fun m => m <> []) (NetWorking.recv_buffer (fst (buffer_run l n)))
  /\ (fst (NetWorking.recv n) = [] -> NetWorking.recv_buffer n = [])
  /\ (forall texts rest last,
        Forall (fun text => text <> []) texts ->
        NetWorking.connected n = true -> NetWorking.running n = true ->
        last = Received [] \/ (exists e, last = RecvRaised e) ->
        fst (NetWorking._receive_thread
               (List.map Received texts ++ last :: rest) n)
        = NetWorking.mk false true
            (NetWorking.recv_buffer n
             ++ flat_map NetWorking.messages_of texts)).
Proof.
  intros Hn. destruct (buffer_run_order l n Hn) as [H1 H2].
  split; [exact H1|]. split; [exact H2|]. split.
  - unfold NetWorking.recv.
    destruct (NetWorking.recv_buffer n) as [|m rest]; [reflexivity|].
    inversion Hn; subst. cbn. intros E. tauto.
  - intros texts rest last. apply receive_thread_chunks.
Qed.

(** X8 on one chunk of three lines, the middle one blank, and one
    take. *)
Lemma receive_buffer_is_a_queue_witness :
  Forall (fun m => m <> []) (NetWorking.recv_buffer (NetWorking.mk true true []))
  /\ filter (fun m => negb (is_empty m))
       (snd (buffer_run
               [Arrive (PyStr.text "JOINED,A" ++ [PyStr.newline]
                        ++ PyStr.text " " ++ [PyStr.newline]
                        ++ PyStr.text "LEFT,B ");
                Take]
               (NetWorking.mk true true [])))
     ++ NetWorking.recv_buffer
          (fst (buffer_run
                  [Arrive (PyStr.text "JOINED,A" ++ [PyStr.newline]
                           ++ PyStr.text " " ++ [PyStr.newline]
                           ++ PyStr.text "LEFT,B ");
                   Take]
                  (NetWorking.mk true true [])))
     = [PyStr.text "JOINED,A"; PyStr.text "LEFT,B"].
Proof.
  assert (H : Forall (fun m => m <> [])
                (NetWorking.recv_buffer (NetWorking.mk true true [])))
    by constructor.
  split; [exact H|].
  exact (proj1 (@receive_buffer_is_a_queue
    [Arrive (PyStr.text "JOINED,A" ++ [PyStr.newline] ++ PyStr.text " "
             ++ [PyStr.newline] ++ PyStr.text "LEFT,B ");
     Take] (NetWorking.mk true true []) H)).
Defined.

(** ** What an [UPDATE] does to the game *)

Lemma update_app_last (l : list Player.t) (p q : Player.t) :
  Game.update (List.length l) q (l ++ [p]) = l ++ [q].
Proof. induction l as [|a l IH]; simpl; [reflexivity|now rewrite IH]. Qed.

Lemma nth_app_last (l : list Player.t) (p d : Player.t) :
  nth (List.length l) (l ++ [p]) d = p.
Proof. induction l as [|a l IH]; simpl; auto. Qed.

(** A [Player] made and added: it is put at the centre; it becomes the
    local player, announced by [JOIN], when no player is listed, and
    otherwise goes in front of the list unless an equal one is there. *)
Lemma add_new_run (fails : bool) (p : Player.t) (g : Game.t) :
  let rn := List.length (Game.objects g) in
  let objs := Game.objects g ++ [Player.at_ 200 150 p] in
  Game.add_player fails rn (fst (Game.alloc p g))
  = match Game.players g with
    | [] =>
        match NetWorking.send fails (PyStr.text "JOIN," ++ Player.name p)
                (Game.network g) with
        | (n, ev) => (Game.mk objs [rn] (Some rn) n (Game.move_sound g), ev)
        end
    | _ :: _ =>
        if negb (Game.listed
                   (Game.mk objs (Game.players g) (Game.player g)
                      (Game.network g) (Game.move_sound g)) rn)
        then (Game.mk objs (rn :: Game.players g) (Game.player g)
                (Game.network g) (Game.move_sound g), [])
        else (Game.mk objs (Game.players g) (Game.player g)
                (Game.network g) (Game.move_sound g), [])
    end.
Proof.
  cbv zeta. unfold Game.add_player.
  set (ga := fst (Game.alloc p g)).
  set (rn := List.length (Game.objects g)).
  assert (Eg1 :
    Game.with_obj rn
      (Player.at_ (Game.WIDTH / 2) (Game.HEIGHT / 2) (Game.obj ga rn)) ga
    = Game.mk (Game.objects g ++ [Player.at_ 200 150 p]) (Game.players g)
        (Game.player g) (Game.network g) (Game.move_sound g)).
  { unfold ga, rn, Game.alloc, Game.with_obj, Game.obj.
    cbn [fst Game.objects Game.players Game.player Game.network
         Game.move_sound].
    now rewrite nth_app_last, update_app_last. }
  rewrite Eg1.
  cbn [Game.objects Game.players Game.player Game.network Game.move_sound].
  destruct (Game.players g) as [|e l]; [|reflexivity].
  unfold Game.obj, rn. cbn [Game.objects]. rewrite nth_app_last.
  reflexivity.
Qed.

Lemma find_named_none (name : PyStr.str) (g : Game.t) :
  Game.find_named name g = None ->
  forall e, In e (Game.players g) ->
            PyStr.eqb (Player.name (Game.obj g e)) name = false.
Proof.
  unfold Game.find_named. intros H e He.
  exact (find_none _ _ H e He).
Qed.

Lemma obj_app_old (g : Game.t) (extra : list Player.t) (r : nat)
  (l : list nat) (pl : option nat) (n : NetWorking.t) (b : bool) :
  r < List.length (Game.objects g) ->
  Game.obj (Game.mk (Game.objects g ++ extra) l pl n b) r = Game.obj g r.
Proof.
  intros H. unfold Game.obj. cbn [Game.objects]. now apply app_nth1.
Qed.

(** A new player of a name no listed player has is not [in] the list. *)
Lemma new_name_not_listed (p : Player.t) (g : Game.t) :
  Game.wf g -> Game.find_named (Player.name p) g = None ->
  Game.listed
    (Game.mk (Game.objects g ++ [Player.at_ 200 150 p]) (Game.players g)
       (Game.player g) (Game.network g) (Game.move_sound g))
    (List.length (Game.objects g))
  = false.
Proof.
  intros [Hwf _] Hf. unfold Game.listed. cbn [Game.players].
  apply not_true_is_false. intros H. apply existsb_exists in H.
  destruct H as [e [He H]]. rewrite Forall_forall in Hwf.
  pose proof (Hwf e He) as Hlt.
  apply orb_true_iff in H. destruct H as [H|H].
  - apply Nat.eqb_eq in H. lia.
  - rewrite obj_app_old in H by exact Hlt.
    unfold Game.obj at 2 in H. cbn [Game.objects] in H.
    rewrite nth_app_last in H. unfold Player.eqb in H.
    cbn [Player.at_ Player.name] in H.
    rewrite (find_named_none _ _ Hf e He) in H. discriminate.
Qed.

(** X9. A player first seen in an [UPDATE] is put at the centre of the
    window, not where the server says it is: with players listed, an
    entry of a name that is neither the local player's nor a listed
    player's adds a new player of that name in front of the list at
    (200, 150), whatever the entry's coordinates, and sends nothing; the
    same entry once more moves that player to the coordinates. *)
Theorem first_seen_player_starts_at_centre (fails : bool)
  (player_data name : PyStr.str) (x y : Z) (g : Game.t) :
  Game.wf g -> Game.players g <> [] ->
  Game._parse_player_data player_data = Some (name, x, y) ->
  Game.is_local name g = false -> Game.find_named name g = None ->
  let rn := List.length (Game.objects g) in
  let g1 := fst (Game._process_player_data fails player_data g) in
  let g2 := fst (Game._process_player_data fails player_data g1) in
  Game.players g1 = rn :: Game.players g
  /\ Game.obj g1 rn = Player.mk name (PyStr.text "red") 100 200 150
  /\ snd (Game._process_player_data fails player_data g) = []
  /\ Game.player g1 = Game.player g
  /\ (forall r, r < rn -> Game.obj g1 r = Game.obj g r)
  /\ Game.players g2 = Game.players g1
  /\ Game.obj g2 rn = Player.mk name (PyStr.text "red") 100 x y.
Proof.
  intros Hwf Hne Hparse Hlocal Hfind rn g1 g2.
  assert (E1 : Game._process_player_data fails player_data g
          = (Game.mk (Game.objects g ++ [Player.mk name (PyStr.text "red")
                                           100 200 150])
               (rn :: Game.players g) (Game.player g) (Game.network g)
               (Game.move_sound g), [])).
  { unfold Game._process_player_data. rewrite Hparse, Hlocal. cbn [negb].
    unfold Game._update_or_add_player. rewrite Hfind.
    pose proof (add_new_run fails (Player.new name x y) g) as Ha.
    cbv zeta in Ha. unfold Game.alloc in *. cbn [fst] in Ha. rewrite Ha.
    destruct (Game.players g) as [|e l] eqn:El; [tauto|].
    rewrite <- El. rewrite new_name_not_listed; [reflexivity|exact Hwf|].
    exact Hfind. }
  assert (Hg1 : g1 = Game.mk (Game.objects g ++ [Player.mk name
                                (PyStr.text "red") 100 200 150])
               (rn :: Game.players g) (Game.player g) (Game.network g)
               (Game.move_sound g)).
  { unfold g1. now rewrite E1. }
  assert (Hold : forall r, r < rn -> Game.obj g1 r = Game.obj g r).
  { intros r Hr. rewrite Hg1. now apply obj_app_old. }
  assert (Hnew : Game.obj g1 rn
                 = Player.mk name (PyStr.text "red") 100 200 150).
  { rewrite Hg1. unfold Game.obj. cbn [Game.objects]. apply nth_app_last. }
  assert (Hlocal1 : Game.is_local name g1 = false).
  { unfold Game.is_local in *. rewrite Hg1. cbn [Game.player].
    destruct (Game.player g) as [r|] eqn:Ep; [|reflexivity].
    rewrite obj_app_old; [exact Hlocal|]. destruct Hwf as [_ Hwf]. auto. }
  assert (Hfind1 : Game.find_named name g1 = Some rn).
  { rewrite Hg1 in Hnew |- *. unfold Game.find_named.
    cbn [Game.players find]. rewrite Hnew. cbn [Player.name].
    now rewrite PyStrFacts.eqb_refl. }
  assert (E2 : Game._process_player_data fails player_data g1
          = (Game.with_obj rn (Player.at_ x y (Game.obj g1 rn)) g1, [])).
  { unfold Game._process_player_data. rewrite Hparse, Hlocal1. cbn [negb].
    unfold Game._update_or_add_player. now rewrite Hfind1. }
  split; [now rewrite Hg1|]. split; [exact Hnew|].
  split; [now rewrite E1|]. split; [now rewrite Hg1|].
  split; [exact Hold|].
  unfold g2. rewrite E2. cbn [fst]. split; [reflexivity|].
  rewrite obj_with_obj_same.
  - rewrite Hnew. reflexivity.
  - rewrite Hg1. cbn [Game.objects]. rewrite length_app. simpl. lia.
Qed.

(** X9 on a game with the local player listed and an entry for Bob. *)
Lemma first_seen_player_starts_at_centre_witness :
  (Game.wf (Game.mk [Player.new (PyStr.text "Me") 200 150] [0] (Some 0)
              (NetWorking.mk true true []) false)
   /\ Game._parse_player_data (PyStr.text "Bob,10,-20")
      = Some (PyStr.text "Bob", 10%Z, (-20)%Z))
  /\ Player.position
       (Game.obj
          (fst (Game._process_player_data false (PyStr.text "Bob,10,-20")
                  (Game.mk [Player.new (PyStr.text "Me") 200 150] [0] (Some 0)
                     (NetWorking.mk true true []) false))) 1)
     = (200%Z, 150%Z).
Proof.
  assert (Hwf : Game.wf (Game.mk [Player.new (PyStr.text "Me") 200 150] [0]
                           (Some 0) (NetWorking.mk true true []) false)).
  { split.
    - repeat constructor.
    - intros r E. inversion E; subst. simpl. lia. }
  assert (Hp : Game._parse_player_data (PyStr.text "Bob,10,-20")
               = Some (PyStr.text "Bob", 10%Z, (-20)%Z)) by reflexivity.
  split; [split; assumption|].
  assert (Hne : Game.players
                  (Game.mk [Player.new (PyStr.text "Me") 200 150] [0] (Some 0)
                     (NetWorking.mk true true []) false) <> [])
    by discriminate.
  pose proof (@first_seen_player_starts_at_centre false _ _ _ _ _
                Hwf Hne Hp eq_refl eq_refl) as [_ [Hobj _]].
  cbv zeta in Hobj. cbn [Game.objects List.length] in Hobj.
  now rewrite Hobj.
Defined.

Lemma find_named_some (name : PyStr.str) (g : Game.t) (r : nat) :
  Game.find_named name g = Some r ->
  In r (Game.players g) /\ Player.name (Game.obj g r) = name.
Proof.
  unfold Game.find_named. intros H. apply find_some in H.
  destruct H as [Hin H]. split; [exact Hin|]. now apply PyStrFacts.eqb_eq.
Qed.

(** What [add_player] does with a player just made. *)
Lemma add_new_effect (fails : bool) (p : Player.t) (g : Game.t) :
  entry_effect g (fst (Game.add_player fails (List.length (Game.objects g))
                         (fst (Game.alloc p g)))).
Proof.
  pose proof (add_new_run fails p g) as Ha. cbv zeta in Ha. rewrite Ha.
  unfold entry_effect. cbv zeta.
  destruct (Game.players g) as [|e l] eqn:El.
  - right. right. left. exists p.
    destruct (NetWorking.send fails _ (Game.network g)) as [n ev].
    cbn. auto.
  - right. right. right. exists p.
    destruct (negb (Game.listed _ _)); cbn [fst Game.objects Game.players
      Game.player]; (split; [discriminate|]); auto.
Qed.

(** What [_process_player_data] does. *)
Lemma process_effect (fails : bool) (player_data : PyStr.str) (g : Game.t) :
  Game.wf g ->
  entry_effect g (fst (Game._process_player_data fails player_data g)).
Proof.
  intros [Hwf _]. unfold Game._process_player_data.
  destruct (Game._parse_player_data player_data) as [[[name x] y]|];
    [|left; cbn; auto].
  destruct (Game.is_local name g) eqn:El; cbn [negb]; [left; cbn; auto|].
  unfold Game._update_or_add_player.
  destruct (Game.find_named name g) as [r|] eqn:Ef.
  - right. left. exists r, x, y.
    destruct (find_named_some _ _ Ef) as [Hin Hname].
    rewrite Forall_forall in Hwf. split; [|split; [exact (Hwf r Hin)|]].
    + intros Ep. unfold Game.is_local in El. rewrite Ep, Hname in El.
      now rewrite PyStrFacts.eqb_refl in El.
    + cbn. auto.
  - apply add_new_effect.
Qed.

Lemma effect_wf (g g' : Game.t) :
  Game.wf g -> entry_effect g g' -> Game.wf g'.
Proof.
  intros [Hl Hp] H. unfold entry_effect in H. cbv zeta in H.
  destruct H as [[Ho [Els Ep]] | [[r [x [y [_ [_ [Ho [Els Ep]]]]]]]
                 | [[p [_ [Ho [Els Ep]]]] | [p [_ [Ho [Els Ep]]]]]]];
    unfold Game.wf; rewrite Ho, Ep.
  - rewrite Els. auto.
  - rewrite Els, update_length. auto.
  - rewrite Els, length_app. cbn [List.length]. split.
    + repeat constructor. lia.
    + intros r E. inversion E. lia.
  - rewrite length_app. cbn [List.length]. split.
    + assert (Hold : Forall (fun r => r < List.length (Game.objects g) + 1)
                       (Game.players g)).
      { eapply Forall_impl; [|exact Hl]. cbn. intros; lia. }
      destruct Els as [-> | ->]; [constructor; [lia|exact Hold]|exact Hold].
    + intros r E. specialize (Hp r E). lia.
Qed.

Lemma effect_border (g g' : Game.t) :
  Game.wf g -> entry_effect g g' -> local_in_border g -> local_in_border g'.
Proof.
  intros [Hl Hp] H Hb r Hr. unfold entry_effect in H. cbv zeta in H.
  destruct H as [[Ho [Els Ep]] | [[r0 [x [y [Hn [_ [Ho [Els Ep]]]]]]]
                 | [[p [_ [Ho [Els Ep]]]] | [p [_ [Ho [Els Ep]]]]]]];
    rewrite Ep in Hr; unfold Game.obj; rewrite Ho.
  - apply Hb, Hr.
  - rewrite nth_update_other; [apply Hb, Hr|]. congruence.
  - inversion Hr; subst. rewrite nth_app_last.
    unfold Game.in_border, Game.PLAYER_RADIUS, Game.WIDTH, Game.HEIGHT.
    cbn. lia.
  - rewrite app_nth1 by now apply Hp. apply Hb, Hr.
Qed.

Lemma effect_local (g g' : Game.t) :
  Game.wf g -> entry_effect g g' -> Game.players g <> [] ->
  Game.players g' <> [] /\ Game.player g' = Game.player g
  /\ forall r, Game.player g = Some r -> Game.obj g' r = Game.obj g r.
Proof.
  intros [Hl Hp] H Hne. unfold entry_effect in H. cbv zeta in H.
  destruct H as [[Ho [Els Ep]] | [[r0 [x [y [Hn [_ [Ho [Els Ep]]]]]]]
                 | [[p [He _]] | [p [_ [Ho [Els Ep]]]]]]].
  - rewrite Els, Ep. split; [exact Hne|]. split; [reflexivity|].
    intros r _. unfold Game.obj. now rewrite Ho.
  - rewrite Els, Ep. split; [exact Hne|]. split; [reflexivity|].
    intros r Hr. unfold Game.obj. rewrite Ho.
    apply nth_update_other. congruence.
  - tauto.
  - split; [destruct Els as [-> | ->]; [discriminate|exact Hne]|].
    split; [exact Ep|]. intros r Hr. unfold Game.obj. rewrite Ho.
    apply app_nth1. now apply Hp.
Qed.

Lemma process_all_keeps (fails : bool) (all_data : list PyStr.str) :
  forall g,
    Game.wf g ->
    Game.wf (fst (Game.process_all fails all_data g))
    /\ (local_in_border g ->
        local_in_border (fst (Game.process_all fails all_data g)))
    /\ (Game.players g <> [] ->
        Game.players (fst (Game.process_all fails all_data g)) <> []
        /\ Game.player (fst (Game.process_all fails all_data g))
           = Game.player g
        /\ forall r, Game.player g = Some r ->
             Game.obj (fst (Game.process_all fails all_data g)) r
             = Game.obj g r).
Proof.
  induction all_data as [|pd rest IH]; intros g Hwf.
  - cbn. auto.
  - cbn [Game.process_all].
    pose proof (process_effect fails pd Hwf) as He.
    destruct (Game._process_player_data fails pd g) as [g1 ev].
    cbn [fst] in He.
    pose proof (effect_wf Hwf He) as Hwf1.
    destruct (IH g1 Hwf1) as [H1 [H2 H3]].
    destruct (Game.process_all fails rest g1) as [g2 ev'].
    cbn [fst] in *. split; [exact H1|]. split.
    + intros Hb. apply H2. exact (effect_border Hwf He Hb).
    + intros Hne. destruct (effect_local Hwf He Hne) as [Hne1 [Hp1 Ho1]].
      destruct (H3 Hne1) as [Hne2 [Hp2 Ho2]].
      split; [exact Hne2|]. split; [congruence|].
      intros r Hr. rewrite Ho2 by congruence. now apply Ho1.
Qed.

(** X10. An [UPDATE] never moves the local player: when players are
    listed, whatever the message holds, well-formed or not, and about
    whatever names, the local player is the same object after
    [handle_update], with the same name and position, every reference of
    the game still stands for an object, and the list is still not
    empty. *)
Theorem update_leaves_local_player_alone (fails : bool) (data : PyStr.str)
  (g : Game.t) (r : nat) :
  Game.wf g -> Game.players g <> [] -> Game.player g = Some r ->
  let g' := fst (Game.handle_update fails data g) in
  Game.player g' = Some r
  /\ Game.obj g' r = Game.obj g r
  /\ Game.players g' <> []
  /\ Game.wf g'.
Proof.
  intros Hwf Hne Hr g'. unfold g', Game.handle_update.
  destruct (process_all_keeps fails (Game._extract_all_data data) Hwf)
    as [H1 [_ H3]].
  destruct (H3 Hne) as [Hne' [Hp Ho]].
  split; [congruence|]. split; [now apply Ho|]. split; assumption.
Qed.

(** X10 on the local player Me and an [UPDATE] that names it. *)
Lemma update_leaves_local_player_alone_witness :
  (Game.wf (Game.mk [Player.new (PyStr.text "Me") 200 150] [0] (Some 0)
              (NetWorking.mk true true []) false)
   /\ Game.players (Game.mk [Player.new (PyStr.text "Me") 200 150] [0]
                      (Some 0) (NetWorking.mk true true []) false) <> [])
  /\ Game.obj
       (fst (Game.handle_update false (PyStr.text "UPDATE;Me,3,4;Bob,1,2")
               (Game.mk [Player.new (PyStr.text "Me") 200 150] [0] (Some 0)
                  (NetWorking.mk true true []) false))) 0
     = Player.new (PyStr.text "Me") 200 150.
Proof.
  assert (Hwf : Game.wf (Game.mk [Player.new (PyStr.text "Me") 200 150] [0]
                           (Some 0) (NetWorking.mk true true []) false)).
  { split.
    - repeat constructor.
    - intros r E. inversion E; subst. simpl. lia. }
  assert (Hne : Game.players
                  (Game.mk [Player.new (PyStr.text "Me") 200 150] [0] (Some 0)
                     (NetWorking.mk true true []) false) <> [])
    by discriminate.
  split; [split; assumption|].
  exact (proj1 (proj2 (@update_leaves_local_player_alone false
    (PyStr.text "UPDATE;Me,3,4;Bob,1,2") _ 0 Hwf Hne eq_refl))).
Defined.

(** ** The game over time *)

Lemma handle_move_keeps (fails up down left_ right_ : bool) (g : Game.t) :
  Game.wf g -> local_in_border g ->
  Game.wf (fst (Game.handle_move fails up down left_ right_ g))
  /\ local_in_border (fst (Game.handle_move fails up down left_ right_ g)).
Proof.
  intros Hwf Hb. unfold Game.handle_move.
  destruct (Game.player g) as [r|] eqn:Ep; [|cbn; auto].
  match goal with
  | |- context [if ?b then _ else _] => destruct b
  end; [|cbn; auto].
  match goal with
  | |- context [Game.move_player fails r ?dx ?dy g] =>
      pose proof (move_player_objects fails r dx dy g) as [Ho [Hl Hp]];
      set (g' := fst (Game.move_player fails r dx dy g)) in *
  end.
  cbv zeta in Ho. destruct Hwf as [Hwl Hwp]. split.
  - unfold Game.wf. rewrite Ho, Hl, Hp, update_length. auto.
  - intros r' Hr'. rewrite Hp, Ep in Hr'. inversion Hr'; subst r'.
    unfold Game.obj. rewrite Ho.
    rewrite nth_update_same by now apply Hwp.
    unfold Game.in_border, Game.PLAYER_RADIUS, Game.WIDTH, Game.HEIGHT.
    cbn. lia.
Qed.

Lemma update_players_keeps (fails : bool) (g : Game.t) :
  Game.wf g -> local_in_border g ->
  Game.wf (fst (Game.update_players fails g))
  /\ local_in_border (fst (Game.update_players fails g)).
Proof.
  intros Hwf Hb. unfold Game.update_players.
  destruct (NetWorking.recv (Game.network g)) as [data n].
  assert (Hwf1 : Game.wf (Game.with_network n g)) by exact Hwf.
  assert (Hb1 : local_in_border (Game.with_network n g)) by exact Hb.
  destruct (negb (is_empty data)); [|auto].
  destruct (PyStrMore.startswith (PyStr.text "JOINED,") data); [cbn; auto|].
  destruct (PyStrMore.startswith (PyStr.text "LEFT,") data).
  - cbn [Game.handle_left fst]. split.
    + destruct Hwf1 as [Hl Hp]. split; [|exact Hp].
      cbn [Game.players Game.objects]. rewrite Forall_forall in *.
      intros r Hr. apply filter_In in Hr. now apply Hl.
    + exact Hb1.
  - destruct (PyStrMore.startswith (PyStr.text "UPDATE;") data); [|auto].
    unfold Game.handle_update.
    destruct (process_all_keeps fails (Game._extract_all_data data) Hwf1)
      as [H1 [H2 _]]. auto.
Qed.

Lemma client_do_keeps (a : client_step) (g : Game.t) :
  Game.wf g -> local_in_border g ->
  Game.wf (client_do a g) /\ local_in_border (client_do a g).
Proof.
  intros Hwf Hb. destruct a as [p fails|u d l r fails|rr|fails];
    cbn [client_do].
  - pose proof (add_new_effect fails p g) as He.
    unfold Game.alloc in *. cbn [fst] in He.
    split; [exact (effect_wf Hwf He)|exact (effect_border Hwf He Hb)].
  - now apply handle_move_keeps.
  - split; [exact Hwf|exact Hb].
  - now apply update_players_keeps.
Qed.

(** X11. In every state the game reaches from its start, by adding
    new players, looking at the arrow keys, receiving chunks and
    handling the messages buffered, whatever they hold, the local player,
    once there is one, is inside the border [20, 380] x [20, 280], and
    every reference the game holds stands for an object. *)
Theorem local_player_stays_inside_border (l : list client_step)
  (n : NetWorking.t) (sound : bool) :
  Game.wf (client_run l (Game.initial n sound))
  /\ local_in_border (client_run l (Game.initial n sound)).
Proof.
  unfold client_run.
  assert (H0 : Game.wf (Game.initial n sound)
               /\ local_in_border (Game.initial n sound)).
  { split; [split; [constructor|]|]; intros r E; discriminate. }
  revert H0. generalize (Game.initial n sound).
  induction l as [|a l IH]; intros g [Hwf Hb]; cbn [fold_left]; [auto|].
  apply IH. now apply client_do_keeps.
Qed.

(** ** Notices *)

Lemma name_of_left (name : PyStr.str) :
  Game.name_of (PyStr.text "LEFT," ++ name) = name.
Proof. reflexivity. Qed.

Lemma name_of_joined (name : PyStr.str) :
  Game.name_of (PyStr.text "JOINED," ++ name) = name.
Proof. reflexivity. Qed.

(** The receiving thread strips the line of a [LEFT] notice: the name
    it buffers is the server's without its trailing white space. *)
Lemma left_notice_heard (name : PyStr.str) :
  ~ In PyStr.newline name ->
  NetWorking.messages_of (PyStr.text "LEFT," ++ name)
  = [PyStr.text "LEFT," ++ PyStr.rstrip name].
Proof.
  intros Hn.
  assert (Hnl : ~ In PyStr.newline (PyStr.text "LEFT," ++ name)).
  { rewrite in_app_iff. intros [Hin | Hin]; [|tauto].
    vm_compute in Hin. intuition discriminate. }
  assert (Hs : PyStr.strip (PyStr.text "LEFT," ++ name)
               = PyStr.text "LEFT," ++ PyStr.rstrip name).
  { unfold PyStr.strip.
    change (PyStr.text "LEFT," ++ name)
      with (76%N :: PyStr.text "EFT," ++ name) at 1.
    rewrite StripFacts.lstrip_head by reflexivity.
    change (76%N :: PyStr.text "EFT," ++ name)
      with ((PyStr.text "LEFT" ++ [PyStr.comma]) ++ name).
    now rewrite StripFacts.rstrip_app by reflexivity. }
  unfold NetWorking.messages_of.
  rewrite PyStrFacts.split_one by exact Hnl.
  cbn [filter]. rewrite Hs.
  change (PyStr.text "LEFT," ++ PyStr.rstrip name)
    with (76%N :: PyStr.text "EFT," ++ PyStr.rstrip name) at 1.
  cbn [is_empty negb List.map]. now rewrite Hs.
Qed.

(** X12. The notice [LEFT,<name>] the server's [finally] block writes,
    for a name with no line feed, commas in it or not, arriving as one
    chunk at a client with an empty buffer: the receiving thread buffers
    it with the trailing white space of the name stripped, and the next
    [update_players] drops from the list exactly the players whose name
    is that stripped name, the local one among them if it has that name,
    in the order they had, touches no object and not [self.player], and
    prints that the stripped name left.  So a player whose name ends in
    white space stays listed when the server announces that it left. *)
Theorem left_notice_drops_players_of_that_name (name : PyStr.str)
  (fails : bool) (g : Game.t) :
  ~ In PyStr.newline name ->
  NetWorking.recv_buffer (Game.network g) = [] ->
  let heard := PyStr.rstrip name in
  let res :=
    Game.update_players fails
      (client_do (Receive (Received (PyStr.text "LEFT," ++ name))) g) in
  NetWorking.messages_of (PyStr.text "LEFT," ++ name)
  = [PyStr.text "LEFT," ++ heard]
  /\ Game.players (fst res)
     = filter (fun r => negb (PyStr.eqb (Player.name (Game.obj g r)) heard))
         (Game.players g)
  /\ (forall r, In r (Game.players (fst res)) <->
                In r (Game.players g) /\ Player.name (Game.obj g r) <> heard)
  /\ Game.objects (fst res) = Game.objects g
  /\ Game.player (fst res) = Game.player g
  /\ snd res = [Printed (heard ++ PyStr.text " left the game.")]
  /\ (heard <> name ->
      forall r, In r (Game.players g) ->
                Player.name (Game.obj g r) = name ->
                In r (Game.players (fst res))).
Proof.
  intros Hn Hb heard res.
  pose proof (@left_notice_heard name Hn) as Hm. fold heard in Hm.
  assert (Eres : res = Game.handle_left (PyStr.text "LEFT," ++ heard) g).
  { unfold res.
    assert (Hne : PyStr.text "LEFT," ++ name <> []) by discriminate.
    rewrite (@one_message_taken fails _ _ g Hne Hb Hm).
    generalize heard. intros rest. reflexivity. }
  clearbody heard. rewrite Eres. clear Eres res.
  unfold Game.handle_left. rewrite name_of_left.
  cbn [fst snd Game.players Game.objects Game.player].
  assert (Hiff : forall r,
    In r (filter (fun r => negb (PyStr.eqb (Player.name (Game.obj g r)) heard))
            (Game.players g))
    <-> In r (Game.players g) /\ Player.name (Game.obj g r) <> heard).
  { intros r. rewrite filter_In, negb_true_iff.
    split; intros [H1 H2]; (split; [exact H1|]).
    - intros E. rewrite E, PyStrFacts.eqb_refl in H2. discriminate.
    - destruct (PyStr.eqb (Player.name (Game.obj g r)) heard) eqn:E;
        [|reflexivity].
      apply PyStrFacts.eqb_eq in E. tauto. }
  split; [exact Hm|]. split; [reflexivity|]. split; [exact Hiff|].
  split; [reflexivity|]. split; [reflexivity|]. split; [reflexivity|].
  intros Hne r Hin En. apply Hiff. split; [exact Hin|]. congruence.
Qed.

(** X12 on [LEFT,Bob ] at a game that lists a player named Bob and one
    named Bob followed by a space: the first is dropped, the second
    stays. *)
Lemma left_notice_drops_players_of_that_name_witness :
  (~ In PyStr.newline (PyStr.text "Bob ")
   /\ NetWorking.recv_buffer (Game.network game_of_bobs) = [])
  /\ NetWorking.messages_of (PyStr.text "LEFT,Bob ") = [PyStr.text "LEFT,Bob"]
  /\ Game.players
       (fst (Game.update_players false
               (client_do (Receive (Received (PyStr.text "LEFT,Bob ")))
                  game_of_bobs)))
     = [0; 2].
Proof.
  assert (Hn : ~ In PyStr.newline (PyStr.text "Bob ")).
  { intros H. vm_compute in H. intuition discriminate. }
  assert (Hb : NetWorking.recv_buffer (Game.network game_of_bobs) = [])
    by reflexivity.
  split; [split; [exact Hn|exact Hb]|].
  pose proof (@left_notice_drops_players_of_that_name (PyStr.text "Bob ")
                false game_of_bobs Hn Hb) as [Hm [Hp _]].
  split; [exact Hm|exact Hp].
Defined.

(** X13. After a [LEFT] notice that carries the local player's own
    name, sent when another connection of that name leaves, a game whose
    list held the local player only has an empty list and its local
    player still; the next [UPDATE] with an entry of another name then
    makes that other player the local one, at the centre, and announces
    it to the server with [JOIN]. *)
Theorem left_of_own_name_hands_over_local_player (g : Game.t) (r : nat)
  (other : PyStr.str) (x y : Z) :
  Game.wf g -> Game.player g = Some r -> Game.players g = [r] ->
  NetWorking.connected (Game.network g) = true ->
  plain_name other -> other <> Player.name (Game.obj g r) ->
  let g1 := fst (Game.handle_left
                   (PyStr.text "LEFT," ++ Player.name (Game.obj g r)) g) in
  let res := Game.handle_update false
               (PyStr.text "UPDATE;" ++ format_info (Info.mk other x y)) g1 in
  let rn := List.length (Game.objects g) in
  Game.players g1 = [] /\ Game.player g1 = Some r
  /\ Game.player (fst res) = Some rn
  /\ Game.players (fst res) = [rn]
  /\ Game.obj (fst res) rn = Player.mk other (PyStr.text "red") 100 200 150
  /\ snd res = [ClientSent (PyStr.text "JOIN," ++ other)].
Proof.
  intros Hwf Hp Hl Hconn Hplain Hother g1 res rn.
  assert (Eg1 : g1 = Game.mk (Game.objects g) [] (Some r) (Game.network g)
                       (Game.move_sound g)).
  { unfold g1, Game.handle_left. rewrite name_of_left. cbn [fst].
    rewrite Hl, Hp. cbn [filter]. now rewrite PyStrFacts.eqb_refl. }
  assert (Ex : Game._extract_all_data
                 (PyStr.text "UPDATE;" ++ format_info (Info.mk other x y))
               = [format_info (Info.mk other x y)]).
  { apply (@extract_update [(0, Info.mk other x y)]).
    repeat constructor; apply Hplain. }
  assert (Eparse : Game._parse_player_data (format_info (Info.mk other x y))
                   = Some (other, x, y)).
  { now apply (@entry_comes_through (Info.mk other x y)). }
  assert (Eres : res = (Game.mk (Game.objects g ++ [Player.mk other
                                   (PyStr.text "red") 100 200 150])
                          [rn] (Some rn) (Game.network g) (Game.move_sound g),
                        [ClientSent (PyStr.text "JOIN," ++ other)])).
  { unfold res, Game.handle_update. rewrite Ex.
    cbn [Game.process_all]. unfold Game._process_player_data.
    rewrite Eparse.
    assert (El : Game.is_local other g1 = false).
    { rewrite Eg1. unfold Game.is_local. cbn [Game.player].
      destruct (PyStr.eqb other _) eqn:E; [|reflexivity].
      apply PyStrFacts.eqb_eq in E. now apply Hother in E. }
    rewrite El. cbn [negb]. unfold Game._update_or_add_player.
    assert (Ef : Game.find_named other g1 = None) by now rewrite Eg1.
    rewrite Ef.
    pose proof (add_new_run false (Player.new other x y) g1) as Ha.
    cbv zeta in Ha. unfold Game.alloc in *. cbn [fst] in Ha. rewrite Ha.
    rewrite Eg1. cbn [Game.players Game.network Game.objects
      Game.move_sound]. unfold NetWorking.send. rewrite Hconn.
    reflexivity. }
  split; [now rewrite Eg1|]. split; [now rewrite Eg1|].
  rewrite Eres. cbn [fst snd Game.player Game.players].
  repeat split. unfold Game.obj. cbn [Game.objects]. apply nth_app_last.
Qed.

Lemma prints_app (t u : list client_event) :
  prints (t ++ u) = prints t ++ prints u.
Proof.
  induction t as [|e t IH]; [reflexivity|].
  destruct e; cbn [app prints]; rewrite ?IH; reflexivity.
Qed.

Lemma prints_reports (l : list PyStr.str) :
  prints (List.map malformed_report l) = List.map malformed_report l.
Proof.
  induction l as [|pd l IH]; [reflexivity|].
  cbn [List.map]. unfold malformed_report at 1 3. cbn [prints].
  now rewrite IH.
Qed.

(** An entry that parses is handled without a print, but for the
    [Send error] of a [JOIN] that could not be sent, after which a player
    is listed; with a player listed it is handled without any event. *)
Lemma parsed_entry_events (fails : bool) (pd : PyStr.str) (g : Game.t) :
  Game._parse_player_data pd <> None ->
  let res := Game._process_player_data fails pd g in
  (Game.players g <> [] -> snd res = [] /\ Game.players (fst res) <> [])
  /\ (fails = false -> prints (snd res) = [])
  /\ (prints (snd res) = []
      \/ prints (snd res) = [PrintedError (PyStr.text "Send error: ")]
         /\ Game.players (fst res) <> []).
Proof.
  intros Hp. cbv zeta. unfold Game._process_player_data.
  destruct (Game._parse_player_data pd) as [[[name x] y]|]; [|tauto].
  destruct (negb (Game.is_local name g)); [|cbn; tauto].
  unfold Game._update_or_add_player.
  destruct (Game.find_named name g); [cbn; tauto|].
  pose proof (add_new_run fails (Player.new name x y) g) as Ha.
  cbv zeta in Ha. unfold Game.alloc in *. cbn [fst] in Ha. rewrite Ha.
  destruct (Game.players g) as [|e l].
  - unfold NetWorking.send. split; [tauto|].
    destruct (NetWorking.connected _); [destruct fails|]; cbn; split;
      try tauto; try discriminate.
    right. split; [reflexivity|discriminate].
  - destruct (negb _); cbn; repeat split; try discriminate; auto.
Qed.

Lemma process_all_skips (fails : bool) (all_data : list PyStr.str) :
  forall g,
    fst (Game.process_all fails all_data g)
    = fst (Game.process_all fails (filter parses all_data) g).
Proof.
  induction all_data as [|pd rest IH]; intros g; [reflexivity|].
  cbn [Game.process_all filter]. destruct (parses pd) eqn:Epar.
  - cbn [Game.process_all].
    destruct (Game._process_player_data fails pd g) as [g1 ev].
    specialize (IH g1).
    destruct (Game.process_all fails rest g1) as [g2 ev'].
    destruct (Game.process_all fails (filter parses rest) g1) as [g3 ev''].
    exact IH.
  - assert (Ep : Game._parse_player_data pd = None).
    { unfold parses in Epar.
      destruct (Game._parse_player_data pd); [discriminate|reflexivity]. }
    unfold Game._process_player_data. rewrite Ep.
    specialize (IH g).
    destruct (Game.process_all fails rest g) as [g2 ev'].
    exact IH.
Qed.

Lemma parses_some (pd : PyStr.str) :
  parses pd = true -> Game._parse_player_data pd <> None.
Proof.
  unfold parses. destruct (Game._parse_player_data pd); [discriminate|].
  discriminate.
Qed.

Lemma parses_none (pd : PyStr.str) :
  parses pd = false -> Game._parse_player_data pd = None.
Proof.
  unfold parses. destruct (Game._parse_player_data pd);
    [discriminate|reflexivity].
Qed.

(** With a player listed, the events of an [UPDATE] are the reports of
    its malformed entries. *)
Lemma process_all_listed (fails : bool) (all_data : list PyStr.str) :
  forall g,
    Game.players g <> [] ->
    snd (Game.process_all fails all_data g)
    = List.map malformed_report
        (filter (fun pd => negb (parses pd)) all_data).
Proof.
  induction all_data as [|pd rest IH]; intros g Hl; [reflexivity|].
  cbn [Game.process_all filter]. destruct (parses pd) eqn:Epar.
  - destruct (@parsed_entry_events fails pd g (@parses_some pd Epar))
      as [H _]. destruct (H Hl) as [Hev Hl1]. clear H.
    destruct (Game._process_player_data fails pd g) as [g1 ev].
    cbn [fst snd] in *. subst ev. specialize (IH g1 Hl1).
    destruct (Game.process_all fails rest g1) as [g2 ev'].
    cbn [snd negb app] in *. exact IH.
  - unfold Game._process_player_data. rewrite (@parses_none pd Epar).
    specialize (IH g Hl).
    destruct (Game.process_all fails rest g) as [g2 ev'].
    cbn [snd negb app List.map] in *. now rewrite IH.
Qed.

(** What an [UPDATE] prints: the reports, and when the [JOIN] of a first
    player could not be sent, one [Send error] among them. *)
Lemma process_all_prints (fails : bool) (all_data : list PyStr.str) :
  forall g,
    let reports :=
      List.map malformed_report
        (filter (fun pd => negb (parses pd)) all_data) in
    let out := prints (snd (Game.process_all fails all_data g)) in
    (fails = false -> out = reports)
    /\ exists before after,
         reports = before ++ after
         /\ (out = reports
             \/ out = before ++ PrintedError (PyStr.text "Send error: ")
                       :: after).
Proof.
  induction all_data as [|pd rest IH]; intros g; cbv zeta.
  - split; [reflexivity|]. exists [], []. split; [reflexivity|now left].
  - cbn [Game.process_all filter]. destruct (parses pd) eqn:Epar.
    + destruct (@parsed_entry_events fails pd g (@parses_some pd Epar))
        as [_ [Hq Hone]].
      pose proof (fun g1 => @process_all_listed fails rest g1) as Hlisted.
      destruct (Game._process_player_data fails pd g) as [g1 ev].
      cbn [fst snd] in *. specialize (IH g1). cbv zeta in IH.
      specialize (Hlisted g1).
      destruct (Game.process_all fails rest g1) as [g2 ev'].
      cbn [snd negb] in *. rewrite prints_app.
      destruct IH as [IHq [before [after [Er IHo]]]]. split.
      * intros Ef. now rewrite (Hq Ef), (IHq Ef).
      * destruct Hone as [E0 | [E1 Hl1]].
        -- rewrite E0. exists before, after. split; [exact Er|exact IHo].
        -- rewrite E1, (Hlisted Hl1), prints_reports.
           exists [], (List.map malformed_report
                         (filter (fun pd => negb (parses pd)) rest)).
           split; [reflexivity|]. right. reflexivity.
    + unfold Game._process_player_data. rewrite (@parses_none pd Epar).
      specialize (IH g). cbv zeta in IH.
      destruct (Game.process_all fails rest g) as [g2 ev'].
      cbn [snd negb app List.map prints] in *.
      destruct IH as [IHq [before [after [Er IHo]]]]. split.
      * intros Ef. unfold malformed_report at 1. cbn [prints].
        now rewrite (IHq Ef).
      * exists (malformed_report pd :: before), after.
        split; [cbn [app]; now rewrite Er|].
        unfold malformed_report at 1. cbn [prints].
        destruct IHo as [-> | ->]; [left|right]; reflexivity.
Qed.

(** X14. A malformed entry of an [UPDATE] that fits one [recv], an
    entry that is not three comma-separated fields with integers in the
    last two, is reported once with [Malformed player data: ] and
    skipped: the game is left as by the same message without its
    malformed entries, and the entries after a malformed one are
    processed.  When no send fails these reports are all that is
    printed, errors included; when a player is listed already they are
    all the events there are, nothing being sent; and when the send can
    fail the one other print there can be is the [Send error] of the
    [JOIN] of a first player, once, among the reports. *)
Theorem malformed_entries_are_reported_and_skipped (fails : bool)
  (data : PyStr.str) (g : Game.t) :
  one_chunk data ->
  let entries := Game._extract_all_data data in
  let reports :=
    List.map malformed_report (filter (fun pd => negb (parses pd)) entries) in
  fst (Game.handle_update fails data g)
  = fst (Game.process_all fails (filter parses entries) g)
  /\ prints (snd (Game.handle_update false data g)) = reports
  /\ (Game.players g <> [] -> snd (Game.handle_update fails data g) = reports)
  /\ exists before after,
       reports = before ++ after
       /\ (prints (snd (Game.handle_update fails data g)) = reports
           \/ prints (snd (Game.handle_update fails data g))
              = before ++ PrintedError (PyStr.text "Send error: ") :: after).
Proof.
  intros _ entries reports. unfold Game.handle_update. fold entries.
  split; [apply process_all_skips|]. split.
  { now apply (proj1 (@process_all_prints false entries g)). }
  split; [apply process_all_listed|].
  apply (proj2 (@process_all_prints fails entries g)).
Qed.

(** X14 on an [UPDATE] with a malformed entry between two good ones, at
    the game of Me. *)
Lemma malformed_entries_are_reported_and_skipped_witness :
  one_chunk (PyStr.text "UPDATE;Bob,1,2;junk;Al,3,4")
  /\ snd (Game.handle_update true (PyStr.text "UPDATE;Bob,1,2;junk;Al,3,4")
            game_of_me)
     = [Printed (PyStr.text "Malformed player data: junk")]
  /\ Game.players
       (fst (Game.handle_update true
               (PyStr.text "UPDATE;Bob,1,2;junk;Al,3,4") game_of_me))
     = [2; 1; 0].
Proof.
  assert (Hc : one_chunk (PyStr.text "UPDATE;Bob,1,2;junk;Al,3,4")).
  { unfold one_chunk. apply Nat.leb_le. vm_compute. reflexivity. }
  split; [exact Hc|].
  pose proof (@malformed_entries_are_reported_and_skipped true
                (PyStr.text "UPDATE;Bob,1,2;junk;Al,3,4") game_of_me Hc)
    as [Hs [_ [Hev _]]].
  split.
  - apply Hev. discriminate.
  - rewrite Hs. reflexivity.
Defined.

(** X5 on the local player Me at the centre. *)
Lemma server_records_what_the_game_sends_witness :
  (Game.player game_of_me = Some 0
   /\ NetWorking.connected (Game.network game_of_me) = true
   /\ no_comma (Player.name (Game.obj game_of_me 0))
   /\ all_delivered 1 = false)
  /\ exists data,
       snd (Game.send_position false game_of_me) = [ClientSent data]
       /\ PyDict.get 1 (players (state (handle_data all_delivered 1 data
                                          two_clients)))
          = Some (Info.mk (PyStr.text "Me") 200 150).
Proof.
  assert (Hn : no_comma (Player.name (Game.obj game_of_me 0)))
    by no_comma_solve.
  split; [repeat split; exact Hn|].
  destruct (proj1 (@server_records_what_the_game_sends all_delivered 1
                     two_clients game_of_me 0 eq_refl eq_refl Hn eq_refl))
    as [data [Hs [_ Hg]]].
  exists data. split; [exact Hs|exact Hg].
Defined.

(** X13 on the local player Me and an entry for Bob. *)
Lemma left_of_own_name_hands_over_local_player_witness :
  (Game.wf game_of_me /\ plain_name (PyStr.text "Bob")
   /\ PyStr.text "Bob" <> Player.name (Game.obj game_of_me 0))
  /\ snd (Game.handle_update false (PyStr.text "UPDATE;Bob,1,2")
            (fst (Game.handle_left (PyStr.text "LEFT,Me") game_of_me)))
     = [ClientSent (PyStr.text "JOIN,Bob")].
Proof.
  assert (Hwf : Game.wf game_of_me).
  { split.
    - repeat constructor.
    - intros r E. inversion E; subst. simpl. lia. }
  assert (Hplain : plain_name (PyStr.text "Bob")).
  { split; [no_comma_solve|]. split; [no_comma_solve|reflexivity]. }
  assert (Hne : PyStr.text "Bob" <> Player.name (Game.obj game_of_me 0))
    by discriminate.
  split; [repeat split; try apply Hwf; try apply Hplain; exact Hne|].
  exact (proj2 (proj2 (proj2 (proj2 (proj2
    (@left_of_own_name_hands_over_local_player game_of_me 0
       (PyStr.text "Bob") 1 2 Hwf eq_refl eq_refl eq_refl Hplain Hne)))))).
Defined.
